(** * Code-and-Clause: content resolution and response assembly

    A shallow embedding of [routers/helpers/helper.py] ([extract_urls],
    [handle_content]) and of [routers/chatbot.py] ([chatbot_post]), with
    the properties the design document states about them.

    Python [str] values are modelled as [string]; a character stands for
    the code point of the same number (0..255).  Exceptions are modelled
    by the text [str(e)] they carry, which is all the program reads of
    them.  Calls that leave the program (network, file system, model API,
    retrieval engine, database) are answered by an oracle that sees the
    history of calls made so far; every call is recorded in that
    history. *)

From Stdlib Require Import String Ascii List Bool Arith Lia.
Import ListNotations.
Local Open Scope list_scope.
Local Open Scope string_scope.

(** ** Python string primitives *)

Module PyStr.

(** [str.isspace] on one character, which is also the class [\s] of the
    [re] module on [str] patterns. *)
Definition isspace (c : ascii) : bool :=
  let n := nat_of_ascii c in
  (((9 <=? n) && (n <=? 13)) || ((28 <=? n) && (n <=? 32))
   || (n =? 133) || (n =? 160))%nat.

(** [str.lower] on one character. *)
Definition lower_char (c : ascii) : ascii :=
  let n := nat_of_ascii c in
  if (((65 <=? n) && (n <=? 90))
      || ((192 <=? n) && (n <=? 222) && negb (n =? 215)))%nat
  then ascii_of_nat (n + 32) else c.

Fixpoint lower (s : string) : string :=
  match s with
  | EmptyString => EmptyString
  | String c s' => String (lower_char c) (lower s')
  end.

(** [strip_prefix p s] is [Some r] when [s = p ++ r]. *)
Fixpoint strip_prefix (p s : string) : option string :=
  match p, s with
  | EmptyString, _ => Some s
  | String a p', String b s' =>
      if Ascii.eqb a b then strip_prefix p' s' else None
  | String _ _, EmptyString => None
  end.

(** [s.startswith(p)] *)
Definition startswith (s p : string) : bool :=
  match strip_prefix p s with Some _ => true | None => false end.

(** [sub in s] *)
Fixpoint contains (sub s : string) : bool :=
  startswith s sub ||
  match s with
  | EmptyString => false
  | String _ s' => contains sub s'
  end.

Fixpoint lstrip (s : string) : string :=
  match s with
  | EmptyString => EmptyString
  | String c s' => if isspace c then lstrip s' else s
  end.

Fixpoint rstrip (s : string) : string :=
  match s with
  | EmptyString => EmptyString
  | String c s' =>
      match rstrip s' with
      | EmptyString => if isspace c then EmptyString else String c EmptyString
      | r => String c r
      end
  end.

(** [s.strip()] *)
Definition strip (s : string) : string := rstrip (lstrip s).

(** Truth value of a string: empty is false. *)
Definition truthy (s : string) : bool :=
  match s with EmptyString => false | _ => true end.

(** [sep.join(xs)] *)
Fixpoint join (sep : string) (xs : list string) : string :=
  match xs with
  | [] => ""
  | [x] => x
  | x :: rest => x ++ sep ++ join sep rest
  end.

(** [x or d] on optional strings: [None] and [""] both yield [d]. *)
Definition or_default (x : option string) (d : string) : string :=
  match x with
  | Some s => if truthy s then s else d
  | None => d
  end.

Definition nl : string := String (ascii_of_nat 10) EmptyString.

End PyStr.

(** ** URL extractor ([helper.py], [extract_urls]) *)

Module Extract.
Import PyStr.

(** [https?://] at the head of [s]: the text consumed and what follows.
    The optional [s] is tried first, then the match without it. *)
Definition match_scheme (s : string) : option (string * string) :=
  match strip_prefix "http" s with
  | None => None
  | Some r =>
      match
        match strip_prefix "s" r with
        | Some r' => strip_prefix "://" r'
        | None => None
        end
      with
      | Some body => Some ("https://", body)
      | None =>
          match strip_prefix "://" r with
          | Some body => Some ("http://", body)
          | None => None
          end
      end
  end.

(** [[^\s]*], greedy: the longest run without whitespace at the head. *)
Fixpoint nonspace_run (s : string) : string :=
  match s with
  | EmptyString => EmptyString
  | String c s' => if isspace c then EmptyString else String c (nonspace_run s')
  end.

(** The pattern [(https?://[^\s]+)] tried at the head of [s]. *)
Definition match_url (s : string) : option string :=
  match match_scheme s with
  | None => None
  | Some (sch, body) =>
      match nonspace_run body with
      | EmptyString => None
      | run => Some (sch ++ run)
      end
  end.

(** [re.findall]: scan left to right; after a match the scan resumes at
    the end of the matched text.  [skip] counts the characters of the
    last match that are still to be passed over. *)
Fixpoint findall (skip : nat) (s : string) : list string :=
  match s with
  | EmptyString => []
  | String _ s' =>
      match skip with
      | S k => findall k s'
      | O =>
          match match_url s with
          | Some m => m :: findall (String.length m - 1) s'
          | None => findall 0 s'
          end
      end
  end.

Definition extract_urls (text : option string) : list string :=
  match text with
  | None => []
  | Some t => if truthy t then findall 0 t else []
  end.

(** *** Texts with [k] URLs

    The layout the design document has in mind: a text is a gap, a URL,
    a gap, a URL, ..., and a tail. *)

Fixpoint no_space (s : string) : bool :=
  match s with
  | EmptyString => true
  | String c s' => negb (isspace c) && no_space s'
  end.

(** A well-formed URL: [http://] or [https://], then at least one
    character, and no whitespace anywhere. *)
Definition well_formed_url (u : string) : bool :=
  no_space u
  && (match strip_prefix "http://" u with Some b => truthy b | None => false end
      || match strip_prefix "https://" u with Some b => truthy b | None => false end).

(** A gap holds no scheme. *)
Definition scheme_free (g : string) : bool :=
  negb (contains "http://" g) && negb (contains "https://" g).

Definition starts_space (s : string) : bool :=
  match s with
  | EmptyString => false
  | String c _ => isspace c
  end.


(** What follows a gap: nothing, or text that begins with [h]. *)
Definition h_or_end (x : string) : Prop :=
  x = "" \/ exists x', x = String "h" x'.



(** *** Texts as words

    Every text is whitespace, a word, whitespace, a word, ..., whitespace,
    a word being a maximal run of non-whitespace characters.  A word
    holds at most one URL: the part of the word from the first place on
    where a scheme is followed by at least one more character. *)







End Extract.

(** ** Effects: exceptions, call history, oracles *)

Module Eff.

(** An exception, as far as the program looks at it: [str(e)]. *)
Definition exn := string.

Inductive result (A : Type) : Type :=
| Ok (a : A)
| Raise (e : exn).
Arguments Ok {A} a.
Arguments Raise {A} e.

(** One element of the [contents] list sent to the model. *)
Inductive part : Type :=
| PartBytes (data mime : string)   (* types.Part.from_bytes(data, mime_type) *)
| PartRef (ref : string)           (* what client.files.upload returned *)
| PartText (s : string).

Definition safety := list (string * string).

(** What the program reads of an [httpx] response. *)
Record http_response := { content : string; text : string }.

(** What the program reads of a model reply: [resp.text] when the
    attribute is there and holds a string. *)
Record reply := { reply_text : option string }.

(** The [response] attribute of a retrieval answer as [getattr] sees it. *)
Inductive attr : Type :=
| AttrMissing
| AttrNone
| AttrStr (s : string).

Record interaction := {
  user_id : nat;
  user_input : string;
  response : string;
  timestamp : nat
}.

(** Every call that leaves the program. *)
Inductive event : Type :=
| HttpGet (url : string)
| HttpHead (url : string)
| OpenRb (path : string)
| OpenText (path : string)
| NamedTemp (suffix : string)
| TmpWrite (name data : string)
| Upload (path : string)
| Generate (contents : list part) (settings : option safety)
| PathExists (path : string)
| Remove (path : string)
| FileRead
| DbHistory (uid limit : nat)
| Query (q : string)
| Now
| DbAdd (r : interaction)
| DbCommit
| DbRefresh
| AddTask (path : string).

Definition history := list event.

(** The outside world.  Each answer may depend on all calls made before.
    [guess_type] and [path_suffix] are the pure library functions
    [mimetypes.guess_type(x)[0]] and [pathlib.Path(x).suffix];
    [splitext] is [os.path.splitext(x)[1]]. *)
Record World := {
  guess_type : string -> option string;
  path_suffix : string -> string;
  splitext : string -> string;
  http_get : history -> string -> result http_response;
  http_head : history -> string -> result (option string);
  open_rb : history -> string -> result string;
  open_text : history -> string -> result string;
  named_temp : history -> string -> result string;
  tmp_write : history -> string -> string -> result unit;
  upload : history -> string -> result string;
  generate : history -> list part -> option safety -> result reply;
  path_exists : history -> string -> bool;
  remove : history -> string -> result unit;
  file_read : history -> result string;
  db_history : history -> nat -> nat -> result (list interaction);
  query : history -> string -> result (option attr);
  now : history -> nat;
  db_add : history -> interaction -> result unit;
  db_commit : history -> result unit;
  db_refresh : history -> result unit
}.

(** Program state: the call history, the list of temporary files of the
    running function ([temp_files], [temp_files_to_remove]), the records
    added to the database session and the records committed. *)
Record St := {
  trace : history;
  temps : list string;
  session : list interaction;
  store : list interaction
}.

Definition M (A : Type) : Type := St -> result A * St.

Definition ret {A} (a : A) : M A := fun st => (Ok a, st).

Definition raise {A} (e : exn) : M A := fun st => (Raise e, st).

Definition bind {A B} (m : M A) (k : A -> M B) : M B :=
  fun st =>
    match m st with
    | (Ok a, st') => k a st'
    | (Raise e, st') => (Raise e, st')
    end.

(** [try: m except Exception as e: h e].  The state reached when the
    exception was raised is kept. *)
Definition catch {A} (m : M A) (h : exn -> M A) : M A :=
  fun st =>
    match m st with
    | (Ok a, st') => (Ok a, st')
    | (Raise e, st') => h e st'
    end.

(** [try: m finally: c], where [c] contains no [return]. *)
Definition finally {A} (m : M A) (c : M unit) : M A :=
  fun st =>
    match m st with
    | (r, st1) =>
        match c st1 with
        | (Ok _, st2) => (r, st2)
        | (Raise e, st2) => (Raise e, st2)
        end
    end.

Definition log (ev : event) (st : St) : St :=
  {| trace := trace st ++ [ev]; temps := temps st;
     session := session st; store := store st |}%list.

(** A call to the outside: the oracle answers from the history so far,
    and the call joins the history. *)
Definition call {A} (ev : event) (answer : history -> result A) : M A :=
  fun st => (answer (trace st), log ev st).

(** [temp_files.append(name)] *)
Definition push_temp (name : string) : M unit :=
  fun st => (Ok tt, {| trace := trace st; temps := (temps st ++ [name])%list;
                       session := session st; store := store st |}).

Definition get_temps : M (list string) := fun st => (Ok (temps st), st).

(** A function call: the callee starts with its own empty list of
    temporary files, and the caller's list is back when it returns. *)
Definition enter (st : St) : St :=
  {| trace := trace st; temps := []; session := session st; store := store st |}.

Definition leave (caller st' : St) : St :=
  {| trace := trace st'; temps := temps caller;
     session := session st'; store := store st' |}.

Definition with_frame {A} (m : M A) : M A :=
  fun st =>
    match m (enter st) with
    | (r, st') => (r, leave st st')
    end.

(** [for x in xs: body x] *)
Fixpoint for_each {A} (xs : list A) (body : A -> M unit) : M unit :=
  match xs with
  | [] => ret tt
  | x :: rest => bind (body x) (fun _ => for_each rest body)
  end.

End Eff.

Declare Scope eff_scope.
Delimit Scope eff_scope with eff.
Notation "x <- m ;; k" := (Eff.bind m (fun x => k))
  (at level 61, m at next level, right associativity) : eff_scope.
Notation "m ;;; k" := (Eff.bind m (fun _ => k))
  (at level 61, right associativity) : eff_scope.

(** ** Content resolver ([helper.py], [handle_content]) *)

Module Resolver.
Import PyStr Eff.
Local Open Scope eff_scope.

(** The [safety_settings] dictionary of the retry. *)
Definition safety_settings : safety :=
  [ ("HARASSMENT", "BLOCK_NONE"); ("HATE", "BLOCK_NONE");
    ("SEXUAL", "BLOCK_NONE"); ("DANGEROUS", "BLOCK_NONE") ].

(** What the retry runs into.  [client] is a [google.genai] client, and
    its [models.generate_content] takes the keywords [model], [contents]
    and [config] only: called with [safety_settings=...] it ends in this
    [TypeError] before any request is made. *)
Definition retry_type_error : exn :=
  "Models.generate_content() got an unexpected keyword argument 'safety_settings'".

(** A world whose client library has that signature. *)
Definition sdk_signature (w : World) : Prop :=
  forall (h : history) (cs : list part) (s : safety),
    generate w h cs (Some s) = Raise retry_type_error.

Definition no_text_placeholder : string :=
  "I couldn't generate a response for this content.".

(** [if not mime_type: mime_type = mimetypes.guess_type(source)[0]] *)
Definition resolve_mime (w : World) (source : string) (mime : option string)
  : option string :=
  match mime with
  | Some m => if truthy m then Some m else guess_type w source
  | None => guess_type w source
  end.

(** [mime_type == "application/pdf"] *)
Definition is_pdf (mime : option string) : bool :=
  match mime with
  | Some m => String.eqb m "application/pdf"
  | None => false
  end.

(** [mime_type and mime_type.startswith(p)] *)
Definition mime_starts (mime : option string) (p : string) : bool :=
  match mime with
  | Some m => truthy m && startswith m p
  | None => false
  end.

(** [mime_type and (mime_type.startswith("text/") or "json" in mime_type)] *)
Definition is_textual (mime : option string) : bool :=
  match mime with
  | Some m => truthy m && (startswith m "text/" || contains "json" m)
  | None => false
  end.

(** The shared head of the image and audio branches: a remote source is
    fetched into a temporary file, which is then remembered in
    [temp_files]; a local source is used as it is.  [TmpWrite] stands
    for [tmp.write], [tmp.flush] and [tmp.close] together. *)
Definition materialize (w : World) (source : string) : M string :=
  if startswith source "http" then
    resp <- call (HttpGet source) (fun h => http_get w h source) ;;
    name <- call (NamedTemp (path_suffix w source))
                 (fun h => named_temp w h (path_suffix w source)) ;;
    call (TmpWrite name (content resp))
         (fun h => tmp_write w h name (content resp)) ;;;
    push_temp name ;;;
    ret name
  else ret source.

(** The category dispatch.  [inl t] is an early [return t]; [inr cs] is
    the [contents] list with which the function goes on. *)
Definition assemble (w : World) (source : string) (mime user_input : option string)
  : M (string + list part) :=
  if is_pdf mime then
    if startswith source "http" then
      catch
        (resp <- call (HttpGet source) (fun h => http_get w h source) ;;
         ret (inr [PartBytes (content resp) "application/pdf";
                   PartText (or_default user_input "Summarize this document.")]))
        (fun e => ret (inl ("Error fetching PDF: " ++ e)))
    else
      catch
        (data <- call (OpenRb source) (fun h => open_rb w h source) ;;
         ret (inr [PartBytes data "application/pdf";
                   PartText (or_default user_input "Summarize this document.")]))
        (fun e => ret (inl ("Error reading PDF file: " ++ e)))
  else if mime_starts mime "image/" then
    catch
      (file_to_use <- materialize w source ;;
       upload_ref <- call (Upload file_to_use) (fun h => upload w h file_to_use) ;;
       ret (inr [PartRef upload_ref;
                 PartText (or_default user_input "Caption this image.")]))
      (fun e => ret (inl ("Error processing image: " ++ e)))
  else if mime_starts mime "audio/" then
    catch
      (file_to_use <- materialize w source ;;
       upload_ref <- call (Upload file_to_use) (fun h => upload w h file_to_use) ;;
       ret (inr [PartText (or_default user_input "Describe this audio clip.");
                 PartRef upload_ref]))
      (fun e => ret (inl ("Error processing audio: " ++ e)))
  else if is_textual mime then
    catch
      (text_data <-
         (if startswith source "http" then
            resp <- call (HttpGet source) (fun h => http_get w h source) ;;
            ret (text resp)
          else call (OpenText source) (fun h => open_text w h source)) ;;
       ret (inr [PartText text_data;
                 PartText (or_default user_input "Summarize this content.")]))
      (fun e => ret (inl ("Error processing text content: " ++ e)))
  else
    ret (inl ("Unsupported content type: " ++ or_default mime "unknown")).

(** ["blocked" in str(e).lower() or "safety" in str(e).lower()] *)
Definition is_safety_block (e : exn) : bool :=
  contains "blocked" (lower e) || contains "safety" (lower e).

(** The inner [try] of the generation step: one call with the default
    settings, and on a safety rejection one more with [safety_settings];
    any other exception is raised again. *)
Definition generate_with_retry (w : World) (contents : list part) : M reply :=
  catch
    (call (Generate contents None) (fun h => generate w h contents None))
    (fun e =>
       if is_safety_block e then
         call (Generate contents (Some safety_settings))
              (fun h => generate w h contents (Some safety_settings))
       else raise e).

(** [resp.text] if [hasattr(resp, 'text') and resp.text], else the
    placeholder. *)
Definition reply_or_placeholder (resp : reply) : string :=
  match reply_text resp with
  | Some t => if truthy t then t else no_text_placeholder
  | None => no_text_placeholder
  end.

(** The whole generation step with its handler. *)
Definition generate_text (w : World) (contents : list part) : M string :=
  catch
    (resp <- generate_with_retry w contents ;;
     ret (reply_or_placeholder resp))
    (fun e => ret ("Error generating response: " ++ e)).

(** The [finally] block: every remembered temporary file is removed if
    it exists; a failure to do so is logged and passed over. *)
Definition cleanup (w : World) : M unit :=
  ts <- get_temps ;;
  for_each ts (fun f =>
    catch
      (ex <- call (PathExists f) (fun h => Ok (path_exists w h f)) ;;
       if ex : bool then call (Remove f) (fun h => remove w h f) else ret tt)
      (fun _ => ret tt)).

Definition handle_content (w : World) (source : string)
           (mime_type user_input : option string) : M string :=
  with_frame
    (let mime := resolve_mime w source mime_type in
     finally
       (catch
          (r <- assemble w source mime user_input ;;
           match r with
           | inl t => ret t
           | inr contents => generate_text w contents
           end)
          (fun e => ret ("An error occurred while processing your request: " ++ e)))
       (cleanup w)).

End Resolver.

(** ** Response aggregator ([chatbot.py], [chatbot_post]) *)

Module Chatbot.
Import PyStr Eff Extract Resolver.
Local Open Scope eff_scope.

Definition MAX_HISTORY : nat := 5.

Definition prompt_header : string :=
  nl ++ "  you are Code&Clause, designed to assist with the clearance of Information Technology projects by public institutions."
  ++ nl ++ "  You can also provide efficient, enjoyable, and secure service by processing applications, sending notices, verifying identity, resolving disputes, managing risk, and improving NITDA services."
  ++ nl ++ "  You can also help detect, prevent, or remediate violations of laws, regulations, standards, guidelines, and frameworks, as well as track information breaches and manage information technology and physical infrastructure."
  ++ nl.

Definition rag_placeholder : string :=
  "I couldn't generate a good response for your query.".

Definition trouble_placeholder : string :=
  "I'm having trouble generating a response right now.".

(** The uploaded file as the handler reads it. *)
Record upload_file := {
  filename : option string;
  content_type : option string
}.

(** What the endpoint gives back: the [ChatbotResponse], or an
    [HTTPException]. *)
Inductive endpoint : Type :=
| Success (user_input response : string) (timestamp : nat)
| HttpError (code : nat) (detail : string).

(** Truth value of an optional string. *)
Definition given (x : option string) : bool :=
  match x with Some s => truthy s | None => false end.

(** [db.add(record)] *)
Definition db_add_record (w : World) (r : interaction) : M unit :=
  call (DbAdd r) (fun h => db_add w h r) ;;;
  (fun st => (Ok tt, {| trace := trace st; temps := temps st;
                        session := (session st ++ [r])%list;
                        store := store st |})).

(** [db.commit()] *)
Definition db_commit_session (w : World) : M unit :=
  call DbCommit (fun h => db_commit w h) ;;;
  (fun st => (Ok tt, {| trace := trace st; temps := temps st;
                        session := [];
                        store := (store st ++ session st)%list |})).

(** [record.user_input], [record.timestamp] read after the commit.  The
    session expires the attributes of a committed object, so the first
    read loads the row again, which can fail; a row that loads holds
    what was assigned. *)
Definition db_refresh_record (w : World) : M unit :=
  call DbRefresh (fun h => db_refresh w h).

(** Step 1: the uploaded file.  Gives the texts to append to
    [response_texts]. *)
Definition file_step (w : World) (user_input : option string)
           (file : option upload_file) : M (list string) :=
  match file with
  | None => ret []
  | Some f =>
      fname <- match filename f with
               | Some n => ret n
               | None => raise "expected str, bytes or os.PathLike object, not NoneType"
               end ;;
      name <- call (NamedTemp (splitext w fname))
                   (fun h => named_temp w h (splitext w fname)) ;;
      content <- call FileRead (fun h => file_read w h) ;;
      call (TmpWrite name content) (fun h => tmp_write w h name content) ;;;
      push_temp name ;;;
      (let mime := match content_type f with
                   | Some m => if truthy m then Some m else guess_type w fname
                   | None => guess_type w fname
                   end in
       t <- catch
              (response <- handle_content w name mime
                             (Some (or_default user_input "Analyze this file.")) ;;
               if truthy response then ret response
               else ret "I couldn't process this file type properly.")
              (fun e => ret ("Error processing file: " ++ e)) ;;
       ret [t])
  end.

(** One turn of the loop over the URLs. *)
Definition url_step (w : World) (user_input url : string) : M string :=
  catch
    (head <- call (HttpHead url) (fun h => http_head w h url) ;;
     (let mime := match head with
                  | Some ct => Some ct
                  | None => guess_type w url
                  end in
      url_response <- handle_content w url mime (Some user_input) ;;
      if truthy url_response then ret url_response
      else ret ("Couldn't process URL: " ++ url)))
    (fun e => ret ("Error processing URL " ++ url ++ ": " ++ e)).

Fixpoint url_loop (w : World) (user_input : string) (urls : list string)
  : M (list string) :=
  match urls with
  | [] => ret []
  | url :: rest =>
      t <- url_step w user_input url ;;
      ts <- url_loop w user_input rest ;;
      ret (t :: ts)
  end.

(** Step 2: the URLs of the text. *)
Definition urls_step (w : World) (user_input : option string) : M (list string) :=
  match user_input with
  | Some ui =>
      if truthy ui then url_loop w ui (extract_urls (Some ui)) else ret []
  | None => ret []
  end.

(** [r and r.strip() and "Empty Response" not in r] *)
Definition keeps (r : string) : bool :=
  truthy r && truthy (strip r) && negb (contains "Empty Response" r).

(** [[r.strip() for r in response_texts if ...]] *)
Definition filter_texts (texts : list string) : list string :=
  map strip (filter keeps texts).

(** Step 3: the retrieval query when nothing is left. *)
Definition fallback_step (w : World) (user_input : option string)
           (texts : list string) : M (list string) :=
  match texts, user_input with
  | [], Some ui =>
      if truthy ui then
        catch
          (out <- call (Query (prompt_header ++ nl ++ ui))
                       (fun h => query w h (prompt_header ++ nl ++ ui)) ;;
           match out with
           | None => ret [rag_placeholder]
           | Some AttrMissing => ret [rag_placeholder]
           | Some AttrNone => raise "'NoneType' object has no attribute 'strip'"
           | Some (AttrStr s) =>
               if truthy (strip s) then ret [strip s] else ret [rag_placeholder]
           end)
          (fun e => ret ["Error generating response: " ++ e])
      else ret texts
  | _, _ => ret texts
  end.

(** Step 4: ["\n\n".join(response_texts) or "I'm having trouble ..."] *)
Definition final_response (texts : list string) : string :=
  let joined := join (nl ++ nl) texts in
  if truthy joined then joined else trouble_placeholder.

(** [user_input or (file.filename if file else "<empty>")], evaluated
    where [file.filename] is known to be a string. *)
Definition record_input (user_input : option string) (file : option upload_file)
  : string :=
  match user_input with
  | Some ui =>
      if truthy ui then ui
      else match file with
           | Some f => match filename f with Some n => n | None => "" end
           | None => "<empty>"
           end
  | None =>
      match file with
      | Some f => match filename f with Some n => n | None => "" end
      | None => "<empty>"
      end
  end.

(** Step 4 and the persisting of the record, up to the [return]. *)
Definition persist_and_reply (w : World) (uid : nat) (user_input : option string)
           (file : option upload_file) (response_texts : list string) : M endpoint :=
  let final_resp := final_response response_texts in
  ts <- call Now (fun h => Ok (now w h)) ;;
  (let record := {| user_id := uid;
                    user_input := record_input user_input file;
                    response := final_resp;
                    timestamp := ts |} in
   db_add_record w record ;;;
   db_commit_session w ;;;
   db_refresh_record w ;;;
   ret (Success (Eff.user_input record) final_resp (timestamp record))).

(** The body of the outer [try]. *)
Definition chatbot_body (w : World) (uid : nat) (user_input : option string)
           (file : option upload_file) : M endpoint :=
  from_file <- file_step w user_input file ;;
  from_urls <- urls_step w user_input ;;
  response_texts <-
    fallback_step w user_input (filter_texts (from_file ++ from_urls)%list) ;;
  persist_and_reply w uid user_input file response_texts.

(** The outer [finally]: removal of the temporary files is handed to the
    background tasks. *)
Definition schedule_cleanup : M unit :=
  ts <- get_temps ;;
  for_each ts (fun f => call (AddTask f) (fun _ => Ok tt)).

Definition chatbot_post (w : World) (uid : nat) (user_input : option string)
           (file : option upload_file) : M endpoint :=
  with_frame
    (if negb (given user_input) && negb (match file with Some _ => true | None => false end)
     then ret (HttpError 400 "Provide text, file, or URL links")
     else
       past <- call (DbHistory uid MAX_HISTORY)
                    (fun h => db_history w h uid MAX_HISTORY) ;;
       finally
         (catch
            (chatbot_body w uid user_input file)
            (fun e => ret (HttpError 500 ("An error occurred: " ++ e))))
         schedule_cleanup).

(** What the fallback appends for each answer of the retrieval engine. *)
Definition fallback_text (answer : result (option attr)) : string :=
  match answer with
  | Ok None => rag_placeholder
  | Ok (Some AttrMissing) => rag_placeholder
  | Ok (Some AttrNone) =>
      "Error generating response: 'NoneType' object has no attribute 'strip'"
  | Ok (Some (AttrStr s)) => if truthy (strip s) then strip s else rag_placeholder
  | Raise e => "Error generating response: " ++ e
  end.

End Chatbot.

(** ** Reasoning about effectful code *)

Module Logic.
Import Eff.

(** [spec m E R]: whatever the starting state, a run of [m] only adds
    calls that satisfy [E] to the history, leaves the database session
    and store alone, and ends with a result that satisfies [R]. *)
Definition spec {A} (m : M A) (E : event -> Prop) (R : result A -> Prop) : Prop :=
  forall st r st', m st = (r, st') ->
    (exists new, trace st' = (trace st ++ new)%list /\ Forall E new)
    /\ session st' = session st
    /\ store st' = store st
    /\ R r.

(** The result is a value, and it satisfies [Q]. *)
Definition returns {A} (Q : A -> Prop) (r : result A) : Prop :=
  match r with
  | Ok a => Q a
  | Raise _ => False
  end.

(** If the result is a value, it satisfies [Q]. *)
Definition yields {A} (Q : A -> Prop) (r : result A) : Prop :=
  match r with
  | Ok a => Q a
  | Raise _ => True
  end.

(** The calls the content resolver may make; a call to the model must
    carry a payload that satisfies [P]. *)
Definition resolver_call (P : list part -> Prop) (ev : event) : Prop :=
  match ev with
  | Generate cs _ => P cs
  | HttpGet _ | OpenRb _ | OpenText _ | NamedTemp _ | TmpWrite _ _
  | Upload _ | PathExists _ | Remove _ => True
  | _ => False
  end.

(** The payload each category sends, in order. *)
Definition payload_of (mime user_input : option string) (cs : list part) : Prop :=
  if Resolver.is_pdf mime then
    exists data, cs = [PartBytes data "application/pdf";
                       PartText (PyStr.or_default user_input "Summarize this document.")]
  else if Resolver.mime_starts mime "image/" then
    exists ref, cs = [PartRef ref;
                      PartText (PyStr.or_default user_input "Caption this image.")]
  else if Resolver.mime_starts mime "audio/" then
    exists ref, cs = [PartText (PyStr.or_default user_input "Describe this audio clip.");
                      PartRef ref]
  else if Resolver.is_textual mime then
    exists t, cs = [PartText t;
                    PartText (PyStr.or_default user_input "Summarize this content.")]
  else False.

(** What the dispatch hands on: a non-empty text to return at once, or
    the payload of the category. *)
Definition dispatched (mime user_input : option string) (r : string + list part) : Prop :=
  match r with
  | inl t => PyStr.truthy t = true
  | inr cs => payload_of mime user_input cs
  end.

(** The calls made while texts are gathered from the file and the URLs:
    anything but the retrieval query, the clock, the database and the
    background tasks. *)
Definition gathering_call (ev : event) : Prop :=
  match ev with
  | Query _ | Now | DbAdd _ | DbCommit | DbRefresh | DbHistory _ _ | AddTask _ => False
  | _ => True
  end.

(** Those calls and the retrieval query. *)
Definition answering_call (ev : event) : Prop :=
  match ev with
  | Now | DbAdd _ | DbCommit | DbRefresh | DbHistory _ _ | AddTask _ => False
  | _ => True
  end.

(** The records handed to [db.add] in a stretch of history. *)
Fixpoint db_adds (h : history) : list interaction :=
  match h with
  | [] => []
  | DbAdd r :: rest => r :: db_adds rest
  | _ :: rest => db_adds rest
  end.

(** The texts sent to the retrieval engine in a stretch of history. *)
Fixpoint queries (h : history) : list string :=
  match h with
  | [] => []
  | Query q :: rest => q :: queries rest
  | _ :: rest => queries rest
  end.

End Logic.

(** ** Observations on call histories *)

Module Obs.
Import Eff.

(** The model calls of a stretch of history: payload and settings. *)
Fixpoint generates (h : history) : list (list part * option safety) :=
  match h with
  | [] => []
  | Generate cs s :: rest => (cs, s) :: generates rest
  | _ :: rest => generates rest
  end.

(** The URLs probed with HEAD in a stretch of history. *)
Fixpoint heads (h : history) : list string :=
  match h with
  | [] => []
  | HttpHead url :: rest => url :: heads rest
  | _ :: rest => heads rest
  end.

(** The calls a resolution of a local source may make: it reads or
    uploads the source itself and talks to the model. *)
Definition local_call (source : string) (ev : event) : Prop :=
  match ev with
  | OpenRb p | OpenText p | Upload p => p = source
  | Generate _ _ => True
  | _ => False
  end.

(** Upload and model calls. *)
Definition model_side_call (ev : event) : Prop :=
  match ev with
  | Upload _ | Generate _ _ => True
  | _ => False
  end.

(** [m] leaves the list of temporary files of the running function as
    it found it. *)
Definition keeps_temps {A} (m : M A) : Prop :=
  forall st r st', m st = (r, st') -> temps st' = temps st.

(** The removals handed to the background tasks in a stretch of
    history. *)
Fixpoint add_tasks (h : history) : list string :=
  match h with
  | [] => []
  | AddTask f :: rest => f :: add_tasks rest
  | _ :: rest => add_tasks rest
  end.

(** The calls made while texts are gathered, where each payload sent to
    the model holds the prompt [p]. *)
Definition prompted_call (p : string) (ev : event) : Prop :=
  match ev with
  | Generate cs _ => In (PartText p) cs
  | Query _ | Now | DbAdd _ | DbCommit | DbRefresh | DbHistory _ _ | AddTask _ => False
  | _ => True
  end.

(** The calls of the fallback and of the persisting of the record. *)
Definition closing_call (ev : event) : Prop :=
  match ev with
  | Query _ | Now | DbAdd _ | DbCommit | DbRefresh => True
  | _ => False
  end.

End Obs.

(** ** Recent history ([chatbot.py], the [deque] of [chatbot_post]) *)

Module History.
Import Eff.

(** [d.append(x)] on a [deque(maxlen=maxlen)]: when the deque is full
    the leftmost element goes. *)
Definition deque_append {A} (maxlen : nat) (d : list A) (x : A) : list A :=
  match maxlen with
  | O => []
  | S _ => if (List.length d <? maxlen)%nat then (d ++ [x])%list
           else (tl d ++ [x])%list
  end.

(** [d.extend(xs)] *)
Definition deque_extend {A} (maxlen : nat) (d : list A) (xs : list A) : list A :=
  fold_left (deque_append maxlen) xs d.

(** [history = deque(maxlen=MAX_HISTORY)] filled from [reversed(past)],
    where [past] is the reply of the history query (latest first). *)
Definition recent_history (past : list interaction) : list string :=
  fold_left
    (fun history msg =>
       deque_extend Chatbot.MAX_HISTORY history [user_input msg; response msg])
    (rev past) [].

(** The last [n] elements of a list. *)
Definition lastn {A} (n : nat) (l : list A) : list A :=
  skipn (List.length l - n)%nat l.

End History.

(** ** Index loading ([rag/query_engine.py]) *)

Module Indexer.
Import PyStr Eff.

Definition doc := string.
Definition embed_model := string.
Definition vector_store := string.
Definition index := string.

(** The calls of this module that leave the program. *)
Inductive ix_event : Type :=
| IxExists (path : string)
| IxWalk (folder : string)
| IxLoadData (path : string)
| IxMakedirs (path : string)
| IxListdir (path : string)
| IxEmbedding (model_name : string)
| IxSaveModel (model_name path : string)
| IxGemini (model : string)
| IxInitVectorDb
| IxFromDocuments (docs : list doc) (embed : embed_model)
| IxFromVectorStore (embed : option embed_model).

Definition ix_history := list ix_event.

(** The outside world of the index loader.  [env] is [os.getenv];
    [walk] gives what [os.walk] yields, as pairs of a directory and the
    file names in it; [path_join] is [os.path.join]. *)
Record Sys := {
  env : string -> option string;
  path_join : string -> string -> string;
  exists_path : ix_history -> string -> bool;
  walk : ix_history -> string -> list (string * list string);
  load_data : ix_history -> string -> result (list doc);
  makedirs : ix_history -> string -> result unit;
  listdir : ix_history -> string -> result (list string);
  load_embedding : ix_history -> string -> result embed_model;
  save_model : ix_history -> string -> string -> result unit;
  make_llm : ix_history -> string -> result unit;
  init_vector_db : ix_history -> result vector_store;
  from_documents :
    ix_history -> list doc -> vector_store -> embed_model -> result index;
  from_vector_store :
    ix_history -> vector_store -> option embed_model -> result index
}.

(** The call history, the module variable [global_index] and
    [app.state.index] (absent until it is assigned). *)
Record IxSt := {
  ix_trace : ix_history;
  global_index : option index;
  app_index : option index
}.

Definition IM (A : Type) : Type := IxSt -> result A * IxSt.

Definition iret {A} (a : A) : IM A := fun st => (Ok a, st).
Definition iraise {A} (e : exn) : IM A := fun st => (Raise e, st).
Definition ibind {A B} (m : IM A) (k : A -> IM B) : IM B :=
  fun st =>
    match m st with
    | (Ok a, st') => k a st'
    | (Raise e, st') => (Raise e, st')
    end.

Definition icall {A} (ev : ix_event) (answer : ix_history -> result A) : IM A :=
  fun st =>
    (answer (ix_trace st),
     {| ix_trace := (ix_trace st ++ [ev])%list;
        global_index := global_index st;
        app_index := app_index st |}).

(** [s.endswith(suffix)] *)
Fixpoint endswith (s suffix : string) : bool :=
  String.eqb s suffix ||
  match s with
  | EmptyString => false
  | String _ s' => endswith s' suffix
  end.

(** [fname.lower().endswith(".pdf")] *)
Definition is_pdf_name (fname : string) : bool := endswith (lower fname) ".pdf".

(** [os.getenv(name, default)] *)
Definition getenv (s : Sys) (name default : string) : string :=
  match env s name with
  | Some v => v
  | None => default
  end.

(** [BASE_PDF_DIR] *)
Definition BASE_PDF_DIR (s : Sys) : string := getenv s "PDF_INPUT_DIR" "rag/data/NITDA".

(** The inner loop of [load_all_pdfs_from_folder] over the files of one
    directory: a file that cannot be read is logged and passed over. *)
Fixpoint load_files (s : Sys) (root : string) (files : list string)
         (all_docs : list doc) : IM (list doc) :=
  match files with
  | [] => iret all_docs
  | fname :: rest =>
      if is_pdf_name fname then
        let path := path_join s root fname in
        fun st =>
          match icall (IxLoadData path) (fun h => load_data s h path) st with
          | (Ok docs, st') => load_files s root rest (all_docs ++ docs)%list st'
          | (Raise _, st') => load_files s root rest all_docs st'
          end
      else load_files s root rest all_docs
  end.

(** The outer loop, over what [os.walk] yields. *)
Fixpoint load_dirs (s : Sys) (dirs : list (string * list string))
         (all_docs : list doc) : IM (list doc) :=
  match dirs with
  | [] => iret all_docs
  | (root, files) :: rest =>
      ibind (load_files s root files all_docs) (fun docs => load_dirs s rest docs)
  end.

Definition load_all_pdfs_from_folder (s : Sys) (folder_path : string)
  : IM (list doc) :=
  ibind (icall (IxExists folder_path) (fun h => Ok (exists_path s h folder_path)))
        (fun present =>
           if present : bool then
             ibind (icall (IxWalk folder_path) (fun h => Ok (walk s h folder_path)))
                   (fun dirs => load_dirs s dirs [])
           else iret []).

(** [load_or_create_index(docs, embed_model, force_reload)]; the handler
    logs the exception and raises it again. *)
Definition load_or_create_index (s : Sys) (docs : option (list doc))
           (embed : option embed_model) (force_reload : bool) : IM index :=
  ibind (icall IxInitVectorDb (fun h => init_vector_db s h))
        (fun vs =>
           if force_reload then
             match docs, embed with
             | Some ds, Some em =>
                 icall (IxFromDocuments ds em) (fun h => from_documents s h ds vs em)
             | _, _ =>
                 iraise "Documents and embed_model are required on force reload"
             end
           else
             icall (IxFromVectorStore embed) (fun h => from_vector_store s h vs embed)).

Definition HF_MODEL_NAME : string := "sentence-transformers/all-mpnet-base-v2".

(** [HF_MODEL_NAME.replace("/", "_")] *)
Fixpoint replace_slash (s : string) : string :=
  match s with
  | EmptyString => EmptyString
  | String c s' =>
      String (if Ascii.eqb c "/" then "_"%char else c) (replace_slash s')
  end.

Definition LOCAL_MODEL_PATH (s : Sys) : string :=
  path_join s "cached_models" (replace_slash HF_MODEL_NAME).

(** [os.getenv("FORCE_RELOAD_INDEX", "false").lower() == "true"] *)
Definition force_reload_requested (s : Sys) : bool :=
  String.eqb (lower (getenv s "FORCE_RELOAD_INDEX" "false")) "true".

Definition set_indexes (ix : index) : IM unit :=
  fun st => (Ok tt, {| ix_trace := ix_trace st;
                       global_index := Some ix;
                       app_index := Some ix |}).

(** The embedding model of [lifespan]: from the local cache when the
    cache directory exists and is not empty, otherwise downloaded and
    then saved there. *)
Definition load_embed_model (s : Sys) : IM embed_model :=
  ibind (icall (IxMakedirs "cached_models") (fun h => makedirs s h "cached_models"))
    (fun _ =>
  ibind (icall (IxExists (LOCAL_MODEL_PATH s))
               (fun h => Ok (exists_path s h (LOCAL_MODEL_PATH s))))
    (fun present =>
  ibind (if present : bool then
           ibind (icall (IxListdir (LOCAL_MODEL_PATH s))
                        (fun h => listdir s h (LOCAL_MODEL_PATH s)))
                 (fun names => iret (match names with [] => false | _ => true end))
         else iret false)
    (fun cached_model =>
       if cached_model : bool then
         icall (IxEmbedding (LOCAL_MODEL_PATH s))
               (fun h => load_embedding s h (LOCAL_MODEL_PATH s))
       else
         ibind (icall (IxEmbedding HF_MODEL_NAME)
                      (fun h => load_embedding s h HF_MODEL_NAME))
               (fun em =>
         ibind (icall (IxSaveModel HF_MODEL_NAME (LOCAL_MODEL_PATH s))
                      (fun h => save_model s h HF_MODEL_NAME (LOCAL_MODEL_PATH s)))
               (fun _ => iret em))))).

(** [lifespan] past the cache test, up to the index: the embedding
    model, the LLM, and the index, built anew from the PDF files when a
    reload is forced and loaded from the vector store otherwise. *)
Definition prepare_index (s : Sys) : IM index :=
  ibind (load_embed_model s)
    (fun embed =>
  ibind (icall (IxGemini (getenv s "GEMINI_MODEL" "gemini-2.0-flash"))
               (fun h => make_llm s h (getenv s "GEMINI_MODEL" "gemini-2.0-flash")))
    (fun _ =>
       if force_reload_requested s then
         ibind (load_all_pdfs_from_folder s (BASE_PDF_DIR s))
               (fun docs => load_or_create_index s (Some docs) (Some embed) true)
       else load_or_create_index s None (Some embed) false)).

(** Then the two assignments [app.state.index = index] and
    [global_index = index]. *)
Definition build_index (s : Sys) : IM unit :=
  ibind (prepare_index s) set_indexes.

(** The part of [lifespan] that runs before the application starts to
    serve, up to the [yield].  An exception is logged and raised again.
    The assignments to [Settings] are not part of the model. *)
Definition startup (s : Sys) : IM unit :=
  fun st =>
    match global_index st with
    | Some cached =>
        if negb (force_reload_requested s) then
          (Ok tt, {| ix_trace := ix_trace st;
                     global_index := global_index st;
                     app_index := Some cached |})
        else build_index s st
    | None => build_index s st
    end.

(** [get_query_engine]: the index whose query engine is handed out. *)
Definition get_query_engine (st : IxSt) : result index :=
  match app_index st with
  | None => Raise "RAG index not initialized"
  | Some ix => Ok ix
  end.

(** The paths [load_all_pdfs_from_folder] is to read: the PDF files of
    each directory, in the order of the walk. *)
Definition pdf_paths (s : Sys) (dirs : list (string * list string)) : list string :=
  flat_map (fun d => map (path_join s (fst d)) (filter is_pdf_name (snd d))) dirs.

(** The paths handed to the PDF reader in a stretch of history. *)
Fixpoint loads (h : ix_history) : list string :=
  match h with
  | [] => []
  | IxLoadData p :: rest => p :: loads rest
  | _ :: rest => loads rest
  end.

(** The documents of a path that can be read, nothing otherwise. *)
Definition docs_of (rd : string -> result (list doc)) (path : string) : list doc :=
  match rd path with
  | Ok docs => docs
  | Raise _ => []
  end.

(** [ispec m E]: a run of [m] only adds calls that satisfy [E] to the
    history and leaves [global_index] and [app.state.index] alone. *)
Definition ispec {A} (m : IM A) (E : ix_event -> Prop) : Prop :=
  forall st r st', m st = (r, st') ->
    (exists new, ix_trace st' = (ix_trace st ++ new)%list /\ Forall E new)
    /\ global_index st' = global_index st
    /\ app_index st' = app_index st.

(** Calls that read no document and build no index from documents. *)
Definition no_document_call (ev : ix_event) : Prop :=
  match ev with
  | IxWalk _ | IxLoadData _ | IxFromDocuments _ _ => False
  | _ => True
  end.

(** Calls that do not load the index from the vector store. *)
Definition no_store_load_call (ev : ix_event) : Prop :=
  match ev with
  | IxFromVectorStore _ => False
  | _ => True
  end.

End Indexer.

(** ** Concrete worlds *)

Module Examples.
Import PyStr Eff.

Definition unavailable {A} : result A := Raise "unavailable".

(** A world given by its network, file, model and retrieval answers,
    none of which looks at the history; temporary files and the
    database always work, and the client library rejects a model call
    that carries safety settings. *)
Definition world_of
           (get : string -> result http_response)
           (head : string -> result (option string))
           (opent : string -> result string)
           (upl : string -> result string)
           (gen : list part -> option safety -> result reply)
           (qry : string -> result (option attr)) : World :=
  {| guess_type := fun _ => None;
     path_suffix := fun _ => "";
     splitext := fun _ => "";
     http_get := fun _ => get;
     http_head := fun _ => head;
     open_rb := fun _ _ => unavailable;
     open_text := fun _ => opent;
     named_temp := fun _ suffix => Ok ("/tmp/tmp" ++ suffix);
     tmp_write := fun _ _ _ => Ok tt;
     upload := fun _ => upl;
     generate := fun _ cs settings =>
                   match settings with
                   | Some _ => Raise Resolver.retry_type_error
                   | None => gen cs None
                   end;
     path_exists := fun _ _ => true;
     remove := fun _ _ => Ok tt;
     file_read := fun _ => Ok "bytes";
     db_history := fun _ _ _ => Ok [];
     query := fun _ => qry;
     now := fun h => List.length h;
     db_add := fun _ _ => Ok tt;
     db_commit := fun _ => Ok tt;
     db_refresh := fun _ => Ok tt |}.

Definition st0 : St := {| trace := []; temps := []; session := []; store := [] |}.

Definition no_net {A} : string -> result A := fun _ => unavailable.

(** The model rejects the first call on safety grounds; the call with
    explicit settings is rejected by the client library. *)
Definition gen_blocked_once (cs : list part) (settings : option safety)
  : result reply :=
  match settings with
  | None => Raise "Response was BLOCKED by the Safety filter"
  | Some _ => Raise Resolver.retry_type_error
  end.

Definition w_blocked : World :=
  world_of no_net no_net no_net (fun p => Ok ("files/" ++ p)) gen_blocked_once no_net.

(** The model is out of quota. *)
Definition w_quota : World :=
  world_of no_net no_net no_net (fun p => Ok ("files/" ++ p))
           (fun _ _ => Raise "429 quota exceeded") no_net.

(** The model summarises the first text part, and ends its answer with a
    line break. *)
Definition gen_summary (cs : list part) (settings : option safety) : result reply :=
  match cs with
  | PartText d :: _ => Ok {| reply_text := Some ("Summary of " ++ d ++ nl) |}
  | PartRef r :: _ => Ok {| reply_text := Some ("A picture, " ++ r) |}
  | _ => Ok {| reply_text := None |}
  end.

Definition w_summary : World :=
  world_of (fun url => Ok {| content := url; text := url |})
           (fun _ => Ok (Some "text/plain"))
           (fun _ => Ok "upload")
           (fun p => Ok ("files/" ++ p))
           gen_summary
           (fun _ => Raise "index not loaded").

(** The retrieval engine fails with [e]; nothing else is reachable. *)
Definition w_query_fails (e : string) : World :=
  world_of no_net no_net no_net no_net (fun _ _ => unavailable) (fun _ => Raise e).

(** The retrieval engine answers with an empty response. *)
Definition w_query_blank : World :=
  world_of no_net no_net no_net no_net (fun _ _ => unavailable)
           (fun _ => Ok (Some (AttrStr "  "))).

(** The model answers every call with the marker of an empty answer. *)
Definition w_empty_reply : World :=
  world_of no_net no_net (fun _ => Ok "upload") no_net
           (fun _ _ => Ok {| reply_text := Some "Empty Response" |}) no_net.

Definition two_links : string :=
  "check this http://example.com/a.txt and http://example.com/b.txt".

Definition text_upload : Chatbot.upload_file :=
  {| Chatbot.filename := Some "notes.txt"; Chatbot.content_type := Some "text/plain" |}.

(** [w] with a disk on which no temporary file can be written. *)
Definition with_full_disk (w : World) : World :=
  {| guess_type := guess_type w;
     path_suffix := path_suffix w;
     splitext := splitext w;
     http_get := http_get w;
     http_head := http_head w;
     open_rb := open_rb w;
     open_text := open_text w;
     named_temp := named_temp w;
     tmp_write := fun _ _ _ => Raise "No space left on device";
     upload := upload w;
     generate := generate w;
     path_exists := path_exists w;
     remove := remove w;
     file_read := file_read w;
     db_history := db_history w;
     query := query w;
     now := now w;
     db_add := db_add w;
     db_commit := db_commit w;
     db_refresh := db_refresh w |}.

(** [w] with a database that refuses to commit. *)
Definition with_failing_commit (w : World) : World :=
  {| guess_type := guess_type w;
     path_suffix := path_suffix w;
     splitext := splitext w;
     http_get := http_get w;
     http_head := http_head w;
     open_rb := open_rb w;
     open_text := open_text w;
     named_temp := named_temp w;
     tmp_write := tmp_write w;
     upload := upload w;
     generate := generate w;
     path_exists := path_exists w;
     remove := remove w;
     file_read := file_read w;
     db_history := db_history w;
     query := query w;
     now := now w;
     db_add := db_add w;
     db_commit := fun _ => Raise "connection lost";
     db_refresh := db_refresh w |}.

(** [w] with a database that commits and then cannot be read. *)
Definition with_failing_refresh (w : World) : World :=
  {| guess_type := guess_type w;
     path_suffix := path_suffix w;
     splitext := splitext w;
     http_get := http_get w;
     http_head := http_head w;
     open_rb := open_rb w;
     open_text := open_text w;
     named_temp := named_temp w;
     tmp_write := tmp_write w;
     upload := upload w;
     generate := generate w;
     path_exists := path_exists w;
     remove := remove w;
     file_read := file_read w;
     db_history := db_history w;
     query := query w;
     now := now w;
     db_add := db_add w;
     db_commit := db_commit w;
     db_refresh := fun _ => Raise "server closed the connection unexpectedly" |}.

(** The state after a plain question in a world whose database commits
    and then cannot be read. *)
Definition after_failed_read : St :=
  snd (Chatbot.chatbot_post (with_failing_refresh w_summary) 7 (Some "hello") None st0).

(** [w_summary] with the suffixes of two remote media files. *)
Definition w_media : World :=
  {| guess_type := guess_type w_summary;
     path_suffix := fun p =>
                      if String.eqb p "http://x/cat.png" then ".png"
                      else if String.eqb p "http://x/clip.mp3" then ".mp3"
                      else "";
     splitext := splitext w_summary;
     http_get := http_get w_summary;
     http_head := http_head w_summary;
     open_rb := open_rb w_summary;
     open_text := open_text w_summary;
     named_temp := named_temp w_summary;
     tmp_write := tmp_write w_summary;
     upload := upload w_summary;
     generate := generate w_summary;
     path_exists := path_exists w_summary;
     remove := remove w_summary;
     file_read := file_read w_summary;
     db_history := db_history w_summary;
     query := query w_summary;
     now := now w_summary;
     db_add := db_add w_summary;
     db_commit := db_commit w_summary;
     db_refresh := db_refresh w_summary |}.

(** The states after the remote picture and the remote clip have been
    fetched into a temporary file. *)
Definition fetched_png : St :=
  snd (Resolver.materialize w_media "http://x/cat.png" (enter st0)).
Definition fetched_mp3 : St :=
  snd (Resolver.materialize w_media "http://x/clip.mp3" (enter st0)).

(** The request with a text upload and two links in [w_summary], step
    by step. *)
Definition links_input : option string := Some two_links.
Definition from_upload : string := "Summary of upload" ++ nl.
Definition from_link_a : string := "Summary of http://example.com/a.txt" ++ nl.
Definition from_link_b : string := "Summary of http://example.com/b.txt" ++ nl.
Definition merged : string :=
  "Summary of upload" ++ nl ++ nl ++ "Summary of http://example.com/a.txt"
  ++ nl ++ nl ++ "Summary of http://example.com/b.txt".

Definition after_file : St :=
  snd (Chatbot.file_step w_summary links_input (Some text_upload) st0).
Definition after_link_a : St :=
  snd (Chatbot.url_step w_summary two_links "http://example.com/a.txt" after_file).
Definition after_urls : St :=
  snd (Chatbot.urls_step w_summary links_input after_file).
Definition after_body : St :=
  snd (Chatbot.chatbot_body w_summary 7 links_input (Some text_upload) st0).
Definition after_post : St :=
  snd (Chatbot.chatbot_post w_summary 7 links_input (Some text_upload) st0).

(** A file system with two directories of mixed files, one of them an
    unreadable PDF; the vector store and the models work. *)
Definition sys_of (environment : string -> option string) : Indexer.Sys :=
  {| Indexer.env := environment;
     Indexer.path_join := fun a b => a ++ "/" ++ b;
     Indexer.exists_path := fun _ p => negb (String.eqb p "missing");
     Indexer.walk := fun _ folder =>
       [ (folder, ["a.pdf"; "notes.txt"; "B.PDF"]);
         (folder ++ "/old", ["broken.pdf"; "c.Pdf"]) ];
     Indexer.load_data := fun _ p =>
       if contains "broken" p then Raise "not a PDF" else Ok ["page of " ++ p];
     Indexer.makedirs := fun _ _ => Ok tt;
     Indexer.listdir := fun _ _ => Ok ["config.json"];
     Indexer.load_embedding := fun _ name => Ok name;
     Indexer.save_model := fun _ _ _ => Ok tt;
     Indexer.make_llm := fun _ _ => Ok tt;
     Indexer.init_vector_db := fun _ => Ok "pg";
     Indexer.from_documents := fun _ docs _ _ => Ok "fresh index";
     Indexer.from_vector_store := fun _ _ _ => Ok "stored index" |}.

(** [s] with a vector store that cannot be reached. *)
Definition with_db_down (s : Indexer.Sys) : Indexer.Sys :=
  {| Indexer.env := Indexer.env s;
     Indexer.path_join := Indexer.path_join s;
     Indexer.exists_path := Indexer.exists_path s;
     Indexer.walk := Indexer.walk s;
     Indexer.load_data := Indexer.load_data s;
     Indexer.makedirs := Indexer.makedirs s;
     Indexer.listdir := Indexer.listdir s;
     Indexer.load_embedding := Indexer.load_embedding s;
     Indexer.save_model := Indexer.save_model s;
     Indexer.make_llm := Indexer.make_llm s;
     Indexer.init_vector_db := fun _ => Raise "connection refused";
     Indexer.from_documents := Indexer.from_documents s;
     Indexer.from_vector_store := Indexer.from_vector_store s |}.

Definition env_default : string -> option string := fun _ => None.

Definition env_force : string -> option string :=
  fun name => if String.eqb name "FORCE_RELOAD_INDEX" then Some "True" else None.

(** An index is being served. *)
Definition ix_serving : Indexer.IxSt :=
  {| Indexer.ix_trace := []; Indexer.global_index := Some "stored index";
     Indexer.app_index := Some "stored index" |}.

Definition ix0 : Indexer.IxSt :=
  {| Indexer.ix_trace := []; Indexer.global_index := None; Indexer.app_index := None |}.

End Examples.

(** * Properties *)

Import PyStr Eff Logic.
Local Open Scope eff_scope.

(** ** Rules for [spec] *)

Section SpecRules.
Context {A B : Type}.
Variable E : event -> Prop.

Lemma spec_ret (a : A) (R : result A -> Prop) :
  R (Ok a) -> spec (ret a) E R.
Proof.
  intros HR st r st' H. inversion H; subst.
  repeat split; auto. exists []. rewrite app_nil_r. auto.
Qed.

Lemma spec_raise (e : exn) (R : result A -> Prop) :
  R (Raise e) -> spec (raise e) E R.
Proof.
  intros HR st r st' H. inversion H; subst.
  repeat split; auto. exists []. rewrite app_nil_r. auto.
Qed.

Lemma spec_call (ev : event) (f : history -> result A) (R : result A -> Prop) :
  E ev -> (forall h, R (f h)) -> spec (call ev f) E R.
Proof.
  intros He HR st r st' H. inversion H; subst. simpl.
  repeat split; auto. exists [ev]. auto.
Qed.

Lemma spec_weaken (m : M A) (E' : event -> Prop) (R R' : result A -> Prop) :
  spec m E' R -> (forall ev, E' ev -> E ev) -> (forall r, R r -> R' r) ->
  spec m E R'.
Proof.
  intros Hm HE HR st r st' H.
  destruct (Hm _ _ _ H) as ((new & Ht & Hall) & Hs & Hd & Hr).
  repeat split; auto. exists new. split; auto.
  eapply Forall_impl; eauto.
Qed.

Lemma spec_bind (m : M A) (k : A -> M B)
      (R1 : result A -> Prop) (R2 : result B -> Prop) :
  spec m E R1 ->
  (forall a, R1 (Ok a) -> spec (k a) E R2) ->
  (forall e, R1 (Raise e) -> R2 (Raise e)) ->
  spec (bind m k) E R2.
Proof.
  intros Hm Hk He st r st' H. unfold bind in H.
  destruct (m st) as [r1 st1] eqn:Hm1.
  destruct (Hm _ _ _ Hm1) as ((n1 & Ht1 & Hall1) & Hs1 & Hd1 & Hr1).
  destruct r1 as [a|e].
  - destruct (Hk a Hr1 _ _ _ H) as ((n2 & Ht2 & Hall2) & Hs2 & Hd2 & Hr2).
    repeat split; try congruence.
    exists (n1 ++ n2)%list. split.
    + rewrite Ht2, Ht1, app_assoc. reflexivity.
    + apply Forall_app; auto.
  - inversion H; subst. repeat split; auto. exists n1. auto.
Qed.

Lemma spec_catch (m : M A) (h : exn -> M A) (R1 R2 : result A -> Prop) :
  spec m E R1 ->
  (forall a, R1 (Ok a) -> R2 (Ok a)) ->
  (forall e, R1 (Raise e) -> spec (h e) E R2) ->
  spec (catch m h) E R2.
Proof.
  intros Hm Hok Hh st r st' H. unfold catch in H.
  destruct (m st) as [r1 st1] eqn:Hm1.
  destruct (Hm _ _ _ Hm1) as ((n1 & Ht1 & Hall1) & Hs1 & Hd1 & Hr1).
  destruct r1 as [a|e].
  - inversion H; subst. repeat split; auto. exists n1. auto.
  - destruct (Hh e Hr1 _ _ _ H) as ((n2 & Ht2 & Hall2) & Hs2 & Hd2 & Hr2).
    repeat split; try congruence.
    exists (n1 ++ n2)%list. split.
    + rewrite Ht2, Ht1, app_assoc. reflexivity.
    + apply Forall_app; auto.
Qed.

Lemma spec_finally (m : M A) (c : M unit) (R : result A -> Prop) :
  spec m E R -> spec c E (returns (fun _ => True)) ->
  spec (finally m c) E R.
Proof.
  intros Hm Hc st r st' H. unfold finally in H.
  destruct (m st) as [r1 st1] eqn:Hm1.
  destruct (c st1) as [r2 st2] eqn:Hc1.
  destruct (Hm _ _ _ Hm1) as ((n1 & Ht1 & Hall1) & Hs1 & Hd1 & Hr1).
  destruct (Hc _ _ _ Hc1) as ((n2 & Ht2 & Hall2) & Hs2 & Hd2 & Hr2).
  destruct r2 as [u|e]; [|contradiction].
  inversion H; subst. repeat split; try congruence.
  exists (n1 ++ n2)%list. split.
  - rewrite Ht2, Ht1, app_assoc. reflexivity.
  - apply Forall_app; auto.
Qed.

Lemma spec_with_frame (m : M A) (R : result A -> Prop) :
  spec m E R -> spec (with_frame m) E R.
Proof.
  intros Hm st r st' H. unfold with_frame in H.
  match type of H with
  | context [m ?s] => destruct (m s) as [r1 st1] eqn:Hm1
  end.
  destruct (Hm _ _ _ Hm1) as (Ht & Hs & Hd & Hr).
  inversion H; subst. simpl in *. auto.
Qed.

End SpecRules.

Lemma spec_push_temp (E : event -> Prop) (name : string) :
  spec (push_temp name) E (returns (fun _ => True)).
Proof.
  intros st r st' H. inversion H; subst. simpl.
  repeat split; auto. exists []. rewrite app_nil_r. auto.
Qed.

Lemma spec_get_temps (E : event -> Prop) :
  spec get_temps E (returns (fun _ => True)).
Proof.
  intros st r st' H. inversion H; subst. simpl.
  repeat split; auto. exists []. rewrite app_nil_r. auto.
Qed.

Lemma spec_for_each {A} (E : event -> Prop) (xs : list A) (body : A -> M unit) :
  (forall x, spec (body x) E (returns (fun _ => True))) ->
  spec (for_each xs body) E (returns (fun _ => True)).
Proof.
  intros Hb. induction xs as [|x xs IH]; simpl.
  - apply spec_ret. exact I.
  - eapply spec_bind; [apply Hb | intros; apply IH | intros e []].
Qed.

(** ** The content resolver *)

Section ResolverSpecs.
Import Resolver.
Variable w : World.
Variable P : list part -> Prop.

Let anything {A} : result A -> Prop := fun _ => True.

Lemma materialize_spec (source : string) :
  spec (materialize w source) (resolver_call P) anything.
Proof.
  unfold materialize. destruct (startswith source "http").
  - eapply spec_bind with (R1 := anything); [apply spec_call; [exact I | intros; exact I]| |exact (fun _ _ => I)].
    intros resp _.
    eapply spec_bind with (R1 := anything); [apply spec_call; [exact I | intros; exact I]| |exact (fun _ _ => I)].
    intros name _.
    eapply spec_bind with (R1 := anything); [apply spec_call; [exact I | intros; exact I]| |exact (fun _ _ => I)].
    intros _ _.
    eapply spec_bind; [apply spec_push_temp|intros; apply spec_ret; exact I|intros e []].
  - apply spec_ret. exact I.
Qed.

Lemma cleanup_spec :
  spec (cleanup w) (resolver_call P) (returns (fun _ => True)).
Proof.
  unfold cleanup.
  eapply spec_bind; [apply spec_get_temps| |intros e []].
  intros ts _. apply spec_for_each. intros f.
  eapply spec_catch with (R1 := anything).
  - eapply spec_bind with (R1 := anything); [apply spec_call; [exact I | intros; exact I]| |exact (fun _ _ => I)].
    intros [|] _; [apply spec_call; [exact I | intros; exact I] | apply spec_ret; exact I].
  - intros; exact I.
  - intros e _. apply spec_ret. exact I.
Qed.

Lemma generate_with_retry_spec (cs : list part) :
  P cs -> spec (generate_with_retry w cs) (resolver_call P) anything.
Proof.
  intros HP. unfold generate_with_retry.
  eapply spec_catch with (R1 := anything).
  - apply spec_call; [exact HP | intros; exact I].
  - intros; exact I.
  - intros e _. destruct (is_safety_block e).
    + apply spec_call; [exact HP | intros; exact I].
    + apply spec_raise. exact I.
Qed.

Lemma reply_or_placeholder_truthy (r : reply) :
  truthy (reply_or_placeholder r) = true.
Proof.
  unfold reply_or_placeholder. destruct (reply_text r) as [t|]; [|reflexivity].
  destruct (truthy t) eqn:Ht; [exact Ht | reflexivity].
Qed.

Lemma generate_text_spec (cs : list part) :
  P cs ->
  spec (generate_text w cs) (resolver_call P) (returns (fun t => truthy t = true)).
Proof.
  intros HP. unfold generate_text.
  eapply spec_catch with (R1 := yields (fun t => truthy t = true)).
  - eapply spec_bind; [apply generate_with_retry_spec; exact HP| |intros; exact I].
    intros resp _. apply spec_ret. simpl. apply reply_or_placeholder_truthy.
  - intros a Ha. exact Ha.
  - intros e _. apply spec_ret. reflexivity.
Qed.

End ResolverSpecs.

Section HandleContentSpec.
Import Resolver.
Variable w : World.

Let anything {A} : result A -> Prop := fun _ => True.

Ltac oracle_call :=
  apply spec_call; [exact I | intros; exact I].

Ltac payload_shape :=
  simpl; unfold payload_of;
  repeat match goal with H : _ = _ |- _ => rewrite H end;
  eexists; reflexivity.

Lemma assemble_spec (P : list part -> Prop) (source : string)
      (mime user_input : option string) :
  spec (assemble w source mime user_input) (resolver_call P)
       (returns (dispatched mime user_input)).
Proof.
  unfold assemble.
  destruct (is_pdf mime) eqn:Hpdf;
    [|destruct (mime_starts mime "image/") eqn:Himg;
      [|destruct (mime_starts mime "audio/") eqn:Haud;
        [|destruct (is_textual mime) eqn:Htxt]]].
  - destruct (startswith source "http");
      (eapply spec_catch with (R1 := yields (dispatched mime user_input));
       [ eapply spec_bind with (R1 := anything);
         [oracle_call | intros ? _; apply spec_ret; payload_shape | intros; exact I]
       | intros a Ha; exact Ha
       | intros e _; apply spec_ret; reflexivity ]).
  - eapply spec_catch with (R1 := yields (dispatched mime user_input));
      [ | intros a Ha; exact Ha | intros e _; apply spec_ret; reflexivity ].
    eapply spec_bind with (R1 := anything);
      [apply materialize_spec | | intros; exact I].
    intros f _.
    eapply spec_bind with (R1 := anything);
      [oracle_call | intros ? _; apply spec_ret; payload_shape | intros; exact I].
  - eapply spec_catch with (R1 := yields (dispatched mime user_input));
      [ | intros a Ha; exact Ha | intros e _; apply spec_ret; reflexivity ].
    eapply spec_bind with (R1 := anything);
      [apply materialize_spec | | intros; exact I].
    intros f _.
    eapply spec_bind with (R1 := anything);
      [oracle_call | intros ? _; apply spec_ret; payload_shape | intros; exact I].
  - eapply spec_catch with (R1 := yields (dispatched mime user_input));
      [ | intros a Ha; exact Ha | intros e _; apply spec_ret; reflexivity ].
    eapply spec_bind with (R1 := anything);
      [ | intros ? _; apply spec_ret; payload_shape | intros; exact I].
    destruct (startswith source "http").
    + eapply spec_bind with (R1 := anything);
        [oracle_call | intros ? _; apply spec_ret; exact I | intros; exact I].
    + oracle_call.
  - apply spec_ret. reflexivity.
Qed.

(** Every run of the resolver makes only resolver calls, sends the model
    nothing but the payload of the category, and returns a non-empty
    string. *)
Lemma handle_content_spec (source : string) (mime user_input : option string) :
  spec (handle_content w source mime user_input)
       (resolver_call (payload_of (resolve_mime w source mime) user_input))
       (returns (fun t => truthy t = true)).
Proof.
  unfold handle_content. apply spec_with_frame.
  apply spec_finally; [|apply cleanup_spec].
  eapply spec_catch with (R1 := returns (fun t => truthy t = true));
    [ | intros a Ha; exact Ha | intros e [] ].
  eapply spec_bind; [apply assemble_spec | | intros e []].
  intros [t|cs] Hr; simpl in Hr.
  - apply spec_ret. exact Hr.
  - apply generate_text_spec. exact Hr.
Qed.

End HandleContentSpec.

(** C1.  Whatever the source, the MIME hint, the prompt and the answers
    of the outside world (unreachable URL, missing file, unknown type,
    failing model), [handle_content] returns a string, never raises, and
    the string is not empty. *)
Theorem handle_content_never_raises :
  forall (w : World) (source : string) (mime user_input : option string) (st : St),
  exists (t : string) (st' : St),
    Resolver.handle_content w source mime user_input st = (Ok t, st')
    /\ t <> "".
Proof.
  intros w source mime user_input st.
  destruct (Resolver.handle_content w source mime user_input st) as [r st'] eqn:Hrun.
  destruct (handle_content_spec w source mime user_input _ _ _ Hrun)
    as (_ & _ & _ & Hr).
  destruct r as [t|e]; simpl in Hr; [|contradiction].
  exists t, st'. split; [reflexivity|].
  intros ->. discriminate Hr.
Qed.

(** ** The generation step *)

Lemma trace_log (ev : event) (st : St) :
  trace (log ev st) = (trace st ++ [ev])%list.
Proof. reflexivity. Qed.

(** C2.  When the first model call fails with [e], the step tests
    whether the lowered text of [e] contains "blocked" or "safety".  If
    not, there is no second call, [e] is raised again and reaches the
    handler of the generation step.  If so, exactly one more call is
    made, with the four harm categories set to "BLOCK_NONE", and its
    outcome is the outcome of the step.  That call hands the settings
    over under a keyword the client library does not have: wherever the
    library has its signature, the second call ends in a [TypeError],
    so the step ends with the error text of that rejection and never
    with a retried text. *)
Theorem safety_retry_rejected :
  forall (w : World) (cs : list part) (st : St) (e : exn),
    Resolver.sdk_signature w ->
    generate w (trace st) cs None = Raise e ->
    let relaxed := Some Resolver.safety_settings in
    let st1 := log (Generate cs None) st in
    let st2 := log (Generate cs relaxed) st1 in
    Resolver.is_safety_block e
      = (contains "blocked" (lower e) || contains "safety" (lower e))
    /\ Resolver.safety_settings
       = [("HARASSMENT", "BLOCK_NONE"); ("HATE", "BLOCK_NONE");
          ("SEXUAL", "BLOCK_NONE"); ("DANGEROUS", "BLOCK_NONE")]
    /\ (Resolver.is_safety_block e = true ->
        Resolver.generate_with_retry w cs st
          = (generate w (trace st1) cs relaxed, st2)
        /\ trace st2
           = (trace st ++ [Generate cs None; Generate cs relaxed])%list
        /\ Resolver.generate_with_retry w cs st
           = (Raise Resolver.retry_type_error, st2)
        /\ Resolver.generate_text w cs st
           = (Ok ("Error generating response: " ++ Resolver.retry_type_error), st2))
    /\ (Resolver.is_safety_block e = false ->
        Resolver.generate_with_retry w cs st = (Raise e, st1)
        /\ trace st1 = (trace st ++ [Generate cs None])%list
        /\ Resolver.generate_text w cs st
           = (Ok ("Error generating response: " ++ e), st1)).
Proof.
  intros w cs st e Hsdk Hfirst relaxed st1 st2.
  split; [reflexivity|].
  split; [reflexivity|].
  split; intros Hblock.
  - assert (Hretry : Resolver.generate_with_retry w cs st
                     = (generate w (trace st1) cs relaxed, st2)).
    { unfold Resolver.generate_with_retry, catch, call.
      rewrite Hfirst, Hblock. reflexivity. }
    split; [exact Hretry|].
    split; [unfold st2, st1; rewrite !trace_log, <- app_assoc; reflexivity|].
    assert (Hrejected : Resolver.generate_with_retry w cs st
                        = (Raise Resolver.retry_type_error, st2)).
    { rewrite Hretry. unfold relaxed. rewrite Hsdk. reflexivity. }
    split; [exact Hrejected|].
    unfold Resolver.generate_text, catch, bind. rewrite Hrejected. reflexivity.
  - assert (Hretry : Resolver.generate_with_retry w cs st = (Raise e, st1)).
    { unfold Resolver.generate_with_retry, catch, call.
      rewrite Hfirst, Hblock. reflexivity. }
    split; [exact Hretry|].
    split; [apply trace_log|].
    unfold Resolver.generate_text, catch, bind. rewrite Hretry. reflexivity.
Qed.

Lemma safety_retry_rejected_witness :
  Resolver.generate_text Examples.w_blocked
    [PartRef "files/cat.png"; PartText "Caption this image."] Examples.st0
  = (Ok "Error generating response: Models.generate_content() got an unexpected keyword argument 'safety_settings'",
     log (Generate [PartRef "files/cat.png"; PartText "Caption this image."]
                   (Some Resolver.safety_settings))
         (log (Generate [PartRef "files/cat.png"; PartText "Caption this image."] None)
              Examples.st0))
  /\ fst (Resolver.handle_content Examples.w_blocked "cat.png" (Some "image/png") None
            Examples.st0)
     = Ok "Error generating response: Models.generate_content() got an unexpected keyword argument 'safety_settings'".
Proof.
  split; [|vm_compute; reflexivity].
  assert (Hsdk : Resolver.sdk_signature Examples.w_blocked)
    by (intros h cs s; reflexivity).
  destruct (safety_retry_rejected Examples.w_blocked
              [PartRef "files/cat.png"; PartText "Caption this image."]
              Examples.st0 "Response was BLOCKED by the Safety filter" Hsdk eq_refl)
    as (_ & _ & Hretry & _).
  destruct (Hretry eq_refl) as (_ & _ & _ & Htext).
  exact Htext.
Defined.

Lemma cleanup_returns (w : World) (st : St) :
  exists st', Resolver.cleanup w st = (Ok tt, st').
Proof.
  destruct (Resolver.cleanup w st) as [r st'] eqn:Hrun.
  destruct (cleanup_spec w (fun _ => True) _ _ _ Hrun) as (_ & _ & _ & Hr).
  destruct r as [[]|e]; [|contradiction]. exists st'. reflexivity.
Qed.



(** ** Category dispatch *)

Lemma startswith_truthy (m p : string) :
  p <> "" -> startswith m p = true -> truthy m = true.
Proof.
  intros Hp H. destruct m; [|reflexivity].
  destruct p; [contradiction Hp; reflexivity | discriminate H].
Qed.

Lemma image_not_pdf (m : string) :
  startswith m "image/" = true -> Resolver.is_pdf (Some m) = false.
Proof.
  intros H. simpl. destruct (String.eqb_spec m "application/pdf"); [|reflexivity].
  subst m. discriminate H.
Qed.

Lemma audio_not_pdf (m : string) :
  startswith m "audio/" = true -> Resolver.is_pdf (Some m) = false.
Proof.
  intros H. simpl. destruct (String.eqb_spec m "application/pdf"); [|reflexivity].
  subst m. discriminate H.
Qed.

Lemma audio_not_image (m : string) :
  startswith m "audio/" = true -> startswith m "image/" = false.
Proof.
  unfold startswith. destruct m as [|c m]; [discriminate|].
  cbn [strip_prefix].
  destruct (Ascii.eqb_spec "a" c); [subst c; reflexivity | discriminate].
Qed.

Lemma image_payload (m : string) (user_input : option string) (cs : list part) :
  startswith m "image/" = true ->
  payload_of (Some m) user_input cs ->
  exists ref, cs = [PartRef ref; PartText (or_default user_input "Caption this image.")].
Proof.
  intros H Hp. unfold payload_of in Hp.
  rewrite (image_not_pdf m H) in Hp.
  unfold Resolver.mime_starts in Hp.
  rewrite H, (startswith_truthy m "image/") in Hp by (discriminate || assumption).
  exact Hp.
Qed.

Lemma audio_payload (m : string) (user_input : option string) (cs : list part) :
  startswith m "audio/" = true ->
  payload_of (Some m) user_input cs ->
  exists ref, cs = [PartText (or_default user_input "Describe this audio clip.");
                    PartRef ref].
Proof.
  intros H Hp. unfold payload_of in Hp.
  rewrite (audio_not_pdf m H) in Hp.
  unfold Resolver.mime_starts in Hp.
  rewrite (audio_not_image m H), H, (startswith_truthy m "audio/") in Hp
    by (discriminate || assumption).
  exact Hp.
Qed.

Lemma resolve_mime_given (w : World) (source m : string) :
  truthy m = true -> Resolver.resolve_mime w source (Some m) = Some m.
Proof. intros H. unfold Resolver.resolve_mime. rewrite H. reflexivity. Qed.

(** The payloads of the model calls in a stretch of history. *)
Lemma generate_calls_payload (P : list part -> Prop) (new : history) :
  Forall (resolver_call P) new ->
  forall cs s, In (Generate cs s) new -> P cs.
Proof.
  intros Hall cs s Hin. rewrite Forall_forall in Hall.
  exact (Hall _ Hin).
Qed.

(** In any run of the resolver on a MIME hint that starts with "image/",
    whatever is sent to the model has the shape [[ref, prompt]]; on a
    hint that starts with "audio/", the shape [[prompt, ref]]. *)
Lemma media_payload_shape :
  forall (w : World) (source m : string) (user_input : option string)
         (st st' : St) (r : result string),
    Resolver.handle_content w source (Some m) user_input st = (r, st') ->
    exists new, trace st' = (trace st ++ new)%list
    /\ (startswith m "image/" = true ->
        forall cs s, In (Generate cs s) new ->
        exists ref,
          cs = [PartRef ref; PartText (or_default user_input "Caption this image.")])
    /\ (startswith m "audio/" = true ->
        forall cs s, In (Generate cs s) new ->
        exists ref,
          cs = [PartText (or_default user_input "Describe this audio clip.");
                PartRef ref])
    /\ (forall p d, p <> "" -> or_default (Some p) d = p)
    /\ (forall d, or_default None d = d).
Proof.
  intros w source m user_input st st' r Hrun.
  destruct (handle_content_spec w source (Some m) user_input _ _ _ Hrun)
    as ((new & Htrace & Hall) & _).
  exists new. split; [exact Htrace|].
  split; [|split; [|split]].
  - intros Himg cs s Hin.
    rewrite resolve_mime_given in Hall
      by (apply (startswith_truthy m "image/"); [discriminate | exact Himg]).
    apply (image_payload m); [exact Himg|].
    exact (generate_calls_payload _ new Hall cs s Hin).
  - intros Haud cs s Hin.
    rewrite resolve_mime_given in Hall
      by (apply (startswith_truthy m "audio/"); [discriminate | exact Haud]).
    apply (audio_payload m); [exact Haud|].
    exact (generate_calls_payload _ new Hall cs s Hin).
  - intros p d Hp. destruct p; [contradiction Hp; reflexivity | reflexivity].
  - reflexivity.
Qed.

(** A MIME string that begins with "application/pdf" and also mentions
    "json" is sent to the model as text: it is neither PDF nor
    unsupported. *)
Lemma pdf_prefix_unsupported_counterexample :
  ~ (forall (w : World) (source m : string) (user_input : option string) (st : St),
        m <> "application/pdf" ->
        contains "application/pdf" m = true ->
        exists st',
          Resolver.handle_content w source (Some m) user_input st
          = (Ok ("Unsupported content type: " ++ m), st')
          /\ trace st' = trace st).
Proof.
  intros H.
  destruct (H Examples.w_summary "doc" "application/pdf+json" None Examples.st0)
    as (st' & Hrun & _); [discriminate | reflexivity |].
  vm_compute in Hrun. discriminate Hrun.
Qed.

(** C9 (amended).  A MIME string other than "application/pdf" itself is
    never taken for a PDF, even when it starts with or contains
    "application/pdf".  Unless it starts with "image/", "audio/" or
    "text/" or contains "json", the resolver returns the unsupported
    text with that string and makes no call at all. *)
Theorem pdf_only_on_exact_mime :
  forall (w : World) (source m : string) (user_input : option string) (st : St),
    m <> "" ->
    m <> "application/pdf" ->
    Resolver.is_pdf (Resolver.resolve_mime w source (Some m)) = false
    /\ (startswith m "image/" = false ->
        startswith m "audio/" = false ->
        startswith m "text/" = false ->
        contains "json" m = false ->
        Resolver.handle_content w source (Some m) user_input st
        = (Ok ("Unsupported content type: " ++ m), st)).
Proof.
  intros w source m user_input st Hne Hpdf.
  assert (Ht : truthy m = true) by (destruct m; [contradiction Hne|]; reflexivity).
  assert (Hnot : Resolver.is_pdf (Some m) = false).
  { simpl. destruct (String.eqb_spec m "application/pdf"); [contradiction|reflexivity]. }
  rewrite resolve_mime_given by exact Ht.
  split; [exact Hnot|].
  intros Himg Haud Htxt Hjson.
  unfold Resolver.handle_content, with_frame, finally, catch, bind.
  rewrite resolve_mime_given by exact Ht.
  unfold Resolver.assemble. rewrite Hnot.
  unfold Resolver.mime_starts, Resolver.is_textual.
  rewrite Himg, Haud, Htxt, Hjson, Ht. simpl. rewrite Ht.
  destruct st. reflexivity.
Qed.

Lemma pdf_only_on_exact_mime_witness :
  Resolver.is_pdf (Resolver.resolve_mime Examples.w_summary "report"
                     (Some "application/pdf; charset=binary")) = false
  /\ Resolver.handle_content Examples.w_summary "report"
       (Some "application/pdf; charset=binary") None Examples.st0
     = (Ok "Unsupported content type: application/pdf; charset=binary", Examples.st0).
Proof.
  destruct (pdf_only_on_exact_mime Examples.w_summary "report"
              "application/pdf; charset=binary" None Examples.st0)
    as (Hcat & Hrun); [discriminate | discriminate |].
  split; [exact Hcat|].
  apply Hrun; reflexivity.
Defined.

Lemma or_default_empty (d : string) :
  or_default (Some "") d = or_default None d.
Proof. reflexivity. Qed.

Lemma assemble_empty_prompt (w : World) (source : string) (mime : option string) :
  Resolver.assemble w source mime (Some "") = Resolver.assemble w source mime None.
Proof. reflexivity. Qed.



(** ** The URL extractor *)

Section ExtractProofs.
Import Extract.

Lemma append_empty_r (s : string) : s ++ "" = s.
Proof. induction s as [|c s IH]; simpl; [|rewrite IH]; reflexivity. Qed.

Lemma append_assoc (a b c : string) : (a ++ b) ++ c = a ++ b ++ c.
Proof. induction a as [|x a IH]; simpl; [|rewrite IH]; reflexivity. Qed.

Lemma strip_prefix_app (p q s : string) :
  strip_prefix (p ++ q) s
  = match strip_prefix p s with
    | Some r => strip_prefix q r
    | None => None
    end.
Proof.
  revert s. induction p as [|a p IH]; intros s; simpl.
  - destruct q; reflexivity.
  - destruct s as [|b s]; [reflexivity|].
    destruct (Ascii.eqb a b); [apply IH | reflexivity].
Qed.

Lemma strip_prefix_eq (p s r : string) :
  strip_prefix p s = Some r -> s = p ++ r.
Proof.
  revert s. induction p as [|a p IH]; intros s H; simpl in *.
  - destruct s; inversion H; reflexivity.
  - destruct s as [|b s]; [discriminate|].
    destruct (Ascii.eqb_spec a b); [|discriminate].
    subst b. rewrite (IH _ H). reflexivity.
Qed.

(** The two alternatives of [https?://] as two literal prefixes. *)
Lemma match_scheme_alt (s : string) :
  match_scheme s
  = match strip_prefix "https://" s with
    | Some body => Some ("https://", body)
    | None =>
        match strip_prefix "http://" s with
        | Some body => Some ("http://", body)
        | None => None
        end
    end.
Proof.
  unfold match_scheme.
  pose proof (strip_prefix_app "http" "s://" s) as H1.
  pose proof (strip_prefix_app "http" "://" s) as H2.
  cbn [append] in H1, H2. rewrite H1, H2.
  destruct (strip_prefix "http" s) as [r|]; [|reflexivity].
  pose proof (strip_prefix_app "s" "://" r) as H3.
  cbn [append] in H3. rewrite H3.
  destruct (strip_prefix "s" r) as [r'|]; reflexivity.
Qed.

Ltac chew Hx :=
  cbn [strip_prefix append];
  match goal with
  | |- context [Ascii.eqb ?a ?c] =>
      destruct (Ascii.eqb_spec a c); [subst | reflexivity]
  end;
  match goal with
  | |- context [(?g ++ _)%string] =>
      destruct g; [destruct Hx as [->|[? ->]]; reflexivity | ]
  end.

Ltac last_chew Hc :=
  cbn [strip_prefix append];
  match goal with
  | |- context [Ascii.eqb ?a ?c] =>
      destruct (Ascii.eqb_spec a c);
      [subst; exfalso; cbn in Hc; discriminate Hc | reflexivity]
  end.

(** A scheme cannot begin inside a gap that holds none and end in what
    follows, when that begins with [h] or is empty. *)
Lemma no_http_across (g x : string) :
  h_or_end x -> g <> "" -> contains "http://" g = false ->
  strip_prefix "http://" (g ++ x) = None.
Proof.
  intros Hx Hg Hc. destruct g as [|c g]; [contradiction Hg; reflexivity|].
  do 6 chew Hx. last_chew Hc.
Qed.

Lemma no_https_across (g x : string) :
  h_or_end x -> g <> "" -> contains "https://" g = false ->
  strip_prefix "https://" (g ++ x) = None.
Proof.
  intros Hx Hg Hc. destruct g as [|c g]; [contradiction Hg; reflexivity|].
  do 7 chew Hx. last_chew Hc.
Qed.

Lemma match_url_in_gap (g x : string) :
  h_or_end x -> g <> "" -> scheme_free g = true -> match_url (g ++ x) = None.
Proof.
  intros Hx Hg Hfree. unfold scheme_free in Hfree.
  apply andb_true_iff in Hfree. destruct Hfree as [H1 H2].
  apply negb_true_iff in H1. apply negb_true_iff in H2.
  unfold match_url. rewrite match_scheme_alt.
  rewrite (no_https_across g x Hx Hg H2), (no_http_across g x Hx Hg H1).
  reflexivity.
Qed.

Lemma contains_tail (p : string) (c : ascii) (g : string) :
  contains p (String c g) = false -> contains p g = false.
Proof.
  intros H. cbn [contains] in H. apply orb_false_iff in H. destruct H as [_ H].
  destruct g; exact H.
Qed.

Lemma scheme_free_tail (c : ascii) (g : string) :
  scheme_free (String c g) = true -> scheme_free g = true.
Proof.
  unfold scheme_free. intros H.
  apply andb_true_iff in H. destruct H as [H1 H2].
  apply negb_true_iff in H1. apply negb_true_iff in H2.
  rewrite (contains_tail _ _ _ H1), (contains_tail _ _ _ H2). reflexivity.
Qed.

(** The scan passes over a gap without a match. *)
Lemma findall_gap (g x : string) :
  h_or_end x -> scheme_free g = true -> findall 0 (g ++ x) = findall 0 x.
Proof.
  intros Hx. induction g as [|c g IH]; intros Hfree; [reflexivity|].
  change (String c g ++ x) with (String c (g ++ x)).
  cbn [findall].
  change (String c (g ++ x)) with (String c g ++ x).
  rewrite (match_url_in_gap (String c g) x Hx) by (discriminate || exact Hfree).
  apply IH. exact (scheme_free_tail c g Hfree).
Qed.







(** *** Words *)













End ExtractProofs.



(** ** The response aggregator *)

Section ChatbotSpecs.
Import Resolver Chatbot.
Variable w : World.

Let anything {A} : result A -> Prop := fun _ => True.

Lemma resolver_call_gathering (P : list part -> Prop) (ev : event) :
  resolver_call P ev -> gathering_call ev.
Proof. destruct ev; simpl; auto. Qed.

Lemma handle_content_gathering (source : string) (mime user_input : option string) :
  spec (handle_content w source mime user_input) gathering_call
       (returns (fun _ => True)).
Proof.
  eapply spec_weaken; [apply handle_content_spec| |].
  - intros ev. apply resolver_call_gathering.
  - intros [t|e]; simpl; auto.
Qed.

Lemma file_step_spec (user_input : option string) (file : option upload_file) :
  spec (file_step w user_input file) gathering_call anything.
Proof.
  unfold file_step. destruct file as [f|]; [|apply spec_ret; exact I].
  eapply spec_bind with (R1 := anything); [| |intros; exact I].
  { destruct (filename f); [apply spec_ret|apply spec_raise]; exact I. }
  intros fname _.
  eapply spec_bind with (R1 := anything);
    [apply spec_call; [exact I|intros; exact I]| |intros; exact I].
  intros name _.
  eapply spec_bind with (R1 := anything);
    [apply spec_call; [exact I|intros; exact I]| |intros; exact I].
  intros content _.
  eapply spec_bind with (R1 := anything);
    [apply spec_call; [exact I|intros; exact I]| |intros; exact I].
  intros _ _.
  eapply spec_bind; [apply spec_push_temp| |intros e []].
  intros _ _.
  eapply spec_bind with (R1 := anything);
    [|intros; apply spec_ret; exact I|intros; exact I].
  eapply spec_catch with (R1 := anything);
    [|intros; exact I|intros; apply spec_ret; exact I].
  eapply spec_bind; [apply handle_content_gathering| |intros e []].
  intros response _. destruct (truthy response); apply spec_ret; exact I.
Qed.

Lemma url_step_spec (user_input url : string) :
  spec (url_step w user_input url) gathering_call (returns (fun _ => True)).
Proof.
  unfold url_step.
  eapply spec_catch with (R1 := anything);
    [|intros; exact I|intros; apply spec_ret; exact I].
  eapply spec_bind with (R1 := anything);
    [apply spec_call; [exact I|intros; exact I]| |intros; exact I].
  intros head _.
  eapply spec_bind; [apply handle_content_gathering| |intros e []].
  intros r _. destruct (truthy r); apply spec_ret; exact I.
Qed.

Lemma url_loop_spec (user_input : string) (urls : list string) :
  spec (url_loop w user_input urls) gathering_call
       (returns (fun ts => List.length ts = List.length urls)).
Proof.
  induction urls as [|url rest IH]; simpl.
  - apply spec_ret. reflexivity.
  - eapply spec_bind; [apply url_step_spec| |intros e []].
    intros t _.
    eapply spec_bind; [apply IH| |intros e []].
    intros ts Hts. apply spec_ret. simpl in *. rewrite Hts. reflexivity.
Qed.

Lemma urls_step_spec (user_input : option string) :
  spec (urls_step w user_input) gathering_call (returns (fun _ => True)).
Proof.
  unfold urls_step. destruct user_input as [ui|]; [|apply spec_ret; exact I].
  destruct (truthy ui); [|apply spec_ret; exact I].
  eapply spec_weaken; [apply url_loop_spec|auto|].
  intros [ts|e]; simpl; auto.
Qed.

Lemma fallback_step_run (t : string) (st : St) :
  t <> "" ->
  fallback_step w (Some t) [] st
  = (Ok [fallback_text (query w (trace st) (prompt_header ++ nl ++ t))],
     log (Query (prompt_header ++ nl ++ t)) st).
Proof.
  intros Ht. unfold fallback_step.
  destruct t as [|c t]; [contradiction Ht; reflexivity|].
  cbn [truthy]. unfold catch, bind, call.
  destruct (query w (trace st) _) as [[[| |s]|]|e]; try reflexivity.
  simpl. destruct (truthy (strip s)); reflexivity.
Qed.

Lemma fallback_step_skip (user_input : option string) (texts : list string) (st : St) :
  texts <> [] \/ given user_input = false ->
  fallback_step w user_input texts st = (Ok texts, st).
Proof.
  intros H. unfold fallback_step.
  destruct texts as [|x texts]; [|reflexivity].
  destruct H as [H|H]; [contradiction H; reflexivity|].
  destruct user_input as [t|]; [|reflexivity].
  simpl in H. rewrite H. reflexivity.
Qed.

Lemma fallback_text_truthy (answer : result (option attr)) :
  truthy (fallback_text answer) = true.
Proof.
  destruct answer as [[[| |s]|]|e]; try reflexivity.
  simpl. destruct (truthy (strip s)) eqn:H; [exact H|reflexivity].
Qed.

(** The tail of the handler, run by run. *)
Lemma persist_and_reply_run (uid : nat) (user_input : option string)
      (file : option upload_file) (texts : list string) (st : St)
      (r : result endpoint) (st' : St) :
  persist_and_reply w uid user_input file texts st = (r, st') ->
  let record := {| user_id := uid;
                   user_input := record_input user_input file;
                   response := final_response texts;
                   timestamp := now w (trace st) |} in
  (exists new, trace st' = (trace st ++ new)%list
               /\ queries new = [] /\ db_adds new = [record])
  /\ (forall ep, r = Ok ep ->
        ep = Success (record_input user_input file) (final_response texts)
                     (now w (trace st))
        /\ session st' = []
        /\ store st' = (store st ++ session st ++ [record])%list).
Proof.
  intros Hrun record.
  unfold persist_and_reply, db_add_record, db_commit_session, db_refresh_record,
    bind, call, ret in Hrun.
  simpl in Hrun. fold record in Hrun.
  destruct (db_add w (trace st ++ [Now])%list record) as [[]|e1].
  - match type of Hrun with
    | context [db_commit w ?h] => destruct (db_commit w h) as [[]|e2]
    end.
    + match type of Hrun with
      | context [db_refresh w ?h] => destruct (db_refresh w h) as [[]|e3]
      end; inversion Hrun; subst; cbn [trace session store log].
      * split.
        -- exists [Now; DbAdd record; DbCommit; DbRefresh].
           rewrite <- !app_assoc. auto.
        -- intros ep Hep. inversion Hep; subst. auto.
      * split.
        -- exists [Now; DbAdd record; DbCommit; DbRefresh].
           rewrite <- !app_assoc. auto.
        -- intros ep Hep. discriminate Hep.
    + inversion Hrun; subst; cbn [trace session store log]. split.
      * exists [Now; DbAdd record; DbCommit]. rewrite <- !app_assoc. auto.
      * intros ep Hep. discriminate Hep.
  - inversion Hrun; subst; cbn [trace session store log]. split.
    + exists [Now; DbAdd record]. rewrite <- !app_assoc. auto.
    + intros ep Hep. discriminate Hep.
Qed.

Lemma queries_app (a b : history) :
  queries (a ++ b)%list = (queries a ++ queries b)%list.
Proof.
  induction a as [|ev a IH]; [reflexivity|].
  destruct ev; simpl; rewrite ?IH; reflexivity.
Qed.

Lemma db_adds_app (a b : history) :
  db_adds (a ++ b)%list = (db_adds a ++ db_adds b)%list.
Proof.
  induction a as [|ev a IH]; [reflexivity|].
  destruct ev; simpl; rewrite ?IH; reflexivity.
Qed.

Lemma gathering_quiet (new : history) :
  Forall gathering_call new -> queries new = [] /\ db_adds new = [].
Proof.
  induction 1 as [|ev new Hev _ [IHq IHd]]; [split; reflexivity|].
  destruct ev; simpl in Hev |- *; try contradiction; auto.
Qed.

(** The texts are gathered without a retrieval query and without
    touching the database. *)
Lemma gather_frame (user_input : option string) (file : option upload_file)
      (st st1 st2 : St) (ff fu : list string) :
  file_step w user_input file st = (Ok ff, st1) ->
  urls_step w user_input st1 = (Ok fu, st2) ->
  exists new, trace st2 = (trace st ++ new)%list
              /\ queries new = [] /\ db_adds new = []
              /\ session st2 = session st /\ store st2 = store st.
Proof.
  intros Hf Hu.
  destruct (file_step_spec user_input file _ _ _ Hf)
    as ((n1 & Ht1 & Ha1) & Hs1 & Hd1 & _).
  destruct (urls_step_spec user_input _ _ _ Hu)
    as ((n2 & Ht2 & Ha2) & Hs2 & Hd2 & _).
  exists (n1 ++ n2)%list.
  destruct (gathering_quiet n1 Ha1) as [Hq1 Hb1].
  destruct (gathering_quiet n2 Ha2) as [Hq2 Hb2].
  rewrite queries_app, db_adds_app, Hq1, Hq2, Hb1, Hb2.
  repeat split; try congruence.
  rewrite Ht2, Ht1, app_assoc. reflexivity.
Qed.

Lemma urls_step_returns (user_input : option string) (st : St) :
  exists fu st', urls_step w user_input st = (Ok fu, st').
Proof.
  destruct (urls_step w user_input st) as [r st'] eqn:Hrun.
  destruct (urls_step_spec user_input _ _ _ Hrun) as (_ & _ & _ & Hr).
  destruct r as [fu|e]; [|contradiction]. exists fu, st'. reflexivity.
Qed.

(** The fallback never raises: it adds one query to the history and
    gives one text, or it does nothing. *)
Lemma fallback_step_cases (user_input : option string) (texts : list string) (st : St) :
  (exists t, user_input = Some t /\ t <> "" /\ texts = []
             /\ fallback_step w user_input texts st
                = (Ok [fallback_text (query w (trace st) (prompt_header ++ nl ++ t))],
                   log (Query (prompt_header ++ nl ++ t)) st))
  \/ ((texts <> [] \/ given user_input = false)
      /\ fallback_step w user_input texts st = (Ok texts, st)).
Proof.
  destruct texts as [|x texts].
  - destruct user_input as [t|].
    + destruct t as [|c t].
      * right. split; [right; reflexivity|]. apply fallback_step_skip. right. reflexivity.
      * left. exists (String c t). repeat split; try discriminate.
        apply fallback_step_run. discriminate.
    + right. split; [right; reflexivity|]. apply fallback_step_skip. right. reflexivity.
  - right. split; [left; discriminate|]. apply fallback_step_skip. left. discriminate.
Qed.

(** A run of the body either stops in the file step, or goes through
    the three gathering steps and ends in [persist_and_reply]. *)
Lemma chatbot_body_run (uid : nat) (user_input : option string)
      (file : option upload_file) (st : St) (r : result endpoint) (st' : St) :
  chatbot_body w uid user_input file st = (r, st') ->
  (exists e, file_step w user_input file st = (Raise e, st') /\ r = Raise e)
  \/ (exists ff st1 fu st2 texts st3,
         file_step w user_input file st = (Ok ff, st1)
         /\ urls_step w user_input st1 = (Ok fu, st2)
         /\ fallback_step w user_input (filter_texts (ff ++ fu)%list) st2 = (Ok texts, st3)
         /\ persist_and_reply w uid user_input file texts st3 = (r, st')).
Proof.
  intros Hrun. unfold chatbot_body, bind in Hrun.
  destruct (file_step w user_input file st) as [[ff|e] st1] eqn:Hf.
  - destruct (urls_step_returns user_input st1) as (fu & st2 & Hu).
    rewrite Hu in Hrun.
    destruct (fallback_step_cases user_input (filter_texts (ff ++ fu)%list) st2)
      as [(t & _ & _ & _ & Hfb) | (_ & Hfb)];
      rewrite Hfb in Hrun; right;
      do 6 eexists; repeat split; try eassumption; reflexivity.
  - inversion Hrun; subst. left. exists e. auto.
Qed.

Lemma schedule_cleanup_spec :
  spec schedule_cleanup (fun ev => exists f, ev = AddTask f)
       (returns (fun _ => True)).
Proof.
  unfold schedule_cleanup.
  eapply spec_bind; [apply spec_get_temps| |intros e []].
  intros ts _. apply spec_for_each. intros f.
  apply spec_call; [exists f; reflexivity | intros; exact I].
Qed.

Lemma tasks_quiet (new : history) :
  Forall (fun ev => exists f, ev = AddTask f) new ->
  queries new = [] /\ db_adds new = [].
Proof.
  induction 1 as [|ev new (f & ->) _ [IHq IHd]]; [split; reflexivity|].
  simpl. auto.
Qed.

Lemma fallback_step_frame (user_input : option string) (texts out : list string)
      (st st' : St) :
  fallback_step w user_input texts st = (Ok out, st') ->
  exists new, trace st' = (trace st ++ new)%list
              /\ db_adds new = []
              /\ session st' = session st /\ store st' = store st.
Proof.
  intros Hrun.
  destruct (fallback_step_cases user_input texts st)
    as [(t & _ & _ & _ & Hfb) | (_ & Hfb)];
    rewrite Hfb in Hrun; inversion Hrun; subst.
  - exists [Query (prompt_header ++ nl ++ t)]. auto.
  - exists []. rewrite app_nil_r. auto.
Qed.

Lemma file_step_filename (user_input : option string) (f : upload_file)
      (st st1 : St) (ff : list string) :
  file_step w user_input (Some f) st = (Ok ff, st1) ->
  exists n, filename f = Some n.
Proof.
  unfold file_step, bind. destruct (filename f) as [n|]; [eauto|].
  simpl. discriminate.
Qed.

Lemma keeps_strip (r : string) :
  keeps r = true -> exists c s, strip r = String c s.
Proof.
  unfold keeps. intros H.
  apply andb_true_iff in H. destruct H as [H _].
  apply andb_true_iff in H. destruct H as [_ H].
  destruct (strip r) as [|c s]; [discriminate H|]. eauto.
Qed.

End ChatbotSpecs.

(** The merge does not keep the texts as the resolver returned them: a
    model reply that ends with a line break loses it. *)
Lemma merge_of_raw_texts_counterexample :
  ~ (forall (w : World) (uid : nat) (user_input : option string)
            (file : option Chatbot.upload_file) (st st1 st2 st' : St)
            (F U1 U2 u resp : string) (ts : nat),
        Chatbot.file_step w user_input file st = (Ok [F], st1) ->
        Chatbot.urls_step w user_input st1 = (Ok [U1; U2], st2) ->
        Chatbot.keeps F = true -> Chatbot.keeps U1 = true -> Chatbot.keeps U2 = true ->
        Chatbot.chatbot_body w uid user_input file st = (Ok (Chatbot.Success u resp ts), st') ->
        resp = F ++ nl ++ nl ++ U1 ++ nl ++ nl ++ U2).
Proof.
  intros H.
  assert (Heq : Examples.merged
                = Examples.from_upload ++ nl ++ nl ++ Examples.from_link_a
                  ++ nl ++ nl ++ Examples.from_link_b).
  { apply (H Examples.w_summary 7 Examples.links_input (Some Examples.text_upload)
             Examples.st0 Examples.after_file Examples.after_urls Examples.after_body
             Examples.from_upload Examples.from_link_a Examples.from_link_b
             Examples.two_links Examples.merged 11);
      vm_compute; reflexivity. }
  vm_compute in Heq. discriminate Heq.
Qed.

(** C4 (amended).  Let the text of the request hold the URLs [url1] and
    [url2], in this order.  When the file step gives [F], the turn of
    the loop on [url1], run after the file step, gives [U1], the turn on
    [url2], run after that, gives [U2], and all three pass the filter,
    then the URL step gives [U1] before [U2], no retrieval query is
    made, and the final response is the stripped texts joined by a blank
    line: [F] first, then [U1], then [U2]. *)
Theorem merge_order :
  forall (w : World) (uid : nat) (t : string)
         (file : option Chatbot.upload_file) (st st1 sa st2 st' : St)
         (url1 url2 F U1 U2 u resp : string) (ts : nat),
    Extract.extract_urls (Some t) = [url1; url2] ->
    Chatbot.file_step w (Some t) file st = (Ok [F], st1) ->
    Chatbot.url_step w t url1 st1 = (Ok U1, sa) ->
    Chatbot.url_step w t url2 sa = (Ok U2, st2) ->
    Chatbot.keeps F = true -> Chatbot.keeps U1 = true -> Chatbot.keeps U2 = true ->
    Chatbot.chatbot_body w uid (Some t) file st = (Ok (Chatbot.Success u resp ts), st') ->
    Chatbot.urls_step w (Some t) st1 = (Ok [U1; U2], st2)
    /\ resp = strip F ++ nl ++ nl ++ strip U1 ++ nl ++ nl ++ strip U2
    /\ exists new, trace st' = (trace st ++ new)%list /\ queries new = [].
Proof.
  intros w uid t file st st1 sa st2 st' url1 url2 F U1 U2 u resp ts
         Hurls Hf Hu1 Hu2 HF HU1 HU2 Hbody.
  assert (Hu : Chatbot.urls_step w (Some t) st1 = (Ok [U1; U2], st2)).
  { unfold Chatbot.urls_step. rewrite Hurls.
    destruct t as [|c t]; [discriminate Hurls|].
    cbn [truthy Chatbot.url_loop]. unfold bind. rewrite Hu1, Hu2. reflexivity. }
  split; [exact Hu|].
  destruct (chatbot_body_run w _ _ _ _ _ _ Hbody)
    as [(e & _ & Hr) | (ff & st1' & fu & st2' & texts & st3 & Hf' & Hu' & Hfb & Hp)];
    [discriminate Hr|].
  rewrite Hf in Hf'. inversion Hf'; subst ff st1'.
  rewrite Hu in Hu'. inversion Hu'; subst fu st2'.
  assert (Hfilter : Chatbot.filter_texts ([F] ++ [U1; U2])
                    = [strip F; strip U1; strip U2]).
  { unfold Chatbot.filter_texts. simpl. rewrite HF, HU1, HU2. reflexivity. }
  rewrite Hfilter in Hfb.
  rewrite fallback_step_skip in Hfb by (left; discriminate).
  inversion Hfb; subst texts st3.
  destruct (persist_and_reply_run w _ _ _ _ _ _ _ Hp)
    as ((np & Htp & Hqp & _) & Hok).
  destruct (Hok _ eq_refl) as (Hep & _). inversion Hep; subst.
  split.
  - destruct (keeps_strip F HF) as (c & s & HsF).
    unfold Chatbot.final_response. simpl. rewrite HsF. reflexivity.
  - destruct (gather_frame w _ _ _ _ _ _ _ Hf Hu) as (ng & Htg & Hqg & _).
    exists (ng ++ np)%list. split.
    + rewrite Htp, Htg, app_assoc. reflexivity.
    + rewrite queries_app, Hqg, Hqp. reflexivity.
Qed.

Lemma merge_order_witness :
  Chatbot.urls_step Examples.w_summary (Some Examples.two_links) Examples.after_file
  = (Ok [Examples.from_link_a; Examples.from_link_b], Examples.after_urls)
  /\ Examples.merged
     = strip Examples.from_upload ++ nl ++ nl ++ strip Examples.from_link_a
       ++ nl ++ nl ++ strip Examples.from_link_b.
Proof.
  destruct (merge_order Examples.w_summary 7 Examples.two_links
              (Some Examples.text_upload)
              Examples.st0 Examples.after_file Examples.after_link_a
              Examples.after_urls Examples.after_body
              "http://example.com/a.txt" "http://example.com/b.txt"
              Examples.from_upload Examples.from_link_a Examples.from_link_b
              Examples.two_links Examples.merged 11) as (Hu & Hresp & _);
    try (vm_compute; reflexivity).
  split; [exact Hu | exact Hresp].
Defined.

(** When the retrieval query fails, the final text carries the error of
    that failure: it is not one fixed placeholder. *)
Lemma fallback_fixed_placeholder_counterexample :
  ~ (exists placeholder : string,
        forall e : string,
        exists u ts st',
          Chatbot.chatbot_post (Examples.w_query_fails e) 7 (Some "hello") None
                               Examples.st0
          = (Ok (Chatbot.Success u placeholder ts), st')).
Proof.
  intros (p & H).
  destruct (H "index not loaded") as (u1 & ts1 & st1 & H1).
  destruct (H "timed out") as (u2 & ts2 & st2 & H2).
  vm_compute in H1, H2.
  inversion H1 as [[Hu1 Hp1 Ht1 Hs1]]. inversion H2 as [[Hu2 Hp2 Ht2 Hs2]].
  rewrite <- Hp1 in Hp2. discriminate Hp2.
Qed.

(** C5 (amended).  When no gathered text passes the filter and user
    text was supplied, the retrieval engine is queried exactly once, with
    the persona preamble, a line break and the user text; the final text
    is then the stripped answer, or the fixed apology placeholder when
    the answer is empty, or "Error generating response: " followed by
    the error when the query fails.  When a text passes the filter or no
    user text was supplied, the retrieval engine is not queried. *)
Theorem fallback_query_policy :
  forall (w : World) (uid : nat) (user_input : option string)
         (file : option Chatbot.upload_file) (st st1 st2 st' : St)
         (ff fu : list string) (r : result Chatbot.endpoint),
    Chatbot.file_step w user_input file st = (Ok ff, st1) ->
    Chatbot.urls_step w user_input st1 = (Ok fu, st2) ->
    Chatbot.chatbot_body w uid user_input file st = (r, st') ->
    exists new, trace st' = (trace st ++ new)%list
    /\ (forall t, user_input = Some t -> t <> "" ->
        Chatbot.filter_texts (ff ++ fu)%list = [] ->
        let q := Chatbot.prompt_header ++ nl ++ t in
        let answer := query w (trace st2) q in
        queries new = [q]
        /\ forall u resp ts, r = Ok (Chatbot.Success u resp ts) ->
           (forall e, answer = Raise e -> resp = "Error generating response: " ++ e)
           /\ (answer = Ok None \/ answer = Ok (Some AttrMissing)
               \/ (exists s, answer = Ok (Some (AttrStr s)) /\ strip s = "") ->
               resp = "I couldn't generate a good response for your query.")
           /\ (forall s, answer = Ok (Some (AttrStr s)) -> strip s <> "" ->
               resp = strip s))
    /\ (Chatbot.filter_texts (ff ++ fu)%list <> [] \/ Chatbot.given user_input = false ->
        queries new = []).
Proof.
  intros w uid user_input file st st1 st2 st' ff fu r Hf Hu Hbody.
  destruct (chatbot_body_run w _ _ _ _ _ _ Hbody)
    as [(e & Hf' & _) | (ff' & st1' & fu' & st2' & texts & st3 & Hf' & Hu' & Hfb & Hp)];
    [rewrite Hf in Hf'; discriminate Hf'|].
  rewrite Hf in Hf'. inversion Hf'; subst ff' st1'.
  rewrite Hu in Hu'. inversion Hu'; subst fu' st2'.
  destruct (gather_frame w _ _ _ _ _ _ _ Hf Hu) as (ng & Htg & Hqg & _).
  destruct (persist_and_reply_run w _ _ _ _ _ _ _ Hp)
    as ((np & Htp & Hqp & _) & Hok).
  destruct (fallback_step_cases w user_input (Chatbot.filter_texts (ff ++ fu)%list) st2)
    as [(t & Hui & Hne & Hempty & Hrun) | (Hskip & Hrun)];
    rewrite Hrun in Hfb;
    match type of Hfb with
    | (Ok ?a, ?b) = _ =>
        assert (Htexts : texts = a) by congruence;
        assert (Hst3 : st3 = b) by congruence
    end; clear Hfb; subst texts st3.
  - remember (query w (trace st2) (Chatbot.prompt_header ++ nl ++ t)) as ans eqn:Hans.
    exists (ng ++ [Query (Chatbot.prompt_header ++ nl ++ t)] ++ np)%list.
    split; [|split].
    + rewrite Htp, trace_log, Htg, <- !app_assoc. reflexivity.
    + intros t' Hui' _ _ q answer.
      rewrite Hui in Hui'. injection Hui' as <-.
      split.
      * rewrite !queries_app, Hqg, Hqp. reflexivity.
      * intros u resp ts Hr.
        destruct (Hok _ Hr) as (Hep & _).
        injection Hep as Hu0 Hresp Hts. subst u resp ts.
        unfold Chatbot.final_response. cbn [join].
        rewrite fallback_text_truthy. subst answer q. rewrite <- Hans.
        split; [|split].
        -- intros e He. rewrite He. reflexivity.
        -- intros [Ha | [Ha | (s & Ha & Hs)]]; rewrite Ha; try reflexivity.
           simpl. rewrite Hs. reflexivity.
        -- intros s Ha Hs. rewrite Ha. simpl.
           destruct (strip s); [contradiction Hs; reflexivity | reflexivity].
    + intros [Hkeep | Hgiven].
      * contradiction.
      * rewrite Hui in Hgiven. destruct t; [contradiction Hne; reflexivity|].
        discriminate Hgiven.
  - exists (ng ++ np)%list. split; [|split].
    + rewrite Htp, Htg, <- app_assoc. reflexivity.
    + intros t Hui Hne Hempty.
      destruct Hskip as [Hkeep | Hgiven]; [contradiction|].
      rewrite Hui in Hgiven. destruct t; [contradiction Hne; reflexivity|].
      discriminate Hgiven.
    + intros _. rewrite queries_app, Hqg, Hqp. reflexivity.
Qed.

Lemma fallback_query_policy_witness :
  exists new,
    trace (snd (Chatbot.chatbot_body Examples.w_query_blank 7 (Some "hello") None
                  Examples.st0))
    = (trace Examples.st0 ++ new)%list
    /\ queries new = [Chatbot.prompt_header ++ nl ++ "hello"].
Proof.
  destruct (fallback_query_policy Examples.w_query_blank 7 (Some "hello") None
              Examples.st0 _ _ _ _ _ _ eq_refl eq_refl eq_refl)
    as (new & Htrace & Hquery & _).
  exists new. split; [exact Htrace|].
  destruct (Hquery "hello" eq_refl) as (Hq & _); [discriminate | reflexivity |].
  exact Hq.
Defined.

(** C6.  A request that ends in a success response has handed exactly
    one record to the database and committed it, however many files,
    URLs and fallback queries it went through.  The record holds the
    user text; when there is none, the name of the uploaded file; and
    the expression that chooses it gives the marker "<empty>" when both
    are missing. *)
Theorem one_record_per_request :
  forall (w : World) (uid : nat) (user_input : option string)
         (file : option Chatbot.upload_file) (st st' : St)
         (u resp : string) (ts : nat),
    Chatbot.chatbot_post w uid user_input file st
    = (Ok (Chatbot.Success u resp ts), st') ->
    let record := {| user_id := uid; user_input := u;
                     response := resp; timestamp := ts |} in
    (exists new, trace st' = (trace st ++ new)%list /\ db_adds new = [record])
    /\ store st' = (store st ++ session st ++ [record])%list
    /\ session st' = []
    /\ (forall t, user_input = Some t -> t <> "" -> u = t)
    /\ (Chatbot.given user_input = false ->
        forall f, file = Some f -> Chatbot.filename f = Some u)
    /\ Chatbot.record_input None None = "<empty>".
Proof.
  intros w uid user_input file st st' u resp ts Hrun record.
  unfold Chatbot.chatbot_post, with_frame in Hrun.
  destruct (negb (Chatbot.given user_input)
            && negb match file with Some _ => true | None => false end) eqn:Hguard;
    [discriminate Hrun|].
  unfold bind, call in Hrun.
  destruct (db_history w (trace (enter st)) uid Chatbot.MAX_HISTORY) as [past|e];
    [|discriminate Hrun].
  unfold finally, catch in Hrun.
  destruct (Chatbot.chatbot_body w uid user_input file
              (log (DbHistory uid Chatbot.MAX_HISTORY) (enter st)))
    as [[ep|e] stb] eqn:Hbody.
  - destruct (Chatbot.schedule_cleanup stb) as [rc stc] eqn:Hclean.
    destruct (schedule_cleanup_spec _ _ _ Hclean)
      as ((nc & Htc & Hac) & Hsc & Hdc & Hrc).
    destruct rc as [[]|e]; [|contradiction].
    assert (Hep : ep = Chatbot.Success u resp ts) by congruence.
    assert (Hst' : st' = leave st stc) by congruence.
    clear Hrun. subst ep st'.
    destruct (chatbot_body_run w _ _ _ _ _ _ Hbody)
      as [(e & _ & Hr) | (ff & st1 & fu & st2 & texts & st3 & Hf & Hu & Hfb & Hp)];
      [discriminate Hr|].
    destruct (gather_frame w _ _ _ _ _ _ _ Hf Hu)
      as (ng & Htg & _ & Hbg & Hsg & Hdg).
    destruct (fallback_step_frame w _ _ _ _ _ Hfb) as (nq & Htq & Hbq & Hsq & Hdq).
    destruct (persist_and_reply_run w _ _ _ _ _ _ _ Hp)
      as ((np & Htp & _ & Hbp) & Hok).
    destruct (Hok _ eq_refl) as (Hep & Hsess & Hstore).
    assert (Hu0 : u = Chatbot.record_input user_input file) by congruence.
    assert (Hresp : resp = Chatbot.final_response texts) by congruence.
    assert (Hts : ts = now w (trace st3)) by congruence.
    clear Hep.
    destruct (tasks_quiet nc Hac) as [_ Hbc].
    split; [|split; [|split; [|split; [|split]]]].
    + exists ([DbHistory uid Chatbot.MAX_HISTORY] ++ ng ++ nq ++ np ++ nc)%list.
      split.
      * cbn [trace leave]. rewrite Htc, Htp, Htq, Htg. cbn [trace log enter].
        rewrite <- !app_assoc. reflexivity.
      * rewrite !db_adds_app, Hbg, Hbq, Hbp, Hbc. unfold record.
        rewrite Hu0, Hresp, Hts. reflexivity.
    + cbn [store leave]. rewrite Hdc, Hstore, Hdq, Hsq, Hdg, Hsg.
      unfold record. rewrite Hu0, Hresp, Hts. reflexivity.
    + cbn [session leave]. rewrite Hsc. exact Hsess.
    + intros t Hui Hne. rewrite Hu0, Hui.
      destruct t; [contradiction Hne; reflexivity | reflexivity].
    + intros Hgiven f Hfile. subst file.
      destruct (file_step_filename w _ _ _ _ _ Hf) as (n & Hn).
      rewrite Hu0, Hn. unfold Chatbot.record_input. rewrite Hn.
      destruct user_input as [t|]; [|reflexivity].
      simpl in Hgiven. rewrite Hgiven. reflexivity.
    + reflexivity.
  - unfold ret in Hrun.
    destruct (Chatbot.schedule_cleanup stb) as [[[]|e'] stc]; discriminate Hrun.
Qed.

Lemma one_record_per_request_witness :
  store Examples.after_post
  = (store Examples.st0 ++ session Examples.st0
     ++ [ {| user_id := 7; user_input := Examples.two_links;
             response := Examples.merged; timestamp := 12 |} ])%list.
Proof.
  apply (one_record_per_request Examples.w_summary 7 Examples.links_input
           (Some Examples.text_upload) Examples.st0 Examples.after_post
           Examples.two_links Examples.merged 12).
  vm_compute; reflexivity.
Defined.

(** * Further properties *)

(** ** The URL extractor on arbitrary text *)

Section ExtractSound.
Import Extract.

Lemma strip_prefix_self (p r : string) : strip_prefix p (p ++ r) = Some r.
Proof.
  induction p as [|a p IH]; simpl.
  - destruct r; reflexivity.
  - rewrite Ascii.eqb_refl. exact IH.
Qed.

Lemma startswith_app (m rest : string) : startswith (m ++ rest) m = true.
Proof. unfold startswith. rewrite strip_prefix_self. reflexivity. Qed.

Lemma contains_cons (p : string) (c : ascii) (s : string) :
  contains p s = true -> contains p (String c s) = true.
Proof.
  intros H. cbn [contains]. apply orb_true_iff. right.
  destruct s; exact H.
Qed.

Lemma nonspace_run_no_space (s : string) : no_space (nonspace_run s) = true.
Proof.
  induction s as [|c s IH]; simpl; [reflexivity|].
  destruct (isspace c) eqn:Hc; simpl; [reflexivity|].
  rewrite Hc, IH. reflexivity.
Qed.

Lemma nonspace_run_prefix (s : string) : exists rest, s = nonspace_run s ++ rest.
Proof.
  induction s as [|c s (rest & IH)]; simpl.
  - exists "". reflexivity.
  - destruct (isspace c).
    + exists (String c s). reflexivity.
    + exists rest. simpl. rewrite <- IH. reflexivity.
Qed.

Lemma match_scheme_inv (s sch body : string) :
  match_scheme s = Some (sch, body) ->
  (sch = "http://" \/ sch = "https://") /\ s = sch ++ body.
Proof.
  rewrite match_scheme_alt.
  destruct (strip_prefix "https://" s) as [b|] eqn:Hs.
  - intros H. inversion H; subst. split; [right; reflexivity|].
    exact (strip_prefix_eq _ _ _ Hs).
  - destruct (strip_prefix "http://" s) as [b|] eqn:Hp; [|discriminate].
    intros H. inversion H; subst. split; [left; reflexivity|].
    exact (strip_prefix_eq _ _ _ Hp).
Qed.

(** What the pattern matches at the head of [s] is a well-formed URL,
    and [s] begins with it. *)
Lemma match_url_sound (s m : string) :
  match_url s = Some m ->
  well_formed_url m = true /\ exists rest, s = m ++ rest.
Proof.
  unfold match_url.
  destruct (match_scheme s) as [[sch body]|] eqn:Hs; [|discriminate].
  destruct (match_scheme_inv _ _ _ Hs) as (Hsch & Hbody).
  pose proof (nonspace_run_no_space body) as Hns.
  destruct (nonspace_run_prefix body) as (rest & Hrest).
  destruct (nonspace_run body) as [|c run] eqn:Hrun; [discriminate|].
  intros H. inversion H; subst m. split.
  - unfold well_formed_url.
    destruct Hsch as [-> | ->]; cbn [append no_space strip_prefix Ascii.eqb Bool.eqb];
      cbn [no_space] in Hns; rewrite Hns; reflexivity.
  - exists rest. rewrite Hbody, Hrest at 1. rewrite append_assoc. reflexivity.
Qed.

Lemma findall_sound (s : string) :
  forall skip,
    Forall (fun u => well_formed_url u = true /\ contains u s = true)
           (findall skip s).
Proof.
  induction s as [|c s IH]; intros skip; [constructor|].
  assert (Hlift : forall k,
             Forall (fun u => well_formed_url u = true
                              /\ contains u (String c s) = true) (findall k s)).
  { intros k. eapply Forall_impl; [|apply IH].
    intros u (Hu & Hc). split; [exact Hu | apply contains_cons; exact Hc]. }
  cbn [findall]. destruct skip as [|k]; [|apply Hlift].
  destruct (match_url (String c s)) as [m|] eqn:Hm; [|apply Hlift].
  constructor; [|apply Hlift].
  destruct (match_url_sound _ _ Hm) as (Hwf & rest & Hrest).
  split; [exact Hwf|].
  rewrite Hrest. destruct (m ++ rest) eqn:E;
    cbn [contains]; rewrite <- E, startswith_app; reflexivity.
Qed.

End ExtractSound.

(** X1.  Whatever the text, every string the extractor returns is a
    well-formed URL (it begins with "http://" or "https://", goes on
    with at least one more character and holds no whitespace) and occurs
    in the text. *)
Theorem extract_urls_sound :
  forall (text : option string) (u : string),
    In u (Extract.extract_urls text) ->
    Extract.well_formed_url u = true
    /\ exists t, text = Some t /\ contains u t = true.
Proof.
  intros [t|] u Hin; [|contradiction].
  unfold Extract.extract_urls in Hin.
  destruct (truthy t); [|contradiction].
  pose proof (findall_sound t 0) as Hall. rewrite Forall_forall in Hall.
  destruct (Hall u Hin) as (Hwf & Hc).
  split; [exact Hwf|]. exists t. auto.
Qed.

Lemma extract_urls_sound_witness :
  Extract.well_formed_url "https://b.org/x" = true
  /\ exists t, Some "a http://a.com, https://b.org/x ." = Some t
               /\ contains "https://b.org/x" t = true.
Proof.
  apply (extract_urls_sound (Some "a http://a.com, https://b.org/x .")).
  vm_compute. tauto.
Defined.

(** X2.  A text that holds neither "http://" nor "https://" yields no
    URL. *)
Theorem extract_urls_without_scheme :
  forall t : string,
    contains "http://" t = false ->
    contains "https://" t = false ->
    Extract.extract_urls (Some t) = [].
Proof.
  intros t H1 H2. unfold Extract.extract_urls.
  destruct (truthy t); [|reflexivity].
  rewrite <- (append_empty_r t).
  rewrite (findall_gap t "" (or_introl eq_refl)); [reflexivity|].
  unfold Extract.scheme_free. rewrite H1, H2. reflexivity.
Qed.

Lemma extract_urls_without_scheme_witness :
  Extract.extract_urls (Some "mail me at http:/example or ftp://x") = [].
Proof.
  apply extract_urls_without_scheme; reflexivity.
Defined.

(** ** Runs of the resolver *)

Section ResolverRuns.
Import Resolver Obs.
Variable w : World.

Lemma generates_app (a b : history) :
  generates (a ++ b)%list = (generates a ++ generates b)%list.
Proof.
  induction a as [|ev a IH]; [reflexivity|].
  destruct ev; simpl; rewrite ?IH; reflexivity.
Qed.

Lemma no_generate (new : history) :
  Forall (resolver_call (fun _ => False)) new -> generates new = [].
Proof.
  induction 1 as [|ev new Hev _ IH]; [reflexivity|].
  destruct ev; simpl in Hev |- *; try contradiction; exact IH.
Qed.

(** The generation step makes one call, or two when the first is
    rejected on safety grounds, and always ends with a text. *)
Lemma generate_text_run (cs : list part) (st : St) :
  let st1 := log (Generate cs None) st in
  let st2 := log (Generate cs (Some safety_settings)) st1 in
  exists t,
    (generate_text w cs st = (Ok t, st1)
     /\ forall e, generate w (trace st) cs None = Raise e ->
                  is_safety_block e = false)
    \/ (generate_text w cs st = (Ok t, st2)
        /\ exists e, generate w (trace st) cs None = Raise e
                     /\ is_safety_block e = true).
Proof.
  intros st1 st2.
  unfold generate_text, generate_with_retry, catch, bind, call, ret, raise.
  destruct (generate w (trace st) cs None) as [r|e] eqn:Hfirst.
  - eexists. left. split; [reflexivity | intros e He; discriminate He].
  - destruct (is_safety_block e) eqn:Hblock.
    + fold st1.
      destruct (generate w (trace st1) cs (Some safety_settings)) as [r|e2];
        eexists; right; (split; [reflexivity | exists e; auto]).
    + eexists. left. split; [reflexivity|].
      intros e' He'. inversion He'; subst. exact Hblock.
Qed.

(** A run of the resolver: the dispatch, then the generation step unless
    the dispatch returned at once, then the cleanup. *)
Lemma handle_content_run (source : string) (mime user_input : option string)
      (st : St) (r : result string) (st' : St) :
  handle_content w source mime user_input st = (r, st') ->
  exists a st1 t st2 st3,
    assemble w source (resolve_mime w source mime) user_input (enter st) = (Ok a, st1)
    /\ match a with
       | inl t0 => t = t0 /\ st2 = st1
       | inr cs => generate_text w cs st1 = (Ok t, st2)
       end
    /\ cleanup w st2 = (Ok tt, st3)
    /\ r = Ok t /\ st' = leave st st3.
Proof.
  intros Hrun. unfold handle_content, with_frame, finally, catch, bind in Hrun.
  destruct (assemble w source (resolve_mime w source mime) user_input (enter st))
    as [ra st1] eqn:Hasm.
  destruct (assemble_spec w (fun _ => True) _ _ _ _ _ _ Hasm) as (_ & _ & _ & Hra).
  destruct ra as [a|e]; [|contradiction].
  destruct a as [t0|cs].
  - unfold ret in Hrun.
    destruct (cleanup_returns w st1) as (st3 & Hclean). rewrite Hclean in Hrun.
    exists (inl t0), st1, t0, st1, st3.
    inversion Hrun; subst. auto.
  - destruct (generate_text_run cs st1) as (t & [(Hg & _) | (Hg & _)]);
      rewrite Hg in Hrun;
      match type of Hg with
      | _ = (_, ?s2) =>
          destruct (cleanup_returns w s2) as (st3 & Hclean);
          rewrite Hclean in Hrun;
          exists (inr cs), st1, t, s2, st3
      end;
      inversion Hrun; subst; auto.
Qed.

End ResolverRuns.

(** X3.  One resolution calls the model at most twice; a second call
    carries the payload of the first and the relaxed settings. *)
Theorem model_called_at_most_twice :
  forall (w : World) (source : string) (mime user_input : option string)
         (st st' : St) (r : result string),
    Resolver.handle_content w source mime user_input st = (r, st') ->
    exists new, trace st' = (trace st ++ new)%list
    /\ (Obs.generates new = []
        \/ exists cs,
             Obs.generates new = [(cs, None)]
             \/ Obs.generates new
                = [(cs, None); (cs, Some Resolver.safety_settings)]).
Proof.
  intros w source mime user_input st st' r Hrun.
  destruct (handle_content_run w _ _ _ _ _ _ Hrun)
    as (a & st1 & t & st2 & st3 & Hasm & Hgen & Hclean & _ & Hst').
  destruct (assemble_spec w (fun _ => False) _ _ _ _ _ _ Hasm)
    as ((na & Hta & Hfa) & _).
  destruct (cleanup_spec w (fun _ => False) _ _ _ Hclean)
    as ((nc & Htc & Hfc) & _).
  pose proof (no_generate na Hfa) as Hga.
  pose proof (no_generate nc Hfc) as Hgc.
  subst st'. cbn [trace leave]. cbn [trace enter] in Hta.
  destruct a as [t0|cs].
  - destruct Hgen as (_ & ->).
    exists (na ++ nc)%list. split.
    + rewrite Htc, Hta, app_assoc. reflexivity.
    + left. rewrite generates_app, Hga, Hgc. reflexivity.
  - destruct (generate_text_run w cs st1) as (t' & [(Hg & _) | (Hg & _)]);
      rewrite Hg in Hgen; inversion Hgen; subst st2.
    + exists (na ++ [Generate cs None] ++ nc)%list. split.
      * rewrite Htc, trace_log, Hta, <- !app_assoc. reflexivity.
      * right. exists cs. left.
        rewrite !generates_app, Hga, Hgc. reflexivity.
    + exists (na ++ [Generate cs None; Generate cs (Some Resolver.safety_settings)]
                 ++ nc)%list.
      split.
      * rewrite Htc, !trace_log, Hta, <- !app_assoc. reflexivity.
      * right. exists cs. right.
        rewrite !generates_app, Hga, Hgc. reflexivity.
Qed.

Lemma model_called_at_most_twice_witness :
  exists new,
    trace (snd (Resolver.handle_content Examples.w_blocked "cat.png"
                  (Some "image/png") None Examples.st0))
    = (trace Examples.st0 ++ new)%list
    /\ Obs.generates new
       = [([PartRef "files/cat.png"; PartText "Caption this image."], None);
          ([PartRef "files/cat.png"; PartText "Caption this image."],
           Some Resolver.safety_settings)].
Proof.
  destruct (model_called_at_most_twice Examples.w_blocked "cat.png"
              (Some "image/png") None Examples.st0 _ _ eq_refl)
    as (new & Htrace & _).
  exists new. split; [exact Htrace|].
  simpl in Htrace. subst new. reflexivity.
Defined.

(** ** The MIME hint *)

Lemma resolve_mime_guess (w : World) (source : string) :
  Resolver.resolve_mime w source (guess_type w source)
  = Resolver.resolve_mime w source None.
Proof.
  unfold Resolver.resolve_mime.
  destruct (guess_type w source) as [m|] eqn:Hg; [|reflexivity].
  destruct (truthy m); reflexivity.
Qed.

(** X4.  An empty MIME hint counts as no hint; without a hint the
    resolver works as if it had been given the type guessed from the
    name of the source; and when nothing can be guessed it answers
    "Unsupported content type: unknown" without any call. *)
Theorem missing_mime_hint :
  forall (w : World) (source : string) (user_input : option string) (st : St),
    Resolver.handle_content w source (Some "") user_input st
    = Resolver.handle_content w source None user_input st
    /\ Resolver.handle_content w source None user_input st
       = Resolver.handle_content w source (guess_type w source) user_input st
    /\ (guess_type w source = None ->
        Resolver.handle_content w source None user_input st
        = (Ok "Unsupported content type: unknown", st)).
Proof.
  intros w source user_input st. split; [reflexivity|]. split.
  - unfold Resolver.handle_content. rewrite resolve_mime_guess. reflexivity.
  - intros Hg.
    unfold Resolver.handle_content, with_frame, finally, catch, bind.
    cbn [Resolver.resolve_mime]. rewrite Hg. simpl. destruct st. reflexivity.
Qed.

Lemma missing_mime_hint_witness :
  Resolver.handle_content Examples.w_summary "archive.xyz" None (Some "what is this")
                          Examples.st0
  = (Ok "Unsupported content type: unknown", Examples.st0).
Proof.
  destruct (missing_mime_hint Examples.w_summary "archive.xyz" (Some "what is this")
              Examples.st0) as (_ & _ & H).
  apply H. reflexivity.
Defined.

(** ** Sources that cannot be fetched or read *)

Section Dispatch.
Import Resolver.
Variable w : World.

Lemma text_not_pdf (m : string) :
  startswith m "text/" = true -> is_pdf (Some m) = false.
Proof.
  intros H. simpl. destruct (String.eqb_spec m "application/pdf"); [|reflexivity].
  subst m. discriminate H.
Qed.

Lemma text_not_image (m : string) :
  startswith m "text/" = true -> startswith m "image/" = false.
Proof.
  unfold startswith. destruct m as [|c m]; [discriminate|].
  cbn [strip_prefix].
  destruct (Ascii.eqb_spec "t" c); [subst c; reflexivity | discriminate].
Qed.

Lemma text_not_audio (m : string) :
  startswith m "text/" = true -> startswith m "audio/" = false.
Proof.
  unfold startswith. destruct m as [|c m]; [discriminate|].
  cbn [strip_prefix].
  destruct (Ascii.eqb_spec "t" c); [subst c; reflexivity | discriminate].
Qed.

(** The branch taken on each kind of MIME string. *)
Lemma assemble_pdf (source : string) (user_input : option string) :
  assemble w source (Some "application/pdf") user_input
  = if startswith source "http" then
      catch
        (bind (call (HttpGet source) (fun h => http_get w h source))
              (fun resp =>
                 ret (inr [PartBytes (content resp) "application/pdf";
                           PartText (or_default user_input "Summarize this document.")])))
        (fun e => ret (inl ("Error fetching PDF: " ++ e)))
    else
      catch
        (bind (call (OpenRb source) (fun h => open_rb w h source))
              (fun data =>
                 ret (inr [PartBytes data "application/pdf";
                           PartText (or_default user_input "Summarize this document.")])))
        (fun e => ret (inl ("Error reading PDF file: " ++ e))).
Proof. reflexivity. Qed.

Lemma assemble_image (source m : string) (user_input : option string) :
  startswith m "image/" = true ->
  assemble w source (Some m) user_input
  = catch
      (bind (materialize w source) (fun file_to_use =>
       bind (call (Upload file_to_use) (fun h => upload w h file_to_use))
            (fun upload_ref =>
               ret (inr [PartRef upload_ref;
                         PartText (or_default user_input "Caption this image.")]))))
      (fun e => ret (inl ("Error processing image: " ++ e))).
Proof.
  intros H. unfold assemble, mime_starts.
  rewrite (image_not_pdf m H), H, (startswith_truthy m "image/")
    by (discriminate || assumption).
  reflexivity.
Qed.

Lemma assemble_audio (source m : string) (user_input : option string) :
  startswith m "audio/" = true ->
  assemble w source (Some m) user_input
  = catch
      (bind (materialize w source) (fun file_to_use =>
       bind (call (Upload file_to_use) (fun h => upload w h file_to_use))
            (fun upload_ref =>
               ret (inr [PartText (or_default user_input "Describe this audio clip.");
                         PartRef upload_ref]))))
      (fun e => ret (inl ("Error processing audio: " ++ e))).
Proof.
  intros H. unfold assemble, mime_starts.
  rewrite (audio_not_pdf m H), (audio_not_image m H), H,
    (startswith_truthy m "audio/") by (discriminate || assumption).
  reflexivity.
Qed.

Lemma assemble_text (source m : string) (user_input : option string) :
  startswith m "text/" = true ->
  assemble w source (Some m) user_input
  = catch
      (bind (if startswith source "http" then
               bind (call (HttpGet source) (fun h => http_get w h source))
                    (fun resp => ret (text resp))
             else call (OpenText source) (fun h => open_text w h source))
            (fun text_data =>
               ret (inr [PartText text_data;
                         PartText (or_default user_input "Summarize this content.")])))
      (fun e => ret (inl ("Error processing text content: " ++ e))).
Proof.
  intros H. unfold assemble, mime_starts, is_textual.
  rewrite (text_not_pdf m H), (text_not_image m H), (text_not_audio m H), H,
    (startswith_truthy m "text/") by (discriminate || assumption).
  reflexivity.
Qed.

(** Without temporary files the [finally] block does nothing. *)
Lemma cleanup_nothing (st : St) :
  temps st = [] -> cleanup w st = (Ok tt, st).
Proof.
  intros H. unfold cleanup, bind, get_temps. rewrite H. reflexivity.
Qed.

(** When the dispatch returns a text at once and has left no temporary
    file, the resolver returns that text in the state the dispatch
    reached. *)
Lemma handle_content_early (source m : string) (user_input : option string)
      (st st1 : St) (t : string) :
  truthy m = true ->
  assemble w source (Some m) user_input (enter st) = (Ok (inl t), st1) ->
  temps st1 = [] ->
  handle_content w source (Some m) user_input st = (Ok t, leave st st1).
Proof.
  intros Hm Hasm Htemps.
  unfold handle_content, with_frame, finally, catch, bind.
  rewrite (resolve_mime_given w source m Hm), Hasm. unfold ret.
  rewrite (cleanup_nothing st1 Htemps). reflexivity.
Qed.

End Dispatch.

(** X5.  When the source is a URL and the GET fails with [e], the
    resolver makes no other call (in particular none to the model) and
    returns the error text of the category: "Error fetching PDF: e",
    "Error processing image: e", "Error processing audio: e" or
    "Error processing text content: e". *)
Theorem unreachable_url_text :
  forall (w : World) (source m : string) (user_input : option string)
         (st : St) (e : exn),
    startswith source "http" = true ->
    http_get w (trace st) source = Raise e ->
    let run := Resolver.handle_content w source (Some m) user_input st in
    let st1 := log (HttpGet source) st in
    (m = "application/pdf" -> run = (Ok ("Error fetching PDF: " ++ e), st1))
    /\ (startswith m "image/" = true ->
        run = (Ok ("Error processing image: " ++ e), st1))
    /\ (startswith m "audio/" = true ->
        run = (Ok ("Error processing audio: " ++ e), st1))
    /\ (startswith m "text/" = true ->
        run = (Ok ("Error processing text content: " ++ e), st1)).
Proof.
  intros w source m user_input st e Hhttp Hget run st1. subst run st1.
  repeat split; intros Hm.
  - subst m.
    rewrite (handle_content_early w source "application/pdf" user_input st
               (log (HttpGet source) (enter st)) ("Error fetching PDF: " ++ e));
      try reflexivity.
    rewrite assemble_pdf, Hhttp. unfold catch, bind, call. cbn [trace enter].
    rewrite Hget. reflexivity.
  - rewrite (handle_content_early w source m user_input st
               (log (HttpGet source) (enter st)) ("Error processing image: " ++ e));
      try reflexivity.
    + apply (startswith_truthy m "image/"); [discriminate | exact Hm].
    + rewrite (assemble_image w source m user_input Hm).
      unfold catch, bind, Resolver.materialize. rewrite Hhttp.
      unfold bind, call. cbn [trace enter]. rewrite Hget. reflexivity.
  - rewrite (handle_content_early w source m user_input st
               (log (HttpGet source) (enter st)) ("Error processing audio: " ++ e));
      try reflexivity.
    + apply (startswith_truthy m "audio/"); [discriminate | exact Hm].
    + rewrite (assemble_audio w source m user_input Hm).
      unfold catch, bind, Resolver.materialize. rewrite Hhttp.
      unfold bind, call. cbn [trace enter]. rewrite Hget. reflexivity.
  - rewrite (handle_content_early w source m user_input st
               (log (HttpGet source) (enter st))
               ("Error processing text content: " ++ e));
      try reflexivity.
    + apply (startswith_truthy m "text/"); [discriminate | exact Hm].
    + rewrite (assemble_text w source m user_input Hm).
      unfold catch, bind. rewrite Hhttp.
      unfold bind, call. cbn [trace enter]. rewrite Hget. reflexivity.
Qed.

Lemma unreachable_url_text_witness :
  Resolver.handle_content Examples.w_blocked "http://down.example/cat.png"
                          (Some "image/png") None Examples.st0
  = (Ok "Error processing image: unavailable",
     log (HttpGet "http://down.example/cat.png") Examples.st0).
Proof.
  destruct (unreachable_url_text Examples.w_blocked "http://down.example/cat.png"
              "image/png" None Examples.st0 "unavailable" eq_refl eq_refl)
    as (_ & Himg & _).
  apply Himg. reflexivity.
Defined.

(** X6.  When the source is a local path that cannot be read (PDF,
    text) or uploaded (image, audio), failing with [e], the resolver
    makes that one call only and returns the error text of the category;
    for a PDF it is "Error reading PDF file: e". *)
Theorem unreadable_local_source_text :
  forall (w : World) (source m : string) (user_input : option string)
         (st : St) (e : exn),
    startswith source "http" = false ->
    let run := Resolver.handle_content w source (Some m) user_input st in
    (m = "application/pdf" -> open_rb w (trace st) source = Raise e ->
     run = (Ok ("Error reading PDF file: " ++ e), log (OpenRb source) st))
    /\ (startswith m "image/" = true -> upload w (trace st) source = Raise e ->
        run = (Ok ("Error processing image: " ++ e), log (Upload source) st))
    /\ (startswith m "audio/" = true -> upload w (trace st) source = Raise e ->
        run = (Ok ("Error processing audio: " ++ e), log (Upload source) st))
    /\ (startswith m "text/" = true -> open_text w (trace st) source = Raise e ->
        run = (Ok ("Error processing text content: " ++ e),
               log (OpenText source) st)).
Proof.
  intros w source m user_input st e Hlocal run. subst run.
  repeat split; intros Hm Hfail.
  - subst m.
    rewrite (handle_content_early w source "application/pdf" user_input st
               (log (OpenRb source) (enter st)) ("Error reading PDF file: " ++ e));
      try reflexivity.
    rewrite assemble_pdf, Hlocal. unfold catch, bind, call. cbn [trace enter].
    rewrite Hfail. reflexivity.
  - rewrite (handle_content_early w source m user_input st
               (log (Upload source) (enter st)) ("Error processing image: " ++ e));
      try reflexivity.
    + apply (startswith_truthy m "image/"); [discriminate | exact Hm].
    + rewrite (assemble_image w source m user_input Hm).
      unfold catch, bind, Resolver.materialize. rewrite Hlocal.
      unfold ret, call. cbn [trace enter]. rewrite Hfail. reflexivity.
  - rewrite (handle_content_early w source m user_input st
               (log (Upload source) (enter st)) ("Error processing audio: " ++ e));
      try reflexivity.
    + apply (startswith_truthy m "audio/"); [discriminate | exact Hm].
    + rewrite (assemble_audio w source m user_input Hm).
      unfold catch, bind, Resolver.materialize. rewrite Hlocal.
      unfold ret, call. cbn [trace enter]. rewrite Hfail. reflexivity.
  - rewrite (handle_content_early w source m user_input st
               (log (OpenText source) (enter st))
               ("Error processing text content: " ++ e));
      try reflexivity.
    + apply (startswith_truthy m "text/"); [discriminate | exact Hm].
    + rewrite (assemble_text w source m user_input Hm).
      unfold catch, bind. rewrite Hlocal.
      unfold call. cbn [trace enter]. rewrite Hfail. reflexivity.
Qed.

Lemma unreadable_local_source_text_witness :
  Resolver.handle_content Examples.w_summary "/no/such/file.pdf"
                          (Some "application/pdf") None Examples.st0
  = (Ok "Error reading PDF file: unavailable",
     log (OpenRb "/no/such/file.pdf") Examples.st0).
Proof.
  destruct (unreadable_local_source_text Examples.w_summary "/no/such/file.pdf"
              "application/pdf" None Examples.st0 "unavailable" eq_refl)
    as (Hpdf & _).
  apply Hpdf; reflexivity.
Defined.

(** ** Temporary files *)

Section TempFiles.
Import Resolver Obs.
Variable w : World.

Ltac one_local_call :=
  match goal with
  | H : (_, _) = (_, _) |- _ => inversion H; subst; clear H
  end;
  cbn [temps trace log]; split; [reflexivity|];
  first [ exists []; rewrite app_nil_r; split; [reflexivity | constructor]
        | eexists [_]; split; [reflexivity | repeat constructor; reflexivity] ].

(** On a local source the dispatch makes one call, on the source, and
    leaves the list of temporary files alone. *)
Lemma assemble_local (source : string) (mime user_input : option string)
      (st : St) (r : result (string + list part)) (st1 : St) :
  startswith source "http" = false ->
  assemble w source mime user_input st = (r, st1) ->
  temps st1 = temps st
  /\ exists new, trace st1 = (trace st ++ new)%list
                 /\ Forall (local_call source) new.
Proof.
  intros Hlocal Hrun. unfold assemble, materialize in Hrun.
  rewrite Hlocal in Hrun.
  unfold catch, bind, call, ret in Hrun.
  destruct (is_pdf mime).
  { destruct (open_rb w (trace st) source); one_local_call. }
  destruct (mime_starts mime "image/").
  { destruct (upload w (trace st) source); one_local_call. }
  destruct (mime_starts mime "audio/").
  { destruct (upload w (trace st) source); one_local_call. }
  destruct (is_textual mime).
  { destruct (open_text w (trace st) source); one_local_call. }
  one_local_call.
Qed.

(** With one temporary file the [finally] block asks whether it exists
    and removes it if so; a failing removal is passed over. *)
Lemma cleanup_one (st : St) (name : string) :
  temps st = [name] ->
  exists st3,
    cleanup w st = (Ok tt, st3)
    /\ trace st3
       = (trace st ++ PathExists name ::
            (if path_exists w (trace st) name then [Remove name] else []))%list.
Proof.
  intros H. unfold cleanup, bind, get_temps. rewrite H.
  cbn [for_each]. unfold catch, bind, call, ret.
  destruct (path_exists w (trace st) name).
  - match goal with
    | |- context [remove w ?h name] => destruct (remove w h name) as [[]|e]
    end;
      eexists; (split; [reflexivity|]); cbn [trace log];
      rewrite <- app_assoc; reflexivity.
  - eexists. split; reflexivity.
Qed.

(** The generation step leaves the temporary files alone and only talks
    to the model. *)
Lemma generate_text_frame (cs : list part) (st : St) (r : result string) (st2 : St) :
  generate_text w cs st = (r, st2) ->
  temps st2 = temps st
  /\ exists new, trace st2 = (trace st ++ new)%list
                 /\ Forall model_side_call new
                 /\ Forall (fun ev => exists s, ev = Generate cs s) new.
Proof.
  intros Hrun.
  destruct (generate_text_run w cs st) as (t & [(Hg & _) | (Hg & _)]);
    rewrite Hg in Hrun; inversion Hrun; subst; cbn [temps log];
    (split; [reflexivity|]).
  - exists [Generate cs None]. repeat split; repeat constructor. eauto.
  - exists [Generate cs None; Generate cs (Some safety_settings)].
    rewrite !trace_log, <- app_assoc.
    repeat split; repeat constructor; eauto.
Qed.

End TempFiles.

(** ** The payload of the image and audio branches *)

Section MediaPayload.
Import Resolver Obs.
Variable w : World.

(** Once the dispatch has built a payload, the first call that follows
    sends it to the model, and no later call sends anything else. *)
Lemma payload_is_sent (source : string) (mime user_input : option string)
      (st sa : St) (payload : list part) :
  assemble w source (resolve_mime w source mime) user_input (enter st)
  = (Ok (inr payload), sa) ->
  exists rest,
    trace (snd (handle_content w source mime user_input st))
    = (trace sa ++ Generate payload None :: rest)%list
    /\ forall cs s, In (Generate cs s) rest -> cs = payload.
Proof.
  intros Hasm.
  destruct (handle_content w source mime user_input st) as [r st'] eqn:Hrun.
  destruct (handle_content_run w _ _ _ _ _ _ Hrun)
    as (a & s1 & t & s2 & s3 & Ha & Hgen & Hclean & _ & ->).
  rewrite Hasm in Ha. injection Ha as <- <-.
  destruct (cleanup_spec w (fun _ => False) _ _ _ Hclean)
    as ((nc & Htc & Hac) & _).
  destruct (generate_text_frame w _ _ _ _ Hgen) as (_ & ng & Htg & _ & Hag).
  destruct ng as [|first ng].
  { exfalso.
    destruct (generate_text_run w payload sa) as (t' & [(Hg & _) | (Hg & _)]);
      rewrite Hg in Hgen; injection Hgen as _ <-;
      rewrite ?trace_log in Htg;
      apply (f_equal (@List.length event)) in Htg;
      rewrite ?length_app in Htg; cbn [List.length] in Htg; lia. }
  inversion Hag as [|? ? (s0 & Hfirst) Hag']; subst.
  assert (Hnone : s0 = None).
  { destruct (generate_text_run w payload sa) as (t' & [(Hg & _) | (Hg & _)]);
      rewrite Hg in Hgen; injection Hgen as _ <-;
      rewrite ?trace_log, <- ?app_assoc in Htg;
      apply app_inv_head in Htg; cbn [app] in Htg; congruence. }
  subst s0. exists (ng ++ nc)%list. cbn [snd trace leave]. split.
  - rewrite Htc, Htg, <- app_assoc. reflexivity.
  - intros cs s Hin. apply in_app_or in Hin. destruct Hin as [Hin|Hin].
    + rewrite Forall_forall in Hag'. destruct (Hag' _ Hin) as (s' & Heq).
      congruence.
    + rewrite Forall_forall in Hac. contradiction (Hac _ Hin).
Qed.

Lemma materialize_local (source : string) (st : St) :
  startswith source "http" = false -> materialize w source st = (Ok source, st).
Proof. intros H. unfold materialize. rewrite H. reflexivity. Qed.

End MediaPayload.

(** C3.  Once the source is at hand as a file (the source itself when it
    is local, the temporary file it was fetched into when it is remote)
    and the upload of that file has answered with [ref], the dispatch on
    a MIME hint that starts with "image/" builds the payload
    [[ref, prompt]], and on a hint that starts with "audio/" the payload
    [[prompt, ref]], with that very [ref].  The payload is what the next
    call sends to the model, and no later call of the run sends anything
    else.  The prompt is the user's when one is supplied and not empty,
    and the default of the category otherwise; the order does not depend
    on which. *)
Theorem image_audio_payload_order :
  forall (w : World) (source m : string) (user_input : option string)
         (st st1 : St) (file ref : string),
    Resolver.materialize w source (enter st) = (Ok file, st1) ->
    upload w (trace st1) file = Ok ref ->
    (startswith m "image/" = true ->
     let payload := [PartRef ref;
                     PartText (or_default user_input "Caption this image.")] in
     Resolver.assemble w source (Some m) user_input (enter st)
     = (Ok (inr payload), log (Upload file) st1)
     /\ exists rest,
          trace (snd (Resolver.handle_content w source (Some m) user_input st))
          = (trace st1 ++ Upload file :: Generate payload None :: rest)%list
          /\ forall cs s, In (Generate cs s) rest -> cs = payload)
    /\ (startswith m "audio/" = true ->
        let payload := [PartText (or_default user_input "Describe this audio clip.");
                        PartRef ref] in
        Resolver.assemble w source (Some m) user_input (enter st)
        = (Ok (inr payload), log (Upload file) st1)
        /\ exists rest,
             trace (snd (Resolver.handle_content w source (Some m) user_input st))
             = (trace st1 ++ Upload file :: Generate payload None :: rest)%list
             /\ forall cs s, In (Generate cs s) rest -> cs = payload)
    /\ (startswith source "http" = false -> file = source /\ st1 = enter st)
    /\ (forall p d, p <> "" -> or_default (Some p) d = p)
    /\ (forall d, or_default (Some "") d = d)
    /\ (forall d, or_default None d = d).
Proof.
  intros w source m user_input st st1 file ref Hmat Hup.
  split; [|split; [|split; [|split; [|split]]]].
  - intros Himg payload.
    assert (Hasm : Resolver.assemble w source (Some m) user_input (enter st)
                   = (Ok (inr payload), log (Upload file) st1)).
    { rewrite (assemble_image w source m user_input Himg).
      unfold catch, bind. rewrite Hmat. unfold call. rewrite Hup. reflexivity. }
    split; [exact Hasm|].
    destruct (payload_is_sent w source (Some m) user_input st
                (log (Upload file) st1) payload) as (rest & Htrace & Hrest).
    { rewrite resolve_mime_given
        by (apply (startswith_truthy m "image/"); [discriminate | exact Himg]).
      exact Hasm. }
    exists rest. split; [|exact Hrest].
    rewrite Htrace, trace_log, <- app_assoc. reflexivity.
  - intros Haud payload.
    assert (Hasm : Resolver.assemble w source (Some m) user_input (enter st)
                   = (Ok (inr payload), log (Upload file) st1)).
    { rewrite (assemble_audio w source m user_input Haud).
      unfold catch, bind. rewrite Hmat. unfold call. rewrite Hup. reflexivity. }
    split; [exact Hasm|].
    destruct (payload_is_sent w source (Some m) user_input st
                (log (Upload file) st1) payload) as (rest & Htrace & Hrest).
    { rewrite resolve_mime_given
        by (apply (startswith_truthy m "audio/"); [discriminate | exact Haud]).
      exact Hasm. }
    exists rest. split; [|exact Hrest].
    rewrite Htrace, trace_log, <- app_assoc. reflexivity.
  - intros Hlocal. rewrite (materialize_local w source _ Hlocal) in Hmat.
    split; congruence.
  - intros p d Hp. destruct p; [contradiction Hp; reflexivity | reflexivity].
  - reflexivity.
  - reflexivity.
Qed.

Lemma image_audio_payload_order_witness :
  (exists rest,
     trace (snd (Resolver.handle_content Examples.w_media "cat.png"
                   (Some "image/png") None Examples.st0))
     = (trace (enter Examples.st0)
        ++ Upload "cat.png"
        :: Generate [PartRef "files/cat.png"; PartText "Caption this image."] None
        :: rest)%list)
  /\ (exists rest,
        trace (snd (Resolver.handle_content Examples.w_media "http://x/cat.png"
                      (Some "image/png") (Some "what breed?") Examples.st0))
        = (trace Examples.fetched_png
           ++ Upload "/tmp/tmp.png"
           :: Generate [PartRef "files//tmp/tmp.png"; PartText "what breed?"] None
           :: rest)%list)
  /\ (exists rest,
        trace (snd (Resolver.handle_content Examples.w_media "clip.mp3"
                      (Some "audio/mpeg") (Some "who speaks?") Examples.st0))
        = (trace (enter Examples.st0)
           ++ Upload "clip.mp3"
           :: Generate [PartText "who speaks?"; PartRef "files/clip.mp3"] None
           :: rest)%list)
  /\ (exists rest,
        trace (snd (Resolver.handle_content Examples.w_media "http://x/clip.mp3"
                      (Some "audio/mpeg") None Examples.st0))
        = (trace Examples.fetched_mp3
           ++ Upload "/tmp/tmp.mp3"
           :: Generate [PartText "Describe this audio clip."; PartRef "files//tmp/tmp.mp3"]
                       None
           :: rest)%list).
Proof.
  split; [|split; [|split]].
  - destruct (image_audio_payload_order Examples.w_media "cat.png" "image/png" None
                Examples.st0 (enter Examples.st0) "cat.png" "files/cat.png"
                eq_refl eq_refl) as (Himg & _).
    destruct (Himg eq_refl) as (_ & rest & Htrace & _).
    exists rest. exact Htrace.
  - assert (Hmat : Resolver.materialize Examples.w_media "http://x/cat.png"
                     (enter Examples.st0)
                   = (Ok "/tmp/tmp.png", Examples.fetched_png))
      by (vm_compute; reflexivity).
    destruct (image_audio_payload_order Examples.w_media "http://x/cat.png" "image/png"
                (Some "what breed?") Examples.st0 Examples.fetched_png
                "/tmp/tmp.png" "files//tmp/tmp.png" Hmat eq_refl) as (Himg & _).
    destruct (Himg eq_refl) as (_ & rest & Htrace & _).
    exists rest. exact Htrace.
  - destruct (image_audio_payload_order Examples.w_media "clip.mp3" "audio/mpeg"
                (Some "who speaks?") Examples.st0 (enter Examples.st0)
                "clip.mp3" "files/clip.mp3" eq_refl eq_refl) as (_ & Haud & _).
    destruct (Haud eq_refl) as (_ & rest & Htrace & _).
    exists rest. exact Htrace.
  - assert (Hmat : Resolver.materialize Examples.w_media "http://x/clip.mp3"
                     (enter Examples.st0)
                   = (Ok "/tmp/tmp.mp3", Examples.fetched_mp3))
      by (vm_compute; reflexivity).
    destruct (image_audio_payload_order Examples.w_media "http://x/clip.mp3" "audio/mpeg"
                None Examples.st0 Examples.fetched_mp3
                "/tmp/tmp.mp3" "files//tmp/tmp.mp3" Hmat eq_refl) as (_ & Haud & _).
    destruct (Haud eq_refl) as (_ & rest & Htrace & _).
    exists rest. exact Htrace.
Defined.

(** X7.  A resolution of a local source creates and removes no file and
    makes no network request: besides the model calls, all it does is
    read or upload the source itself. *)
Theorem local_source_calls :
  forall (w : World) (source : string) (mime user_input : option string)
         (st st' : St) (r : result string),
    startswith source "http" = false ->
    Resolver.handle_content w source mime user_input st = (r, st') ->
    exists new, trace st' = (trace st ++ new)%list
                /\ Forall (Obs.local_call source) new.
Proof.
  intros w source mime user_input st st' r Hlocal Hrun.
  destruct (handle_content_run w _ _ _ _ _ _ Hrun)
    as (a & st1 & t & st2 & st3 & Hasm & Hgen & Hclean & _ & Hst').
  destruct (assemble_local w _ _ _ _ _ _ Hlocal Hasm) as (Ht1 & na & Hta & Hla).
  cbn [temps trace enter] in Ht1, Hta.
  assert (Hstep : temps st2 = []
                  /\ exists ng, trace st2 = (trace st1 ++ ng)%list
                                /\ Forall (Obs.local_call source) ng).
  { destruct a as [t0|cs].
    - destruct Hgen as (_ & ->). split; [exact Ht1|].
      exists []. rewrite app_nil_r. auto.
    - destruct (generate_text_frame w _ _ _ _ Hgen) as (Ht2 & ng & Htg & _ & Hg).
      split; [congruence|]. exists ng. split; [exact Htg|].
      eapply Forall_impl; [|exact Hg]. intros ev (s & ->). exact I. }
  destruct Hstep as (Ht2 & ng & Htg & Hlg).
  rewrite (cleanup_nothing w st2 Ht2) in Hclean. inversion Hclean; subst st3.
  subst st'. cbn [trace leave].
  exists (na ++ ng)%list. split.
  - rewrite Htg, Hta, app_assoc. reflexivity.
  - apply Forall_app; auto.
Qed.

Lemma local_source_calls_witness :
  exists new,
    trace (snd (Resolver.handle_content Examples.w_blocked "cat.png"
                  (Some "image/png") None Examples.st0))
    = (trace Examples.st0 ++ new)%list
    /\ Forall (Obs.local_call "cat.png") new.
Proof.
  apply (local_source_calls Examples.w_blocked "cat.png" (Some "image/png") None
           Examples.st0 _ (fst (Resolver.handle_content Examples.w_blocked "cat.png"
                                  (Some "image/png") None Examples.st0)));
    reflexivity.
Defined.

(** X8.  When a remote image or audio source has been fetched into a
    temporary file, the run ends by asking whether that file exists and
    removing it if it does, whatever the upload and the model did in
    between; nothing but upload and model calls lies in between. *)
Theorem remote_media_cleanup :
  forall (w : World) (source m : string) (user_input : option string)
         (st st' : St) (r : result string) (resp : http_response) (name : string),
    startswith m "image/" = true \/ startswith m "audio/" = true ->
    startswith source "http" = true ->
    let sfx := path_suffix w source in
    let h1 := (trace st ++ [HttpGet source])%list in
    let h2 := (h1 ++ [NamedTemp sfx])%list in
    let h3 := (h2 ++ [TmpWrite name (content resp)])%list in
    http_get w (trace st) source = Ok resp ->
    named_temp w h1 sfx = Ok name ->
    tmp_write w h2 name (content resp) = Ok tt ->
    Resolver.handle_content w source (Some m) user_input st = (r, st') ->
    exists mid,
      Forall Obs.model_side_call mid
      /\ trace st'
         = ((h3 ++ mid) ++ PathExists name ::
              (if path_exists w (h3 ++ mid) name then [Remove name] else []))%list.
Proof.
  intros w source m user_input st st' r resp name Hm Hhttp sfx h1 h2 h3
         Hget Hname Hwrite Hrun.
  destruct (handle_content_run w _ _ _ _ _ _ Hrun)
    as (a & st1 & t & st2 & st3 & Hasm & Hgen & Hclean & _ & Hst').
  assert (Htruthy : truthy m = true).
  { destruct Hm as [Hm|Hm];
      [apply (startswith_truthy m "image/") | apply (startswith_truthy m "audio/")];
      (discriminate || exact Hm). }
  rewrite (resolve_mime_given w source m Htruthy) in Hasm.
  assert (Hst1 : temps st1 = [name]
                 /\ trace st1 = (h3 ++ [Upload name])%list).
  { destruct Hm as [Hm|Hm];
      [rewrite (assemble_image w source m user_input Hm) in Hasm
      |rewrite (assemble_audio w source m user_input Hm) in Hasm];
      unfold catch, bind, Resolver.materialize in Hasm;
      rewrite Hhttp in Hasm;
      unfold bind, call, push_temp, ret in Hasm;
      cbn [trace temps enter log] in Hasm;
      fold h1 in Hasm; rewrite Hget in Hasm;
      fold sfx in Hasm; rewrite Hname in Hasm;
      fold h2 in Hasm; rewrite Hwrite in Hasm;
      fold h3 in Hasm; cbn [trace temps] in Hasm;
      destruct (upload w h3 name) as [ref|e];
      inversion Hasm; subst; split; reflexivity. }
  destruct Hst1 as (Ht1 & Htr1).
  assert (Hstep : temps st2 = [name]
                  /\ exists ng, trace st2 = (trace st1 ++ ng)%list
                                /\ Forall Obs.model_side_call ng).
  { destruct a as [t0|cs].
    - destruct Hgen as (_ & ->). split; [exact Ht1|].
      exists []. rewrite app_nil_r. auto.
    - destruct (generate_text_frame w _ _ _ _ Hgen) as (Ht2 & ng & Htg & Hg & _).
      split; [congruence|]. exists ng. auto. }
  destruct Hstep as (Ht2 & ng & Htg & Hg).
  destruct (cleanup_one w st2 name Ht2) as (st3' & Hclean' & Htr3).
  rewrite Hclean' in Hclean. inversion Hclean; subst st3'.
  subst st'. cbn [trace leave].
  exists ([Upload name] ++ ng)%list. split.
  - apply Forall_app. split; [repeat constructor | exact Hg].
  - rewrite Htr3, Htg, Htr1, <- !app_assoc. reflexivity.
Qed.

Lemma remote_media_cleanup_witness :
  exists mid,
    Forall Obs.model_side_call mid
    /\ trace (snd (Resolver.handle_content Examples.w_summary "http://x/clip.mp3"
                     (Some "audio/mpeg") (Some "hi") Examples.st0))
       = (([HttpGet "http://x/clip.mp3"; NamedTemp "";
            TmpWrite "/tmp/tmp" "http://x/clip.mp3"] ++ mid)
          ++ [PathExists "/tmp/tmp"; Remove "/tmp/tmp"])%list.
Proof.
  apply (remote_media_cleanup Examples.w_summary "http://x/clip.mp3" "audio/mpeg"
           (Some "hi") Examples.st0 _
           (fst (Resolver.handle_content Examples.w_summary "http://x/clip.mp3"
                   (Some "audio/mpeg") (Some "hi") Examples.st0))
           {| content := "http://x/clip.mp3"; text := "http://x/clip.mp3" |}
           "/tmp/tmp");
    solve [right; reflexivity | reflexivity].
Defined.

(** X9.  A temporary file is remembered for removal only once it has
    been written: when the download of a remote image or audio source
    has succeeded but writing the temporary file fails with [e], the
    resolver returns the error text of the category and makes no call to
    remove the file. *)
Theorem unwritten_temp_file_not_removed :
  forall (w : World) (source m : string) (user_input : option string)
         (st : St) (resp : http_response) (name : string) (e : exn),
    startswith source "http" = true ->
    let sfx := path_suffix w source in
    let h1 := (trace st ++ [HttpGet source])%list in
    let h2 := (h1 ++ [NamedTemp sfx])%list in
    http_get w (trace st) source = Ok resp ->
    named_temp w h1 sfx = Ok name ->
    tmp_write w h2 name (content resp) = Raise e ->
    let run := Resolver.handle_content w source (Some m) user_input st in
    (startswith m "image/" = true ->
     fst run = Ok ("Error processing image: " ++ e)
     /\ trace (snd run) = (h2 ++ [TmpWrite name (content resp)])%list)
    /\ (startswith m "audio/" = true ->
        fst run = Ok ("Error processing audio: " ++ e)
        /\ trace (snd run) = (h2 ++ [TmpWrite name (content resp)])%list).
Proof.
  intros w source m user_input st resp name e Hhttp sfx h1 h2
         Hget Hname Hwrite run. subst run.
  split; intros Hm.
  - rewrite (handle_content_early w source m user_input st
               (log (TmpWrite name (content resp))
                  (log (NamedTemp sfx) (log (HttpGet source) (enter st))))
               ("Error processing image: " ++ e)).
    + split; reflexivity.
    + apply (startswith_truthy m "image/"); [discriminate | exact Hm].
    + rewrite (assemble_image w source m user_input Hm).
      unfold catch, bind, Resolver.materialize. rewrite Hhttp.
      unfold bind, call. cbn [trace enter log].
      fold h1. rewrite Hget. fold sfx. rewrite Hname. fold h2. rewrite Hwrite.
      reflexivity.
    + reflexivity.
  - rewrite (handle_content_early w source m user_input st
               (log (TmpWrite name (content resp))
                  (log (NamedTemp sfx) (log (HttpGet source) (enter st))))
               ("Error processing audio: " ++ e)).
    + split; reflexivity.
    + apply (startswith_truthy m "audio/"); [discriminate | exact Hm].
    + rewrite (assemble_audio w source m user_input Hm).
      unfold catch, bind, Resolver.materialize. rewrite Hhttp.
      unfold bind, call. cbn [trace enter log].
      fold h1. rewrite Hget. fold sfx. rewrite Hname. fold h2. rewrite Hwrite.
      reflexivity.
    + reflexivity.
Qed.

Lemma unwritten_temp_file_not_removed_witness :
  fst (Resolver.handle_content (Examples.with_full_disk Examples.w_summary)
         "http://x/cat.png" (Some "image/png") None Examples.st0)
  = Ok "Error processing image: No space left on device"
  /\ trace (snd (Resolver.handle_content (Examples.with_full_disk Examples.w_summary)
                   "http://x/cat.png" (Some "image/png") None Examples.st0))
     = [HttpGet "http://x/cat.png"; NamedTemp ""; TmpWrite "/tmp/tmp" "http://x/cat.png"].
Proof.
  destruct (unwritten_temp_file_not_removed (Examples.with_full_disk Examples.w_summary)
              "http://x/cat.png" "image/png" None Examples.st0
              {| content := "http://x/cat.png"; text := "http://x/cat.png" |}
              "/tmp/tmp" "No space left on device"
              eq_refl eq_refl eq_refl eq_refl) as (Himg & _).
  apply Himg. reflexivity.
Defined.

(** ** Runs of the endpoint *)

Section KeepsTemps.
Import Obs.
Context {A B : Type}.

Lemma kt_ret (a : A) : keeps_temps (ret a).
Proof. intros st r st' H. inversion H; subst. reflexivity. Qed.

Lemma kt_raise (e : exn) : keeps_temps (@raise A e).
Proof. intros st r st' H. inversion H; subst. reflexivity. Qed.

Lemma kt_call (ev : event) (f : history -> result A) : keeps_temps (call ev f).
Proof. intros st r st' H. inversion H; subst. reflexivity. Qed.

Lemma kt_bind (m : M A) (k : A -> M B) :
  keeps_temps m -> (forall a, keeps_temps (k a)) -> keeps_temps (bind m k).
Proof.
  intros Hm Hk st r st' H. unfold bind in H.
  destruct (m st) as [[a|e] st1] eqn:Hm1.
  - rewrite (Hk a _ _ _ H). exact (Hm _ _ _ Hm1).
  - inversion H; subst. exact (Hm _ _ _ Hm1).
Qed.

Lemma kt_catch (m : M A) (h : exn -> M A) :
  keeps_temps m -> (forall e, keeps_temps (h e)) -> keeps_temps (catch m h).
Proof.
  intros Hm Hh st r st' H. unfold catch in H.
  destruct (m st) as [[a|e] st1] eqn:Hm1.
  - inversion H; subst. exact (Hm _ _ _ Hm1).
  - rewrite (Hh e _ _ _ H). exact (Hm _ _ _ Hm1).
Qed.

Lemma kt_with_frame (m : M A) : keeps_temps (with_frame m).
Proof.
  intros st r st' H. unfold with_frame in H.
  destruct (m (enter st)) as [r1 st1]. inversion H; subst. reflexivity.
Qed.

End KeepsTemps.

Section EndpointRuns.
Import Resolver Chatbot Obs.
Variable w : World.

Let anything {A} : result A -> Prop := fun _ => True.

Lemma or_default_truthy (x : option string) (d : string) :
  truthy d = true -> truthy (or_default x d) = true.
Proof.
  intros Hd. unfold or_default. destruct x as [s|]; [|exact Hd].
  destruct (truthy s) eqn:Hs; [exact Hs | exact Hd].
Qed.

Lemma or_default_given (p d : string) :
  truthy p = true -> or_default (Some p) d = p.
Proof. intros Hp. unfold or_default. rewrite Hp. reflexivity. Qed.

(** A payload assembled for a non-empty prompt holds that prompt. *)
Lemma payload_has_prompt (mime : option string) (p : string) (cs : list part) :
  truthy p = true -> payload_of mime (Some p) cs -> In (PartText p) cs.
Proof.
  intros Hp Hpay. unfold payload_of in Hpay.
  rewrite !(or_default_given p _ Hp) in Hpay.
  destruct (is_pdf mime); [destruct Hpay as (x & ->); simpl; auto|].
  destruct (mime_starts mime "image/"); [destruct Hpay as (x & ->); simpl; auto|].
  destruct (mime_starts mime "audio/"); [destruct Hpay as (x & ->); simpl; auto|].
  destruct (is_textual mime); [destruct Hpay as (x & ->); simpl; auto|].
  contradiction.
Qed.

Lemma handle_content_prompted (source : string) (mime : option string) (p : string) :
  truthy p = true ->
  spec (handle_content w source mime (Some p)) (prompted_call p)
       (returns (fun _ => True)).
Proof.
  intros Hp. eapply spec_weaken; [apply handle_content_spec| |].
  - intros ev Hev. destruct ev; simpl in Hev |- *; auto.
    exact (payload_has_prompt _ _ _ Hp Hev).
  - intros [t|e]; simpl; auto.
Qed.

Lemma file_step_prompted (user_input : option string) (file : option upload_file) :
  spec (file_step w user_input file)
       (prompted_call (or_default user_input "Analyze this file.")) anything.
Proof.
  unfold file_step. destruct file as [f|]; [|apply spec_ret; exact I].
  eapply spec_bind with (R1 := anything); [| |intros; exact I].
  { destruct (filename f); [apply spec_ret|apply spec_raise]; exact I. }
  intros fname _.
  eapply spec_bind with (R1 := anything);
    [apply spec_call; [exact I|intros; exact I]| |intros; exact I].
  intros name _.
  eapply spec_bind with (R1 := anything);
    [apply spec_call; [exact I|intros; exact I]| |intros; exact I].
  intros content _.
  eapply spec_bind with (R1 := anything);
    [apply spec_call; [exact I|intros; exact I]| |intros; exact I].
  intros _ _.
  eapply spec_bind; [apply spec_push_temp| |intros e []].
  intros _ _.
  eapply spec_bind with (R1 := anything);
    [|intros; apply spec_ret; exact I|intros; exact I].
  eapply spec_catch with (R1 := anything);
    [|intros; exact I|intros; apply spec_ret; exact I].
  eapply spec_bind;
    [apply handle_content_prompted; apply or_default_truthy; reflexivity
    | |intros e []].
  intros response _. destruct (truthy response); apply spec_ret; exact I.
Qed.

Lemma url_step_prompted (t url : string) :
  truthy t = true ->
  spec (url_step w t url) (prompted_call t) (returns (fun _ => True)).
Proof.
  intros Ht. unfold url_step.
  eapply spec_catch with (R1 := anything);
    [|intros; exact I|intros; apply spec_ret; exact I].
  eapply spec_bind with (R1 := anything);
    [apply spec_call; [exact I|intros; exact I]| |intros; exact I].
  intros head _.
  eapply spec_bind; [apply handle_content_prompted; exact Ht| |intros e []].
  intros r _. destruct (truthy r); apply spec_ret; exact I.
Qed.

Lemma url_loop_prompted (t : string) (urls : list string) :
  truthy t = true ->
  spec (url_loop w t urls) (prompted_call t) (returns (fun _ => True)).
Proof.
  intros Ht. induction urls as [|url rest IH]; simpl.
  - apply spec_ret. exact I.
  - eapply spec_bind; [apply url_step_prompted; exact Ht| |intros e []].
    intros x _.
    eapply spec_bind; [apply IH| |intros e []].
    intros ts _. apply spec_ret. exact I.
Qed.

Lemma urls_step_prompted (user_input : option string) :
  spec (urls_step w user_input)
       (prompted_call (or_default user_input "Analyze this file."))
       (returns (fun _ => True)).
Proof.
  unfold urls_step. destruct user_input as [t|]; [|apply spec_ret; exact I].
  destruct (truthy t) eqn:Ht; [|apply spec_ret; exact I].
  rewrite (or_default_given t _ Ht). apply url_loop_prompted. exact Ht.
Qed.

(** The tail of the handler keeps the temporary files and makes only
    clock and database calls.  When it ends with an exception, either
    nothing was committed, or the commit went through and the record
    could not be read back. *)
Lemma persist_frame (uid : nat) (user_input : option string)
      (file : option upload_file) (texts : list string) (st : St)
      (r : result endpoint) (st' : St) :
  persist_and_reply w uid user_input file texts st = (r, st') ->
  let record := {| user_id := uid;
                   user_input := record_input user_input file;
                   response := final_response texts;
                   timestamp := now w (trace st) |} in
  temps st' = temps st
  /\ (exists new, trace st' = (trace st ++ new)%list /\ Forall closing_call new)
  /\ ((forall ep, r <> Ok ep) ->
      store st' = store st
      \/ exists e,
           r = Raise e
           /\ db_commit w (trace st ++ [Now; DbAdd record])%list = Ok tt
           /\ db_refresh w (trace st ++ [Now; DbAdd record; DbCommit])%list = Raise e
           /\ store st' = (store st ++ session st ++ [record])%list).
Proof.
  intros Hrun record.
  unfold persist_and_reply, db_add_record, db_commit_session, db_refresh_record,
    bind, call, ret in Hrun.
  simpl in Hrun. fold record in Hrun.
  destruct (db_add w (trace st ++ [Now])%list record) as [[]|e1].
  - cbn [trace temps session store log] in Hrun.
    rewrite <- ?app_assoc in Hrun. cbn [app] in Hrun.
    destruct (db_commit w (trace st ++ [Now; DbAdd record])%list) as [[]|e2] eqn:Hc.
    + cbn [trace temps session store log] in Hrun.
      rewrite <- ?app_assoc in Hrun. cbn [app] in Hrun.
      destruct (db_refresh w (trace st ++ [Now; DbAdd record; DbCommit])%list)
        as [[]|e3] eqn:Hr;
        inversion Hrun; subst; cbn [trace temps store log].
      * split; [reflexivity|]. split.
        -- exists [Now; DbAdd record; DbCommit; DbRefresh]. rewrite <- !app_assoc.
           split; [reflexivity | repeat constructor].
        -- intros Hno. contradiction (Hno _ eq_refl).
      * split; [reflexivity|]. split.
        -- exists [Now; DbAdd record; DbCommit; DbRefresh]. rewrite <- !app_assoc.
           split; [reflexivity | repeat constructor].
        -- intros _. right. exists e3. auto.
    + inversion Hrun; subst; cbn [trace temps store log].
      split; [reflexivity|]. split; [|intros _; left; reflexivity].
      exists [Now; DbAdd record; DbCommit]. rewrite <- !app_assoc.
      split; [reflexivity | repeat constructor].
  - inversion Hrun; subst; cbn [trace temps store log].
    split; [reflexivity|]. split; [|intros _; left; reflexivity].
    exists [Now; DbAdd record]. rewrite <- !app_assoc.
    split; [reflexivity | repeat constructor].
Qed.

Lemma fallback_step_closing (user_input : option string) (texts out : list string)
      (st st' : St) :
  fallback_step w user_input texts st = (Ok out, st') ->
  temps st' = temps st
  /\ store st' = store st
  /\ exists new, trace st' = (trace st ++ new)%list /\ Forall closing_call new.
Proof.
  intros Hrun.
  destruct (fallback_step_cases w user_input texts st)
    as [(t & _ & _ & _ & Hfb) | (_ & Hfb)];
    rewrite Hfb in Hrun;
    match type of Hrun with
    | (_, ?b) = _ => assert (Hst : st' = b) by congruence
    end; subst st'; cbn [temps store log]; repeat split.
  - eexists [_]. split; [reflexivity | repeat constructor].
  - exists []. rewrite app_nil_r. auto.
Qed.

Lemma fallback_step_session (user_input : option string) (texts out : list string)
      (st st' : St) :
  fallback_step w user_input texts st = (Ok out, st') -> session st' = session st.
Proof.
  intros Hrun.
  destruct (fallback_step_cases w user_input texts st)
    as [(t & _ & _ & _ & Hfb) | (_ & Hfb)];
    rewrite Hfb in Hrun;
    match type of Hrun with
    | (_, ?b) = _ => assert (Hst : st' = b) by congruence
    end; subst st'; reflexivity.
Qed.

(** A run of the body: first calls of the gathering steps, each model
    call with the prompt of the request, then calls of the fallback and
    of the persisting.  When the body ends with an exception, the store
    is as before, or the record of the request was committed and could
    not be read back. *)
Lemma chatbot_body_events (uid : nat) (user_input : option string)
      (file : option upload_file) (st : St) (r : result endpoint) (st' : St) :
  chatbot_body w uid user_input file st = (r, st') ->
  exists ng nc,
    trace st' = (trace st ++ ng ++ nc)%list
    /\ Forall (prompted_call (or_default user_input "Analyze this file.")) ng
    /\ Forall closing_call nc
    /\ ((forall ep, r <> Ok ep) ->
        store st' = store st
        \/ exists e h record,
             r = Raise e
             /\ db_commit w h = Ok tt
             /\ db_refresh w (h ++ [DbCommit])%list = Raise e
             /\ user_id record = uid
             /\ Eff.user_input record = record_input user_input file
             /\ store st' = (store st ++ session st ++ [record])%list).
Proof.
  intros Hrun.
  destruct (chatbot_body_run w _ _ _ _ _ _ Hrun)
    as [(e & Hf & Hr) | (ff & st1 & fu & st2 & texts & st3 & Hf & Hu & Hfb & Hp)].
  - destruct (file_step_prompted user_input file _ _ _ Hf)
      as ((n1 & Ht1 & Ha1) & _ & Hd1 & _).
    exists n1, []. rewrite app_nil_r. auto.
  - destruct (file_step_prompted user_input file _ _ _ Hf)
      as ((n1 & Ht1 & Ha1) & Hs1 & Hd1 & _).
    destruct (urls_step_prompted user_input _ _ _ Hu)
      as ((n2 & Ht2 & Ha2) & Hs2 & Hd2 & _).
    destruct (fallback_step_closing _ _ _ _ _ Hfb) as (_ & Hd3 & n3 & Ht3 & Ha3).
    pose proof (fallback_step_session _ _ _ _ _ Hfb) as Hs3.
    destruct (persist_frame _ _ _ _ _ _ _ Hp) as (_ & (n4 & Ht4 & Ha4) & Hd4).
    exists (n1 ++ n2)%list, (n3 ++ n4)%list.
    split; [rewrite Ht4, Ht3, Ht2, Ht1, <- !app_assoc; reflexivity|].
    split; [apply Forall_app; auto|]. split; [apply Forall_app; auto|].
    intros Hno. destruct (Hd4 Hno) as [Hsame | (e & Hr & Hc & Hrf & Hst)].
    + left. congruence.
    + right.
      exists e, (trace st3 ++ [Now; DbAdd {| user_id := uid;
                                              user_input := record_input user_input file;
                                              response := final_response texts;
                                              timestamp := now w (trace st3) |}])%list,
             {| user_id := uid;
                user_input := record_input user_input file;
                response := final_response texts;
                timestamp := now w (trace st3) |}.
      split; [exact Hr|]. split; [exact Hc|].
      split; [rewrite <- app_assoc; exact Hrf|].
      split; [reflexivity|]. split; [reflexivity|].
      rewrite Hst. congruence.
Qed.

(** A run of the endpoint on a request with text or file: the history
    is read; if that fails the exception leaves the handler; otherwise
    the body runs, an exception of the body becomes a 500 response, and
    the removals are scheduled. *)
Lemma chatbot_post_run (uid : nat) (user_input : option string)
      (file : option upload_file) (st : St) (r : result endpoint) (st' : St) :
  given user_input = true \/ file <> None ->
  chatbot_post w uid user_input file st = (r, st') ->
  (exists e, db_history w (trace st) uid MAX_HISTORY = Raise e
             /\ r = Raise e /\ st' = log (DbHistory uid MAX_HISTORY) st)
  \/ (exists rb stb stc,
         chatbot_body w uid user_input file
                      (log (DbHistory uid MAX_HISTORY) (enter st)) = (rb, stb)
         /\ schedule_cleanup stb = (Ok tt, stc)
         /\ st' = leave st stc
         /\ r = Ok match rb with
                   | Ok ep => ep
                   | Raise e => HttpError 500 ("An error occurred: " ++ e)
                   end).
Proof.
  intros Hinput Hrun. unfold chatbot_post, with_frame in Hrun.
  assert (Hguard : negb (given user_input)
                   && negb match file with Some _ => true | None => false end = false).
  { destruct Hinput as [Hg|Hf]; [rewrite Hg; reflexivity|].
    destruct file; [apply andb_false_r | contradiction Hf; reflexivity]. }
  rewrite Hguard in Hrun. unfold bind, call in Hrun. cbn [trace enter] in Hrun.
  destruct (db_history w (trace st) uid MAX_HISTORY) as [past|e].
  - right. unfold finally, catch in Hrun.
    destruct (chatbot_body w uid user_input file
                (log (DbHistory uid MAX_HISTORY) (enter st))) as [rb stb] eqn:Hb.
    assert (Hclean : exists stc, schedule_cleanup stb = (Ok tt, stc)).
    { destruct (schedule_cleanup stb) as [rc stc] eqn:Hc.
      destruct (schedule_cleanup_spec _ _ _ Hc) as (_ & _ & _ & Hrc).
      destruct rc as [[]|e]; [|contradiction]. exists stc. reflexivity. }
    destruct Hclean as (stc & Hclean).
    exists rb, stb, stc. split; [reflexivity|]. split; [exact Hclean|].
    destruct rb as [ep|e]; unfold ret in Hrun; rewrite Hclean in Hrun;
      inversion Hrun; subst; auto.
  - left. exists e. inversion Hrun; subst. auto.
Qed.

End EndpointRuns.

Section EndpointFacts.
Import Resolver Chatbot Obs.
Variable w : World.

Lemma body_response_is_success (uid : nat) (user_input : option string)
      (file : option upload_file) (st st' : St) (ep : endpoint) :
  chatbot_body w uid user_input file st = (Ok ep, st') ->
  exists texts st3,
    ep = Success (record_input user_input file) (final_response texts)
                 (now w (trace st3)).
Proof.
  intros Hrun.
  destruct (chatbot_body_run w _ _ _ _ _ _ Hrun)
    as [(e & _ & Hr) | (ff & st1 & fu & st2 & texts & st3 & _ & _ & _ & Hp)];
    [discriminate Hr|].
  destruct (persist_and_reply_run w _ _ _ _ _ _ _ Hp) as (_ & Hok).
  destruct (Hok _ eq_refl) as (Hep & _). exists texts, st3. exact Hep.
Qed.

Lemma final_response_truthy (texts : list string) :
  truthy (final_response texts) = true.
Proof.
  unfold final_response.
  destruct (truthy (join (nl ++ nl) texts)) eqn:H; [exact H | reflexivity].
Qed.

Lemma prompted_no_task (p : string) (new : history) :
  Forall (prompted_call p) new -> add_tasks new = [].
Proof.
  induction 1 as [|ev new Hev _ IH]; [reflexivity|].
  destruct ev; simpl in Hev |- *; try contradiction; exact IH.
Qed.

Lemma closing_no_task (new : history) :
  Forall closing_call new -> add_tasks new = [] /\ generates new = [].
Proof.
  induction 1 as [|ev new Hev _ [IH1 IH2]]; [split; reflexivity|].
  destruct ev; simpl in Hev |- *; try contradiction; auto.
Qed.

Lemma add_tasks_app (a b : history) :
  add_tasks (a ++ b)%list = (add_tasks a ++ add_tasks b)%list.
Proof.
  induction a as [|ev a IH]; [reflexivity|].
  destruct ev; simpl; rewrite ?IH; reflexivity.
Qed.

Lemma heads_app (a b : history) :
  heads (a ++ b)%list = (heads a ++ heads b)%list.
Proof.
  induction a as [|ev a IH]; [reflexivity|].
  destruct ev; simpl; rewrite ?IH; reflexivity.
Qed.

Lemma resolver_no_head (P : list part -> Prop) (new : history) :
  Forall (resolver_call P) new -> heads new = [].
Proof.
  induction 1 as [|ev new Hev _ IH]; [reflexivity|].
  destruct ev; simpl in Hev |- *; try contradiction; exact IH.
Qed.

(** One turn of the loop: the probe, then calls of the resolver, and a
    text in every case. *)
Lemma url_step_heads (user_input url : string) (st : St)
      (r : result string) (st' : St) :
  url_step w user_input url st = (r, st') ->
  exists t new, r = Ok t
                /\ trace st' = (trace st ++ HttpHead url :: new)%list
                /\ heads new = [].
Proof.
  intros Hrun. unfold url_step, catch, bind, call in Hrun.
  destruct (http_head w (trace st) url) as [head|e].
  - match type of Hrun with
    | context [handle_content w ?a ?b ?c ?s] =>
        destruct (handle_content w a b c s) as [rh sh] eqn:Hh
    end.
    destruct (handle_content_spec w _ _ _ _ _ _ Hh) as ((nh & Hth & Hah) & _ & _ & Hrh).
    destruct rh as [t|e]; [|contradiction].
    cbn [trace log] in Hth.
    exists (if truthy t then t else "Couldn't process URL: " ++ url), nh.
    destruct (truthy t); inversion Hrun; subst;
      (split; [reflexivity|]); (split; [|exact (resolver_no_head _ _ Hah)]);
      rewrite Hth, <- app_assoc; reflexivity.
  - inversion Hrun; subst. eexists. exists []. repeat split.
Qed.

Lemma url_loop_heads (user_input : string) (urls : list string) :
  forall st r st',
    url_loop w user_input urls st = (r, st') ->
    exists texts new, r = Ok texts
                      /\ trace st' = (trace st ++ new)%list
                      /\ heads new = urls
                      /\ List.length texts = List.length urls.
Proof.
  induction urls as [|url rest IH]; intros st r st' Hrun.
  - inversion Hrun; subst. exists [], []. rewrite app_nil_r. auto.
  - cbn [url_loop] in Hrun. unfold bind in Hrun.
    destruct (url_step w user_input url st) as [r1 st1] eqn:H1.
    destruct (url_step_heads _ _ _ _ _ H1) as (t & n1 & -> & Ht1 & Hh1).
    destruct (url_loop w user_input rest st1) as [r2 st2] eqn:H2.
    destruct (IH _ _ _ H2) as (texts & n2 & -> & Ht2 & Hh2 & Hlen).
    inversion Hrun; subst.
    exists (t :: texts), (HttpHead url :: n1 ++ n2)%list. repeat split.
    + rewrite Ht2, Ht1, <- app_assoc. reflexivity.
    + cbn [heads]. rewrite heads_app, Hh1. reflexivity.
    + simpl. rewrite Hlen. reflexivity.
Qed.

Lemma kt_handle_content (source : string) (mime user_input : option string) :
  keeps_temps (handle_content w source mime user_input).
Proof. apply kt_with_frame. Qed.

Lemma kt_urls_step (user_input : option string) :
  keeps_temps (urls_step w user_input).
Proof.
  unfold urls_step. destruct user_input as [t|]; [|apply kt_ret].
  destruct (truthy t); [|apply kt_ret].
  induction (Extract.extract_urls (Some t)) as [|url rest IH]; [apply kt_ret|].
  cbn [url_loop]. apply kt_bind.
  - unfold url_step. apply kt_catch; [|intros; apply kt_ret].
    apply kt_bind; [apply kt_call|]. intros head.
    apply kt_bind; [apply kt_handle_content|].
    intros r. destruct (truthy r); apply kt_ret.
  - intros x. apply kt_bind; [exact IH | intros; apply kt_ret].
Qed.

(** Once the upload has been written to its temporary file, the file
    step gives one text and has remembered the file. *)
Lemma file_step_saved (user_input : option string) (f : upload_file)
      (st : St) (n name content : string) :
  filename f = Some n ->
  named_temp w (trace st) (splitext w n) = Ok name ->
  file_read w (trace st ++ [NamedTemp (splitext w n)])%list = Ok content ->
  tmp_write w ((trace st ++ [NamedTemp (splitext w n)]) ++ [FileRead])%list
            name content = Ok tt ->
  exists t st1,
    file_step w user_input (Some f) st = (Ok [t], st1)
    /\ temps st1 = (temps st ++ [name])%list.
Proof.
  intros Hn Hname Hread Hwrite.
  unfold file_step. rewrite Hn.
  unfold bind, call, push_temp, ret. cbn [trace log].
  rewrite Hname, Hread, Hwrite.
  match goal with
  | |- context [catch ?m ?h ?s] =>
      destruct (catch m h s) as [rc sc] eqn:Hc;
      assert (Hkt : temps sc = temps s)
  end.
  { revert Hc. apply kt_catch; [|intros; apply kt_ret].
    apply kt_bind; [apply kt_handle_content|].
    intros r. destruct (truthy r); apply kt_ret. }
  assert (Hok : exists t, rc = Ok t).
  { unfold catch, bind in Hc.
    match type of Hc with
    | context [handle_content w ?a ?b ?c ?s] =>
        destruct (handle_content w a b c s) as [rh sh] eqn:Hh
    end.
    destruct (handle_content_spec w _ _ _ _ _ _ Hh) as (_ & _ & _ & Hrh).
    destruct rh as [t|e]; [|contradiction].
    destruct (truthy t); inversion Hc; eauto. }
  destruct Hok as (t & ->).
  exists t, sc. split; [reflexivity | exact Hkt].
Qed.

End EndpointFacts.

(** X10.  The endpoint answers 400 exactly when the request has neither
    text nor file, and then it has made no call.  On any other request
    it gives a success response or a 500 response whose detail is
    "An error occurred: " followed by the error; an exception leaves it
    only when the reading of the recent history fails. *)
Theorem endpoint_outcomes :
  forall (w : World) (uid : nat) (user_input : option string)
         (file : option Chatbot.upload_file) (st st' : St)
         (r : result Chatbot.endpoint),
    Chatbot.chatbot_post w uid user_input file st = (r, st') ->
    (Chatbot.given user_input = false -> file = None ->
     r = Ok (Chatbot.HttpError 400 "Provide text, file, or URL links") /\ st' = st)
    /\ (Chatbot.given user_input = true \/ file <> None ->
        match r with
        | Ok (Chatbot.Success _ _ _) => True
        | Ok (Chatbot.HttpError code detail) =>
            code = 500 /\ exists e, detail = "An error occurred: " ++ e
        | Raise e => db_history w (trace st) uid Chatbot.MAX_HISTORY = Raise e
        end).
Proof.
  intros w uid user_input file st st' r Hrun. split.
  - intros Hg Hf. subst file.
    unfold Chatbot.chatbot_post, with_frame in Hrun. rewrite Hg in Hrun.
    simpl in Hrun. inversion Hrun; subst. destruct st. auto.
  - intros Hinput.
    destruct (chatbot_post_run w _ _ _ _ _ _ Hinput Hrun)
      as [(e & He & -> & _) | (rb & stb & stc & Hb & _ & _ & ->)];
      [exact He|].
    destruct rb as [ep|e].
    + destruct (body_response_is_success w _ _ _ _ _ _ Hb) as (texts & st3 & ->).
      exact I.
    + split; [reflexivity | exists e; reflexivity].
Qed.

Lemma endpoint_outcomes_witness :
  500 = 500 /\ exists e, "An error occurred: connection lost" = "An error occurred: " ++ e.
Proof.
  destruct (endpoint_outcomes (Examples.with_failing_commit Examples.w_summary) 7
              (Some "hello") None Examples.st0
              (snd (Chatbot.chatbot_post (Examples.with_failing_commit Examples.w_summary)
                      7 (Some "hello") None Examples.st0))
              (Ok (Chatbot.HttpError 500 "An error occurred: connection lost"))
              eq_refl) as (_ & H).
  exact (H (or_introl eq_refl)).
Defined.

(** X11.  A request that does not end in a success response leaves the
    committed records as they were, with one exception: the commit went
    through and reading the record back for the response failed.  Then
    the record of the request is stored all the same, and the client is
    answered with status 500 and the text of that failure. *)
Theorem failed_request_store :
  forall (w : World) (uid : nat) (user_input : option string)
         (file : option Chatbot.upload_file) (st st' : St)
         (r : result Chatbot.endpoint),
    Chatbot.chatbot_post w uid user_input file st = (r, st') ->
    (forall u resp ts, r <> Ok (Chatbot.Success u resp ts)) ->
    store st' = store st
    \/ exists (e : exn) (h : history) (record : interaction),
         r = Ok (Chatbot.HttpError 500 ("An error occurred: " ++ e))
         /\ db_commit w h = Ok tt
         /\ db_refresh w (h ++ [DbCommit])%list = Raise e
         /\ user_id record = uid
         /\ Eff.user_input record = Chatbot.record_input user_input file
         /\ store st' = (store st ++ session st ++ [record])%list.
Proof.
  intros w uid user_input file st st' r Hrun Hno.
  destruct (Chatbot.given user_input) eqn:Hg;
    [|destruct file as [f|] eqn:Hf].
  3: { destruct (endpoint_outcomes w _ _ _ _ _ _ Hrun) as (H400 & _).
       destruct (H400 Hg eq_refl) as (_ & ->). left. reflexivity. }
  all: match goal with
       | |- _ =>
           assert (Hinput : Chatbot.given user_input = true
                            \/ file <> None)
             by (first [left; exact Hg | right; subst file; discriminate])
       end.
  all: try subst file.
  all: destruct (chatbot_post_run w _ _ _ _ _ _ Hinput Hrun)
         as [(e & _ & _ & ->) | (rb & stb & stc & Hb & Hc & -> & ->)];
         [left; reflexivity|].
  all: destruct (schedule_cleanup_spec _ _ _ Hc) as (_ & _ & Hdc & _).
  all: cbn [store leave]; rewrite Hdc.
  all: destruct (chatbot_body_events w _ _ _ _ _ _ Hb) as (ng & nc & _ & _ & _ & Hstore).
  all: destruct rb as [ep|e];
         [destruct (body_response_is_success w _ _ _ _ _ _ Hb) as (texts & st3 & ->);
          contradiction (Hno _ _ _ eq_refl)|].
  all: destruct Hstore as [Hsame | (e0 & h & record & He & Hcm & Hrf & Hu & Hi & Hst)];
         [intros ep; discriminate | left; exact Hsame |].
  all: right; exists e0, h, record; injection He as ->; auto 10.
Qed.

Lemma failed_request_store_witness :
  Chatbot.chatbot_post (Examples.with_failing_refresh Examples.w_summary) 7
    (Some "hello") None Examples.st0
  = (Ok (Chatbot.HttpError 500
           "An error occurred: server closed the connection unexpectedly"),
     Examples.after_failed_read)
  /\ List.length (store Examples.after_failed_read) = 1
  /\ (store Examples.after_failed_read = store Examples.st0
      \/ exists (e : exn) (h : history) (record : interaction),
           Ok (Chatbot.HttpError 500
                 "An error occurred: server closed the connection unexpectedly")
           = Ok (Chatbot.HttpError 500 ("An error occurred: " ++ e))
           /\ db_commit (Examples.with_failing_refresh Examples.w_summary) h = Ok tt
           /\ db_refresh (Examples.with_failing_refresh Examples.w_summary)
                         (h ++ [DbCommit])%list = Raise e
           /\ user_id record = 7
           /\ Eff.user_input record = "hello"
           /\ store Examples.after_failed_read
              = (store Examples.st0 ++ session Examples.st0 ++ [record])%list)
  /\ store (snd (Chatbot.chatbot_post (Examples.with_failing_commit Examples.w_summary) 7
                   (Some "hello") None Examples.st0))
     = store Examples.st0.
Proof.
  assert (Hrun : Chatbot.chatbot_post (Examples.with_failing_refresh Examples.w_summary) 7
                   (Some "hello") None Examples.st0
                 = (Ok (Chatbot.HttpError 500
                          "An error occurred: server closed the connection unexpectedly"),
                    Examples.after_failed_read))
    by (vm_compute; reflexivity).
  split; [exact Hrun|]. split; [vm_compute; reflexivity|]. split.
  - apply (failed_request_store _ _ _ _ _ _ _ Hrun). intros u resp ts. discriminate.
  - destruct (failed_request_store
                (Examples.with_failing_commit Examples.w_summary) 7 (Some "hello") None
                Examples.st0 _
                (Ok (Chatbot.HttpError 500 "An error occurred: connection lost"))
                ltac:(vm_compute; reflexivity))
      as [Hsame | (e & h & record & _ & Hcm & _)].
    + intros u resp ts. discriminate.
    + exact Hsame.
    + discriminate Hcm.
Defined.

Lemma in_prompted (p : string) (new : history) (cs : list part) (s : option safety) :
  Forall (Obs.prompted_call p) new -> In (Generate cs s) new -> In (PartText p) cs.
Proof.
  intros Hall Hin. rewrite Forall_forall in Hall. exact (Hall _ Hin).
Qed.

Lemma not_in_closing (new : history) (cs : list part) (s : option safety) :
  Forall Obs.closing_call new -> ~ In (Generate cs s) new.
Proof.
  intros Hall Hin. rewrite Forall_forall in Hall. exact (Hall _ Hin).
Qed.

Lemma not_in_tasks (new : history) (cs : list part) (s : option safety) :
  Forall (fun ev => exists f, ev = AddTask f) new -> ~ In (Generate cs s) new.
Proof.
  intros Hall Hin. rewrite Forall_forall in Hall.
  destruct (Hall _ Hin) as (f & Hf). discriminate Hf.
Qed.

(** X12.  Every payload the endpoint sends to the model holds the
    prompt of the request: the user text when there is one, and
    "Analyze this file." otherwise.  The default instructions of the
    categories are therefore not used through the endpoint. *)
Theorem endpoint_prompt :
  forall (w : World) (uid : nat) (user_input : option string)
         (file : option Chatbot.upload_file) (st st' : St)
         (r : result Chatbot.endpoint),
    Chatbot.chatbot_post w uid user_input file st = (r, st') ->
    exists new, trace st' = (trace st ++ new)%list
    /\ forall cs s, In (Generate cs s) new ->
                    In (PartText (or_default user_input "Analyze this file.")) cs.
Proof.
  intros w uid user_input file st st' r Hrun.
  destruct (Chatbot.given user_input) eqn:Hg;
    [|destruct file as [f|] eqn:Hf].
  3: { destruct (endpoint_outcomes w _ _ _ _ _ _ Hrun) as (H400 & _).
       destruct (H400 Hg eq_refl) as (_ & ->).
       exists []. rewrite app_nil_r. split; [reflexivity | intros cs s []]. }
  all: assert (Hinput : Chatbot.given user_input = true \/ file <> None)
         by (first [left; exact Hg | right; subst file; discriminate]).
  all: try subst file.
  all: destruct (chatbot_post_run w _ _ _ _ _ _ Hinput Hrun)
         as [(e & _ & _ & ->) | (rb & stb & stc & Hb & Hc & -> & _)].
  all: try (exists [DbHistory uid Chatbot.MAX_HISTORY];
            split; [reflexivity | intros cs s [Hin|[]]; discriminate Hin]).
  all: destruct (schedule_cleanup_spec _ _ _ Hc) as ((nt & Htt & Hat) & _).
  all: destruct (chatbot_body_events w _ _ _ _ _ _ Hb)
         as (ng & nc & Htb & Hag & Hac & _).
  all: exists ([DbHistory uid Chatbot.MAX_HISTORY] ++ ng ++ nc ++ nt)%list.
  all: split;
         [cbn [trace leave]; rewrite Htt, Htb; cbn [trace log enter];
          rewrite <- !app_assoc; reflexivity|].
  all: intros cs s Hin.
  all: apply in_app_or in Hin; destruct Hin as [[Hin|[]]|Hin]; [discriminate Hin|].
  all: apply in_app_or in Hin; destruct Hin as [Hin|Hin];
         [exact (in_prompted _ _ _ _ Hag Hin)|].
  all: apply in_app_or in Hin; destruct Hin as [Hin|Hin];
         [contradiction (not_in_closing _ _ _ Hac Hin)
         |contradiction (not_in_tasks _ _ _ Hat Hin)].
Qed.

Lemma endpoint_prompt_witness :
  exists new,
    trace Examples.after_post = (trace Examples.st0 ++ new)%list
    /\ forall cs s, In (Generate cs s) new -> In (PartText Examples.two_links) cs.
Proof.
  apply (endpoint_prompt Examples.w_summary 7 Examples.links_input
           (Some Examples.text_upload) Examples.st0 Examples.after_post
           (fst (Chatbot.chatbot_post Examples.w_summary 7 Examples.links_input
                   (Some Examples.text_upload) Examples.st0))).
  vm_compute; reflexivity.
Defined.

(** X13.  The URL step probes exactly the URLs the extractor finds in
    the text, one HEAD request each and in their order, never raises,
    and gives exactly one text per URL. *)
Theorem head_probes_follow_urls :
  forall (w : World) (t : string) (st st' : St) (r : result (list string)),
    t <> "" ->
    Chatbot.urls_step w (Some t) st = (r, st') ->
    exists texts new,
      r = Ok texts
      /\ trace st' = (trace st ++ new)%list
      /\ Obs.heads new = Extract.extract_urls (Some t)
      /\ List.length texts = List.length (Extract.extract_urls (Some t)).
Proof.
  intros w t st st' r Ht Hrun. unfold Chatbot.urls_step in Hrun.
  destruct t as [|c t]; [contradiction Ht; reflexivity|].
  cbn [truthy] in Hrun.
  exact (url_loop_heads w _ _ _ _ _ Hrun).
Qed.

Lemma head_probes_follow_urls_witness :
  exists texts new,
    fst (Chatbot.urls_step Examples.w_summary Examples.links_input Examples.st0)
    = Ok texts
    /\ trace (snd (Chatbot.urls_step Examples.w_summary Examples.links_input
                     Examples.st0))
       = (trace Examples.st0 ++ new)%list
    /\ Obs.heads new = ["http://example.com/a.txt"; "http://example.com/b.txt"]
    /\ List.length texts = 2.
Proof.
  apply (head_probes_follow_urls Examples.w_summary Examples.two_links Examples.st0
           (snd (Chatbot.urls_step Examples.w_summary Examples.links_input Examples.st0))
           (fst (Chatbot.urls_step Examples.w_summary Examples.links_input
                   Examples.st0))).
  - discriminate.
  - vm_compute; reflexivity.
Defined.

(** X14.  A URL whose HEAD probe fails with [e] contributes the text
    "Error processing URL <url>: e", the resolver is not called for it,
    and the loop goes on with the URLs that follow. *)
Theorem failed_probe_is_isolated :
  forall (w : World) (user_input url : string) (rest : list string)
         (st st' : St) (r : result (list string)) (e : exn),
    http_head w (trace st) url = Raise e ->
    Chatbot.url_loop w user_input (url :: rest) st = (r, st') ->
    exists texts,
      Chatbot.url_loop w user_input rest (log (HttpHead url) st) = (Ok texts, st')
      /\ r = Ok (("Error processing URL " ++ url ++ ": " ++ e) :: texts).
Proof.
  intros w user_input url rest st st' r e Hhead Hrun.
  cbn [Chatbot.url_loop] in Hrun.
  unfold bind at 1 in Hrun. unfold Chatbot.url_step, catch, bind at 1, call in Hrun.
  rewrite Hhead in Hrun. unfold ret at 1 in Hrun. unfold bind in Hrun.
  destruct (Chatbot.url_loop w user_input rest (log (HttpHead url) st))
    as [r2 st2] eqn:H2.
  destruct (url_loop_heads w _ _ _ _ _ H2) as (texts & _ & -> & _).
  inversion Hrun; subst. exists texts. auto.
Qed.

Lemma failed_probe_is_isolated_witness :
  exists texts,
    Chatbot.url_loop Examples.w_blocked "see http://a.example and http://b.example"
                     ["http://b.example"] (log (HttpHead "http://a.example") Examples.st0)
    = (Ok texts,
       snd (Chatbot.url_loop Examples.w_blocked
              "see http://a.example and http://b.example"
              ["http://a.example"; "http://b.example"] Examples.st0))
    /\ fst (Chatbot.url_loop Examples.w_blocked
              "see http://a.example and http://b.example"
              ["http://a.example"; "http://b.example"] Examples.st0)
       = Ok (("Error processing URL " ++ "http://a.example" ++ ": " ++ "unavailable")
               :: texts).
Proof.
  apply (failed_probe_is_isolated Examples.w_blocked
           "see http://a.example and http://b.example" "http://a.example"
           ["http://b.example"] Examples.st0); reflexivity.
Defined.

(** X15.  The response of a success is never the empty string. *)
Theorem response_never_empty :
  forall (w : World) (uid : nat) (user_input : option string)
         (file : option Chatbot.upload_file) (st st' : St)
         (u resp : string) (ts : nat),
    Chatbot.chatbot_post w uid user_input file st
    = (Ok (Chatbot.Success u resp ts), st') ->
    resp <> "".
Proof.
  intros w uid user_input file st st' u resp ts Hrun.
  assert (Hinput : Chatbot.given user_input = true \/ file <> None).
  { destruct (Chatbot.given user_input) eqn:Hg; [left; reflexivity|].
    destruct file as [f|]; [right; discriminate|].
    destruct (endpoint_outcomes w _ _ _ _ _ _ Hrun) as (H400 & _).
    destruct (H400 Hg eq_refl) as (Hr & _). discriminate Hr. }
  destruct (chatbot_post_run w _ _ _ _ _ _ Hinput Hrun)
    as [(e & _ & Hr & _) | (rb & stb & stc & Hb & _ & _ & Hr)];
    [discriminate Hr|].
  destruct rb as [ep|e]; [|discriminate Hr].
  destruct (body_response_is_success w _ _ _ _ _ _ Hb) as (texts & st3 & ->).
  inversion Hr; subst. intros Hempty.
  pose proof (final_response_truthy texts) as Htr.
  rewrite Hempty in Htr. discriminate Htr.
Qed.

Lemma response_never_empty_witness : Examples.merged <> "".
Proof.
  apply (response_never_empty Examples.w_summary 7 Examples.links_input
           (Some Examples.text_upload) Examples.st0 Examples.after_post
           Examples.two_links Examples.merged 12).
  vm_compute; reflexivity.
Defined.

(** X16.  Once the history has been read and the upload has been
    written to its temporary file, the endpoint does not raise, and
    whether it ends in success or in a 500 response its last call hands
    the removal of that file to the background tasks; it schedules no
    other removal. *)
Theorem upload_removal_scheduled :
  forall (w : World) (uid : nat) (user_input : option string)
         (f : Chatbot.upload_file) (st st' : St) (r : result Chatbot.endpoint)
         (past : list interaction) (n name content : string),
    Chatbot.filename f = Some n ->
    let h1 := (trace st ++ [DbHistory uid Chatbot.MAX_HISTORY])%list in
    let h2 := (h1 ++ [NamedTemp (splitext w n)])%list in
    let h3 := (h2 ++ [FileRead])%list in
    db_history w (trace st) uid Chatbot.MAX_HISTORY = Ok past ->
    named_temp w h1 (splitext w n) = Ok name ->
    file_read w h2 = Ok content ->
    tmp_write w h3 name content = Ok tt ->
    Chatbot.chatbot_post w uid user_input (Some f) st = (r, st') ->
    (exists ep, r = Ok ep)
    /\ exists pre,
         trace st' = (trace st ++ pre ++ [AddTask name])%list
         /\ Obs.add_tasks pre = [].
Proof.
  intros w uid user_input f st st' r past n name content Hn h1 h2 h3
         Hpast Hname Hread Hwrite Hrun.
  assert (Hinput : Chatbot.given user_input = true \/ Some f <> None)
    by (right; discriminate).
  destruct (chatbot_post_run w _ _ _ _ _ _ Hinput Hrun)
    as [(e & He & _) | (rb & stb & stc & Hb & Hc & -> & ->)];
    [rewrite Hpast in He; discriminate He|].
  split; [eexists; reflexivity|].
  set (stb0 := log (DbHistory uid Chatbot.MAX_HISTORY) (enter st)) in *.
  destruct (file_step_saved w user_input f stb0 n name content Hn Hname Hread Hwrite)
    as (t & st1 & Hf & Ht1).
  destruct (chatbot_body_run w _ _ _ _ _ _ Hb)
    as [(e & Hf' & _)
       | (ff & st1' & fu & st2 & texts & st3 & Hf' & Hu & Hfb & Hp)];
    rewrite Hf in Hf'; [discriminate Hf'|].
  assert (Hst1 : st1' = st1) by congruence. subst st1'.
  pose proof (kt_urls_step w user_input _ _ _ Hu) as Ht2.
  destruct (fallback_step_closing w _ _ _ _ _ Hfb) as (Ht3 & _).
  destruct (persist_frame w _ _ _ _ _ _ _ Hp) as (Ht4 & _).
  assert (Htemps : temps stb = [name]) by (rewrite Ht4, Ht3, Ht2, Ht1; reflexivity).
  unfold Chatbot.schedule_cleanup, bind, get_temps in Hc. rewrite Htemps in Hc.
  cbn [for_each] in Hc. unfold bind, call, ret in Hc.
  assert (Hstc : stc = log (AddTask name) stb) by congruence. subst stc.
  destruct (chatbot_body_events w _ _ _ _ _ _ Hb) as (ng & nc & Htb & Hag & Hac & _).
  exists ([DbHistory uid Chatbot.MAX_HISTORY] ++ ng ++ nc)%list. split.
  - cbn [trace leave log]. rewrite Htb. unfold stb0. cbn [trace log enter].
    rewrite <- !app_assoc. reflexivity.
  - rewrite !add_tasks_app, (prompted_no_task _ _ Hag).
    destruct (closing_no_task _ Hac) as (-> & _). reflexivity.
Qed.

Lemma upload_removal_scheduled_witness :
  exists pre,
    trace (snd (Chatbot.chatbot_post (Examples.with_failing_commit Examples.w_summary) 7
                  None (Some Examples.text_upload) Examples.st0))
    = (trace Examples.st0 ++ pre ++ [AddTask "/tmp/tmp"])%list
    /\ Obs.add_tasks pre = [].
Proof.
  apply (upload_removal_scheduled (Examples.with_failing_commit Examples.w_summary) 7
           None Examples.text_upload Examples.st0 _
           (fst (Chatbot.chatbot_post (Examples.with_failing_commit Examples.w_summary)
                   7 None (Some Examples.text_upload) Examples.st0))
           [] "notes.txt" "/tmp/tmp" "bytes"); vm_compute; reflexivity.
Defined.

(** ** The filter on the gathered texts *)

Section FilterTexts.
Import Chatbot.

Lemma lstrip_no_leading_space (s : string) :
  Extract.starts_space (lstrip s) = false.
Proof.
  induction s as [|c s IH]; simpl; [reflexivity|].
  destruct (isspace c) eqn:Hc; [exact IH | simpl; exact Hc].
Qed.

Lemma lstrip_fixed (s : string) :
  Extract.starts_space s = false -> lstrip s = s.
Proof. destruct s as [|c s]; simpl; [reflexivity|]. intros ->. reflexivity. Qed.

Lemma rstrip_keeps_head (s : string) :
  Extract.starts_space s = false -> Extract.starts_space (rstrip s) = false.
Proof.
  destruct s as [|c s]; simpl; [reflexivity|]. intros Hc.
  destruct (rstrip s); [rewrite Hc|]; simpl; exact Hc.
Qed.

Lemma rstrip_idempotent (s : string) : rstrip (rstrip s) = rstrip s.
Proof.
  induction s as [|c s IH]; [reflexivity|]. cbn [rstrip].
  destruct (rstrip s) as [|d r] eqn:Hr.
  - destruct (isspace c) eqn:Hc; [reflexivity|]. simpl. rewrite Hc. reflexivity.
  - cbn [rstrip] in IH |- *. rewrite IH. reflexivity.
Qed.

Lemma strip_idempotent (s : string) : strip (strip s) = strip s.
Proof.
  unfold strip.
  rewrite (lstrip_fixed (rstrip (lstrip s)))
    by (apply rstrip_keeps_head, lstrip_no_leading_space).
  apply rstrip_idempotent.
Qed.

Lemma rstrip_prefix (s : string) : exists rest, s = rstrip s ++ rest.
Proof.
  induction s as [|c s (rest & IH)]; [exists ""; reflexivity|].
  cbn [rstrip]. destruct (rstrip s) as [|d r] eqn:Hr.
  - destruct (isspace c).
    + exists (String c s). reflexivity.
    + exists s. reflexivity.
  - exists rest. simpl. rewrite IH at 1. reflexivity.
Qed.

Lemma strip_prefix_app_r (p a rest r : string) :
  strip_prefix p a = Some r -> strip_prefix p (a ++ rest) = Some (r ++ rest).
Proof.
  revert a. induction p as [|x p IH]; intros a H; simpl in *.
  - inversion H; subst. destruct (r ++ rest); reflexivity.
  - destruct a as [|y a]; [discriminate|]. simpl.
    destruct (Ascii.eqb x y); [apply IH; exact H | discriminate].
Qed.

Lemma contains_app_r (p a rest : string) :
  contains p a = true -> contains p (a ++ rest) = true.
Proof.
  induction a as [|c a IH]; intros H.
  - cbn [contains] in H. rewrite orb_false_r in H.
    unfold startswith in H. destruct p; [|discriminate H].
    destruct ("" ++ rest); reflexivity.
  - cbn [contains] in H. apply orb_true_iff in H.
    change (String c a ++ rest) with (String c (a ++ rest)).
    cbn [contains]. apply orb_true_iff. destruct H as [H|H].
    + left. unfold startswith in *.
      destruct (strip_prefix p (String c a)) as [r|] eqn:Hp; [|discriminate H].
      change (String c (a ++ rest)) with (String c a ++ rest).
      rewrite (strip_prefix_app_r _ _ rest _ Hp). reflexivity.
    + right. assert (Ha : contains p a = true) by (destruct a; exact H).
      specialize (IH Ha). destruct (a ++ rest); exact IH.
Qed.

Lemma contains_lstrip (p s : string) :
  contains p (lstrip s) = true -> contains p s = true.
Proof.
  induction s as [|c s IH]; simpl lstrip; [auto|].
  destruct (isspace c); [|auto].
  intros H. apply contains_cons. exact (IH H).
Qed.

Lemma contains_strip (p s : string) :
  contains p (strip s) = true -> contains p s = true.
Proof.
  unfold strip. intros H. apply contains_lstrip.
  destruct (rstrip_prefix (lstrip s)) as (rest & Hrest).
  rewrite Hrest. apply contains_app_r. exact H.
Qed.

Lemma keeps_of_strip (r : string) :
  keeps r = true -> keeps (strip r) = true.
Proof.
  unfold keeps. intros H.
  apply andb_true_iff in H. destruct H as [H Hm].
  apply andb_true_iff in H. destruct H as [_ Hs].
  rewrite strip_idempotent, Hs. simpl.
  destruct (contains "Empty Response" (strip r)) eqn:Hc; [|reflexivity].
  rewrite (contains_strip _ _ Hc) in Hm. discriminate Hm.
Qed.

End FilterTexts.

(** X17.  Every text that passes the filter is non-empty, has no
    whitespace at either end and does not hold "Empty Response"; the
    filter drops texts without reordering the others, and filtering
    its result again changes nothing. *)
Theorem filter_texts_clean :
  forall texts : list string,
    (forall t, In t (Chatbot.filter_texts texts) ->
               t <> "" /\ strip t = t /\ contains "Empty Response" t = false)
    /\ Chatbot.filter_texts texts = map strip (filter Chatbot.keeps texts)
    /\ List.length (Chatbot.filter_texts texts) <= List.length texts
    /\ Chatbot.filter_texts (Chatbot.filter_texts texts) = Chatbot.filter_texts texts.
Proof.
  intros texts.
  assert (Hkeep : forall t, In t (Chatbot.filter_texts texts) ->
                            Chatbot.keeps t = true /\ strip t = t).
  { intros t Hin. unfold Chatbot.filter_texts in Hin.
    apply in_map_iff in Hin. destruct Hin as (r & <- & Hr).
    apply filter_In in Hr. destruct Hr as (_ & Hr).
    split; [apply keeps_of_strip; exact Hr | apply strip_idempotent]. }
  split; [|split; [reflexivity|split]].
  - intros t Hin. destruct (Hkeep t Hin) as (Hk & Hs).
    unfold Chatbot.keeps in Hk.
    apply andb_true_iff in Hk. destruct Hk as [Hk Hm].
    apply andb_true_iff in Hk. destruct Hk as [Ht _].
    repeat split.
    + intros ->. discriminate Ht.
    + exact Hs.
    + apply negb_true_iff. exact Hm.
  - unfold Chatbot.filter_texts. rewrite length_map. apply filter_length_le.
  - induction (Chatbot.filter_texts texts) as [|t ts IH]; [reflexivity|].
    destruct (Hkeep t (or_introl eq_refl)) as (Hk & Hs).
    unfold Chatbot.filter_texts in *. simpl. rewrite Hk. simpl.
    rewrite Hs, IH; [reflexivity|].
    intros t' Hin. apply Hkeep. right. exact Hin.
Qed.

Lemma filter_texts_clean_witness :
  "hi" <> "" /\ strip "hi" = "hi" /\ contains "Empty Response" "hi" = false.
Proof.
  destruct (filter_texts_clean ["  hi " ++ nl; "   "; "query gave Empty Response"; "ok"])
    as (H & _).
  apply H. vm_compute. tauto.
Defined.

(** ** The recent history *)

Section RecentHistory.
Import History.
Context {A : Type}.

Lemma lastn_length (n : nat) (l : list A) : List.length (lastn n l) <= n.
Proof. unfold lastn. rewrite length_skipn. lia. Qed.

Lemma lastn_short (n : nat) (l : list A) : List.length l <= n -> lastn n l = l.
Proof.
  intros H. unfold lastn. replace (List.length l - n) with 0 by lia. reflexivity.
Qed.

Lemma lastn_app (n : nat) (a b : list A) :
  lastn n (lastn n a ++ b)%list = lastn n (a ++ b)%list.
Proof.
  unfold lastn. rewrite !length_app, !skipn_app, length_skipn, skipn_skipn.
  f_equal; f_equal; lia.
Qed.

Lemma deque_append_lastn (n : nat) (d : list A) (x : A) :
  List.length d <= n -> deque_append n d x = lastn n (d ++ [x])%list.
Proof.
  intros H. unfold deque_append, lastn. rewrite length_app. cbn [List.length].
  destruct n as [|n].
  - destruct d; [reflexivity | simpl in H; lia].
  - destruct (Nat.ltb_spec (List.length d) (S n)).
    + replace (List.length d + 1 - S n) with 0 by lia. reflexivity.
    + replace (List.length d + 1 - S n) with 1 by lia.
      destruct d; [simpl in *; lia | reflexivity].
Qed.

Lemma deque_extend_lastn (n : nat) (xs : list A) :
  forall d, List.length d <= n -> deque_extend n d xs = lastn n (d ++ xs)%list.
Proof.
  unfold deque_extend. induction xs as [|x xs IH]; intros d H; cbn [fold_left].
  - rewrite app_nil_r, lastn_short by exact H. reflexivity.
  - rewrite (deque_append_lastn n d x H), IH by apply lastn_length.
    rewrite lastn_app, <- app_assoc. reflexivity.
Qed.

End RecentHistory.

Lemma recent_history_fold (msgs : list interaction) :
  forall d, List.length d <= Chatbot.MAX_HISTORY ->
    fold_left
      (fun history msg =>
         History.deque_extend Chatbot.MAX_HISTORY history
                              [user_input msg; response msg])
      msgs d
    = History.lastn Chatbot.MAX_HISTORY
        (d ++ flat_map (fun msg => [user_input msg; response msg]) msgs)%list.
Proof.
  induction msgs as [|m msgs IH]; intros d H; cbn [fold_left flat_map].
  - rewrite app_nil_r, lastn_short by exact H. reflexivity.
  - rewrite (deque_extend_lastn _ _ d H), IH by apply lastn_length.
    rewrite lastn_app, <- app_assoc. reflexivity.
Qed.

(** X18.  The history kept for a request is the last five entries of
    the sequence input, response, input, response, ... of the loaded
    interactions in chronological order: never more than five entries,
    so with five loaded interactions it holds the last two exchanges and
    only the response of the one before them. *)
Theorem recent_history_last_five :
  forall past : list interaction,
    History.recent_history past
    = History.lastn 5
        (flat_map (fun msg => [user_input msg; response msg]) (rev past))
    /\ List.length (History.recent_history past) <= 5
    /\ forall m1 m2 m3 m4 m5,
         History.recent_history [m5; m4; m3; m2; m1]
         = [response m3; user_input m4; response m4; user_input m5; response m5].
Proof.
  intros past.
  assert (H : History.recent_history past
              = History.lastn 5
                  (flat_map (fun msg => [user_input msg; response msg]) (rev past))).
  { unfold History.recent_history.
    rewrite recent_history_fold by (simpl; lia). reflexivity. }
  split; [exact H|]. split; [rewrite H; apply lastn_length | reflexivity].
Qed.

(** ** Index loading *)

Section IndexerRules.
Import Indexer.
Context {A B : Type}.
Variable E : ix_event -> Prop.

Lemma ispec_ret (a : A) : ispec (iret a) E.
Proof.
  intros st r st' H. inversion H; subst. repeat split.
  exists []. rewrite app_nil_r. auto.
Qed.

Lemma ispec_raise (e : exn) : ispec (@iraise A e) E.
Proof.
  intros st r st' H. inversion H; subst. repeat split.
  exists []. rewrite app_nil_r. auto.
Qed.

Lemma ispec_call (ev : ix_event) (f : ix_history -> result A) :
  E ev -> ispec (icall ev f) E.
Proof.
  intros He st r st' H. inversion H; subst. simpl. repeat split.
  exists [ev]. auto.
Qed.

Lemma ispec_bind (m : IM A) (k : A -> IM B) :
  ispec m E -> (forall a, ispec (k a) E) -> ispec (ibind m k) E.
Proof.
  intros Hm Hk st r st' H. unfold ibind in H.
  destruct (m st) as [[a|e] st1] eqn:Hm1;
    destruct (Hm _ _ _ Hm1) as ((n1 & Ht1 & Ha1) & Hg1 & Hp1).
  - destruct (Hk a _ _ _ H) as ((n2 & Ht2 & Ha2) & Hg2 & Hp2).
    repeat split; try congruence.
    exists (n1 ++ n2)%list. split.
    + rewrite Ht2, Ht1, app_assoc. reflexivity.
    + apply Forall_app; auto.
  - inversion H; subst. repeat split; auto. exists n1. auto.
Qed.

Lemma ibind_ok (m : IM A) (k : A -> IM B) (st st' : IxSt) (b : B) :
  ibind m k st = (Ok b, st') ->
  exists a st1, m st = (Ok a, st1) /\ k a st1 = (Ok b, st').
Proof.
  unfold ibind. destruct (m st) as [[a|e] st1]; [eauto | discriminate].
Qed.

Lemma ibind_raise (m : IM A) (k : A -> IM B) (st st' : IxSt) (e : exn) :
  ibind m k st = (Raise e, st') ->
  m st = (Raise e, st')
  \/ exists a st1, m st = (Ok a, st1) /\ k a st1 = (Raise e, st').
Proof.
  unfold ibind. destruct (m st) as [[a|e1] st1]; [eauto|].
  intros H. left. inversion H; subst. reflexivity.
Qed.

End IndexerRules.

Lemma ispec_weaken {A} (m : Indexer.IM A) (E E' : Indexer.ix_event -> Prop) :
  Indexer.ispec m E -> (forall ev, E ev -> E' ev) -> Indexer.ispec m E'.
Proof.
  intros Hm HE st r st' H.
  destruct (Hm _ _ _ H) as ((new & Ht & Ha) & Hg & Hp).
  repeat split; auto. exists new. split; auto. eapply Forall_impl; eauto.
Qed.

Section PdfLoading.
Import Indexer.
Variable s : Sys.

Lemma loads_map (paths : list string) : loads (map IxLoadData paths) = paths.
Proof. induction paths as [|p ps IH]; simpl; [|rewrite IH]; reflexivity. Qed.

(** The loop over the files of one directory reads its PDF files in
    order and never raises. *)
Lemma load_files_run (root : string) (files : list string) :
  forall (acc : list doc) (st : IxSt) (r : result (list doc)) (st' : IxSt),
    load_files s root files acc st = (r, st') ->
    let paths := map (path_join s root) (filter is_pdf_name files) in
    exists docs,
      r = Ok docs
      /\ ix_trace st' = (ix_trace st ++ map IxLoadData paths)%list
      /\ global_index st' = global_index st
      /\ app_index st' = app_index st
      /\ forall rd, (forall h p, load_data s h p = rd p) ->
                    docs = (acc ++ flat_map (docs_of rd) paths)%list.
Proof.
  induction files as [|fname rest IH]; intros acc st r st' Hrun; cbn [load_files] in Hrun.
  - inversion Hrun; subst. exists acc. cbn. rewrite !app_nil_r. auto.
  - cbn [filter]. destruct (is_pdf_name fname); [|exact (IH _ _ _ _ Hrun)].
    unfold icall in Hrun.
    destruct (load_data s (ix_trace st) (path_join s root fname)) as [ds|e] eqn:Hload;
      destruct (IH _ _ _ _ Hrun) as (docs & -> & Ht & Hg & Hp & Hdocs);
      cbn [ix_trace global_index app_index] in Ht, Hg, Hp;
      exists docs; cbn [map flat_map]; repeat split; auto.
    + rewrite Ht, <- app_assoc. reflexivity.
    + intros rd Hrd. rewrite (Hdocs rd Hrd). unfold docs_of at 2.
      rewrite <- (Hrd (ix_trace st)), Hload, <- app_assoc. reflexivity.
    + rewrite Ht, <- app_assoc. reflexivity.
    + intros rd Hrd. rewrite (Hdocs rd Hrd). unfold docs_of at 2.
      rewrite <- (Hrd (ix_trace st)), Hload. reflexivity.
Qed.

Lemma load_dirs_run (dirs : list (string * list string)) :
  forall (acc : list doc) (st : IxSt) (r : result (list doc)) (st' : IxSt),
    load_dirs s dirs acc st = (r, st') ->
    exists docs,
      r = Ok docs
      /\ ix_trace st' = (ix_trace st ++ map IxLoadData (pdf_paths s dirs))%list
      /\ global_index st' = global_index st
      /\ app_index st' = app_index st
      /\ forall rd, (forall h p, load_data s h p = rd p) ->
                    docs = (acc ++ flat_map (docs_of rd) (pdf_paths s dirs))%list.
Proof.
  induction dirs as [|[root files] rest IH]; intros acc st r st' Hrun;
    cbn [load_dirs] in Hrun.
  - inversion Hrun; subst. exists acc. cbn. rewrite !app_nil_r. auto.
  - unfold ibind in Hrun.
    destruct (load_files s root files acc st) as [r1 st1] eqn:H1.
    destruct (load_files_run _ _ _ _ _ _ H1) as (d1 & -> & Ht1 & Hg1 & Hp1 & Hd1).
    destruct (IH _ _ _ _ Hrun) as (docs & -> & Ht & Hg & Hp & Hdocs).
    exists docs. unfold pdf_paths in *. cbn [flat_map fst snd].
    repeat split; try congruence.
    + rewrite Ht, Ht1, map_app, <- app_assoc. reflexivity.
    + intros rd Hrd. rewrite (Hdocs rd Hrd), (Hd1 rd Hrd), flat_map_app, <- app_assoc.
      reflexivity.
Qed.

End PdfLoading.

(** X19.  [load_all_pdfs_from_folder] never raises.  When the folder
    does not exist it returns no document and reads nothing.  Otherwise
    it hands to the reader exactly the files whose lower-cased name ends
    in ".pdf", each once and in the order of the walk, and goes on after
    a file that cannot be read; with a reader whose answer depends on
    the path only, the result is the concatenation of the documents of
    the readable files. *)
Theorem load_all_pdfs_reads :
  forall (s : Indexer.Sys) (folder : string) (st st' : Indexer.IxSt)
         (r : result (list Indexer.doc)),
    Indexer.load_all_pdfs_from_folder s folder st = (r, st') ->
    let h := Indexer.ix_trace st in
    let dirs := Indexer.walk s (h ++ [Indexer.IxExists folder])%list folder in
    (Indexer.exists_path s h folder = false ->
     r = Ok [] /\ Indexer.ix_trace st' = (h ++ [Indexer.IxExists folder])%list)
    /\ (Indexer.exists_path s h folder = true ->
        exists docs new,
          r = Ok docs
          /\ Indexer.ix_trace st'
             = (h ++ [Indexer.IxExists folder; Indexer.IxWalk folder] ++ new)%list
          /\ new = map Indexer.IxLoadData (Indexer.pdf_paths s dirs)
          /\ forall rd, (forall h' p, Indexer.load_data s h' p = rd p) ->
               docs = flat_map (Indexer.docs_of rd) (Indexer.pdf_paths s dirs)).
Proof.
  intros s folder st st' r Hrun h dirs.
  unfold Indexer.load_all_pdfs_from_folder, Indexer.ibind, Indexer.icall in Hrun.
  cbn [Indexer.ix_trace] in Hrun. fold h in Hrun.
  split; intros Hex; rewrite Hex in Hrun.
  - inversion Hrun; subst. auto.
  - fold dirs in Hrun.
    destruct (load_dirs_run s _ _ _ _ _ Hrun) as (docs & -> & Ht & _ & _ & Hdocs).
    cbn [Indexer.ix_trace] in Ht.
    exists docs, (map Indexer.IxLoadData (Indexer.pdf_paths s dirs)).
    repeat split; auto.
    rewrite Ht, <- !app_assoc. reflexivity.
Qed.

Lemma load_all_pdfs_reads_witness :
  exists docs new,
    fst (Indexer.load_all_pdfs_from_folder (Examples.sys_of Examples.env_default)
           "data" Examples.ix0) = Ok docs
    /\ Indexer.ix_trace
         (snd (Indexer.load_all_pdfs_from_folder (Examples.sys_of Examples.env_default)
                 "data" Examples.ix0))
       = ([] ++ [Indexer.IxExists "data"; Indexer.IxWalk "data"] ++ new)%list
    /\ new = map Indexer.IxLoadData
               ["data/a.pdf"; "data/B.PDF"; "data/old/broken.pdf"; "data/old/c.Pdf"]
    /\ forall rd,
         (forall h' p,
             Indexer.load_data (Examples.sys_of Examples.env_default) h' p = rd p) ->
         docs = flat_map (Indexer.docs_of rd)
                  ["data/a.pdf"; "data/B.PDF"; "data/old/broken.pdf"; "data/old/c.Pdf"].
Proof.
  destruct (load_all_pdfs_reads (Examples.sys_of Examples.env_default) "data"
              Examples.ix0 _ _ eq_refl) as (_ & H).
  exact (H eq_refl).
Defined.

Section Startup.
Import Indexer.
Variable s : Sys.

Lemma load_embed_model_spec :
  ispec (load_embed_model s)
        (fun ev => no_document_call ev /\ no_store_load_call ev).
Proof.
  unfold load_embed_model.
  apply ispec_bind; [apply ispec_call; split; exact I|]. intros _.
  apply ispec_bind; [apply ispec_call; split; exact I|]. intros present.
  apply ispec_bind.
  - destruct present; [|apply ispec_ret].
    apply ispec_bind; [apply ispec_call; split; exact I|].
    intros names. apply ispec_ret.
  - intros cached. destruct cached; [apply ispec_call; split; exact I|].
    apply ispec_bind; [apply ispec_call; split; exact I|]. intros em.
    apply ispec_bind; [apply ispec_call; split; exact I|]. intros _.
    apply ispec_ret.
Qed.

Lemma load_all_pdfs_spec (folder : string) :
  ispec (load_all_pdfs_from_folder s folder) no_store_load_call.
Proof.
  intros st r st' Hrun.
  pose proof (load_all_pdfs_reads s folder st st' r Hrun) as (Hno & Hyes).
  assert (Hframe : global_index st' = global_index st
                   /\ app_index st' = app_index st).
  { unfold load_all_pdfs_from_folder, ibind, icall in Hrun.
    destruct (exists_path s (ix_trace st) folder).
    - destruct (load_dirs_run s _ _ _ _ _ Hrun) as (docs & _ & _ & Hg & Hp & _).
      auto.
    - inversion Hrun; subst. auto. }
  split; [|exact Hframe].
  destruct (exists_path s (ix_trace st) folder).
  - destruct (Hyes eq_refl) as (docs & new & _ & Ht & Hnew & _).
    eexists. split; [exact Ht|].
    repeat constructor. subst new.
    apply Forall_forall. intros ev Hin. apply in_map_iff in Hin.
    destruct Hin as (p & <- & _). exact I.
  - destruct (Hno eq_refl) as (_ & Ht). eexists. split; [exact Ht|].
    repeat constructor.
Qed.

Lemma load_or_create_index_spec (docs : option (list doc))
      (embed : option embed_model) (force : bool) :
  ispec (load_or_create_index s docs embed force)
        (if force then no_store_load_call else no_document_call).
Proof.
  unfold load_or_create_index.
  apply ispec_bind; [apply ispec_call; destruct force; exact I|].
  intros vs. destruct force.
  - destruct docs as [ds|]; [|apply ispec_raise].
    destruct embed as [em|]; [|apply ispec_raise].
    apply ispec_call. exact I.
  - apply ispec_call. exact I.
Qed.

Lemma prepare_index_spec :
  ispec (prepare_index s)
        (if force_reload_requested s then no_store_load_call else no_document_call).
Proof.
  unfold prepare_index.
  apply ispec_bind.
  { eapply ispec_weaken; [apply load_embed_model_spec|].
    intros ev (H1 & H2). destruct (force_reload_requested s); assumption. }
  intros embed.
  apply ispec_bind.
  { apply ispec_call. destruct (force_reload_requested s); exact I. }
  intros _. destruct (force_reload_requested s) eqn:Hforce.
  - apply ispec_bind; [apply load_all_pdfs_spec|].
    intros docs. apply (load_or_create_index_spec (Some docs) (Some embed) true).
  - apply (load_or_create_index_spec None (Some embed) false).
Qed.

(** A run of [build_index]: the preparation, and on its success the
    assignment of the new index to both variables. *)
Lemma build_index_run (st : IxSt) (r : result unit) (st' : IxSt) :
  build_index s st = (r, st') ->
  exists st1,
    ((exists new, ix_trace st1 = (ix_trace st ++ new)%list
                  /\ Forall (if force_reload_requested s
                             then no_store_load_call else no_document_call) new)
     /\ global_index st1 = global_index st
     /\ app_index st1 = app_index st)
    /\ ((exists e, prepare_index s st = (Raise e, st1) /\ r = Raise e /\ st' = st1)
        \/ (exists ix, prepare_index s st = (Ok ix, st1) /\ r = Ok tt
                       /\ st' = {| ix_trace := ix_trace st1;
                                   global_index := Some ix;
                                   app_index := Some ix |})).
Proof.
  unfold build_index, ibind.
  destruct (prepare_index s st) as [[ix|e] st1] eqn:Hprep; intros Hrun;
    exists st1; (split; [exact (prepare_index_spec _ _ _ Hprep)|]).
  - right. exists ix. unfold set_indexes in Hrun. inversion Hrun; subst. auto.
  - left. exists e. inversion Hrun; subst. auto.
Qed.

End Startup.

(** X20.  [load_or_create_index] first initialises the vector store; a
    failure there is raised again and nothing else is called.  With a
    forced reload and no documents or no embedding model it raises
    "Documents and embed_model are required on force reload" and builds
    no index.  Without a forced reload the documents are ignored and no
    index is built from documents. *)
Theorem load_or_create_index_edges :
  forall (s : Indexer.Sys) (docs : option (list Indexer.doc))
         (embed : option Indexer.embed_model) (force : bool) (st : Indexer.IxSt),
    let run := Indexer.load_or_create_index s docs embed force st in
    let st1 := {| Indexer.ix_trace
                  := (Indexer.ix_trace st ++ [Indexer.IxInitVectorDb])%list;
                  Indexer.global_index := Indexer.global_index st;
                  Indexer.app_index := Indexer.app_index st |} in
    (forall e, Indexer.init_vector_db s (Indexer.ix_trace st) = Raise e ->
               run = (Raise e, st1))
    /\ (forall vs, Indexer.init_vector_db s (Indexer.ix_trace st) = Ok vs ->
                   force = true -> docs = None \/ embed = None ->
                   run = (Raise "Documents and embed_model are required on force reload",
                          st1))
    /\ (force = false ->
        run = Indexer.load_or_create_index s None embed false st
        /\ exists new,
             Indexer.ix_trace (snd run) = (Indexer.ix_trace st ++ new)%list
             /\ Forall Indexer.no_document_call new).
Proof.
  intros s docs embed force st run st1. subst run st1.
  split; [|split].
  - intros e He. unfold Indexer.load_or_create_index, Indexer.ibind, Indexer.icall.
    rewrite He. reflexivity.
  - intros vs Hvs -> Hmissing.
    unfold Indexer.load_or_create_index, Indexer.ibind, Indexer.icall.
    rewrite Hvs. destruct Hmissing as [-> | ->]; [reflexivity|].
    destruct docs; reflexivity.
  - intros ->. split; [reflexivity|].
    destruct (Indexer.load_or_create_index s docs embed false st) as [r st'] eqn:Hrun.
    destruct (load_or_create_index_spec s docs embed false _ _ _ Hrun)
      as ((new & Ht & Ha) & _).
    exists new. auto.
Qed.

Lemma load_or_create_index_edges_witness :
  Indexer.load_or_create_index (Examples.sys_of Examples.env_default)
                               None (Some "model") true Examples.ix0
  = (Raise "Documents and embed_model are required on force reload",
     {| Indexer.ix_trace := [Indexer.IxInitVectorDb];
        Indexer.global_index := None; Indexer.app_index := None |}).
Proof.
  destruct (load_or_create_index_edges (Examples.sys_of Examples.env_default)
              None (Some "model") true Examples.ix0) as (_ & H & _).
  apply (H "pg"); [reflexivity | reflexivity | left; reflexivity].
Defined.

(** X21.  After a successful start the application state and the module
    variable hold the same index, so [get_query_engine] does not raise
    and hands out that index; and as long as no reload is forced, a
    further start makes no call and keeps that index. *)
Theorem startup_serves_index :
  forall (s : Indexer.Sys) (st st' : Indexer.IxSt),
    Indexer.startup s st = (Ok tt, st') ->
    exists ix,
      Indexer.app_index st' = Some ix
      /\ Indexer.global_index st' = Some ix
      /\ Indexer.get_query_engine st' = Ok ix
      /\ (Indexer.force_reload_requested s = false ->
          Indexer.startup s st' = (Ok tt, st')).
Proof.
  intros s st st' Hrun.
  assert (H : exists ix, Indexer.app_index st' = Some ix
                         /\ Indexer.global_index st' = Some ix).
  { unfold Indexer.startup in Hrun.
    destruct (Indexer.global_index st) as [cached|] eqn:Hg;
      [destruct (negb (Indexer.force_reload_requested s))|].
    - inversion Hrun; subst. exists cached. auto.
    - destruct (build_index_run s _ _ _ Hrun)
        as (st1 & _ & [(e & _ & Hr & _) | (ix & _ & _ & ->)]);
        [discriminate Hr | exists ix; auto].
    - destruct (build_index_run s _ _ _ Hrun)
        as (st1 & _ & [(e & _ & Hr & _) | (ix & _ & _ & ->)]);
        [discriminate Hr | exists ix; auto]. }
  destruct H as (ix & Happ & Hglob). exists ix.
  split; [exact Happ|]. split; [exact Hglob|]. split.
  - unfold Indexer.get_query_engine. rewrite Happ. reflexivity.
  - intros Hforce. unfold Indexer.startup. rewrite Hglob, Hforce. simpl.
    destruct st'. simpl in *. subst. reflexivity.
Qed.

Lemma startup_serves_index_witness :
  exists ix,
    Indexer.app_index (snd (Indexer.startup (Examples.sys_of Examples.env_default)
                              Examples.ix0)) = Some ix
    /\ Indexer.global_index (snd (Indexer.startup (Examples.sys_of Examples.env_default)
                                    Examples.ix0)) = Some ix
    /\ Indexer.get_query_engine (snd (Indexer.startup
                                        (Examples.sys_of Examples.env_default)
                                        Examples.ix0)) = Ok ix
    /\ (Indexer.force_reload_requested (Examples.sys_of Examples.env_default) = false ->
        Indexer.startup (Examples.sys_of Examples.env_default)
                        (snd (Indexer.startup (Examples.sys_of Examples.env_default)
                                Examples.ix0))
        = (Ok tt, snd (Indexer.startup (Examples.sys_of Examples.env_default)
                         Examples.ix0))).
Proof.
  apply (startup_serves_index (Examples.sys_of Examples.env_default) Examples.ix0).
  reflexivity.
Defined.

(** X22.  A start that fails leaves the module variable and the
    application state as they were: an index served before stays in
    place. *)
Theorem failed_startup_keeps_index :
  forall (s : Indexer.Sys) (st st' : Indexer.IxSt) (e : exn),
    Indexer.startup s st = (Raise e, st') ->
    Indexer.global_index st' = Indexer.global_index st
    /\ Indexer.app_index st' = Indexer.app_index st.
Proof.
  intros s st st' e Hrun. unfold Indexer.startup in Hrun.
  destruct (Indexer.global_index st) as [cached|] eqn:Hg;
    [destruct (negb (Indexer.force_reload_requested s)); [discriminate Hrun|]|].
  all: destruct (build_index_run s _ _ _ Hrun)
         as (st1 & (_ & Hg1 & Hp1) & [(e' & _ & _ & ->) | (ix & _ & Hr & _)]);
         [|discriminate Hr].
  all: split; congruence.
Qed.

Lemma failed_startup_keeps_index_witness :
  Indexer.global_index
    (snd (Indexer.startup (Examples.with_db_down (Examples.sys_of Examples.env_force))
            Examples.ix_serving))
  = Indexer.global_index Examples.ix_serving
  /\ Indexer.app_index
       (snd (Indexer.startup (Examples.with_db_down (Examples.sys_of Examples.env_force))
               Examples.ix_serving))
     = Indexer.app_index Examples.ix_serving.
Proof.
  apply (failed_startup_keeps_index
           (Examples.with_db_down (Examples.sys_of Examples.env_force))
           Examples.ix_serving _ "connection refused").
  vm_compute; reflexivity.
Defined.

(** X23.  Unless a reload is forced, a start reads no document: it does
    not walk the PDF folder, hands no file to the reader and builds no
    index from documents. *)
Theorem startup_without_reload_reads_nothing :
  forall (s : Indexer.Sys) (st st' : Indexer.IxSt) (r : result unit),
    Indexer.force_reload_requested s = false ->
    Indexer.startup s st = (r, st') ->
    exists new,
      Indexer.ix_trace st' = (Indexer.ix_trace st ++ new)%list
      /\ Forall Indexer.no_document_call new.
Proof.
  intros s st st' r Hforce Hrun. unfold Indexer.startup in Hrun.
  rewrite Hforce in Hrun. cbn [negb] in Hrun.
  destruct (Indexer.global_index st) as [cached|].
  - inversion Hrun; subst. exists []. cbn. rewrite app_nil_r. auto.
  - destruct (build_index_run s _ _ _ Hrun)
      as (st1 & ((new & Ht & Ha) & _) & Hend).
    rewrite Hforce in Ha. exists new. split; [|exact Ha].
    destruct Hend as [(e & _ & _ & ->) | (ix & _ & _ & ->)]; exact Ht.
Qed.

Lemma startup_without_reload_reads_nothing_witness :
  exists new,
    Indexer.ix_trace (snd (Indexer.startup (Examples.sys_of Examples.env_default)
                             Examples.ix0))
    = (Indexer.ix_trace Examples.ix0 ++ new)%list
    /\ Forall Indexer.no_document_call new.
Proof.
  apply (startup_without_reload_reads_nothing (Examples.sys_of Examples.env_default)
           Examples.ix0 _
           (fst (Indexer.startup (Examples.sys_of Examples.env_default) Examples.ix0)));
    reflexivity.
Defined.

(** X24.  When a reload is forced (the variable reads "true" in any
    letter case), a start that succeeds has loaded the PDF files of the
    base folder and has then built the index from exactly the documents
    that loading returned; it never loads the index from the vector
    store, even when an index was being served. *)
Theorem forced_reload_rebuilds_from_pdfs :
  forall (s : Indexer.Sys) (st st' : Indexer.IxSt),
    Indexer.force_reload_requested s = true ->
    Indexer.startup s st = (Ok tt, st') ->
    (exists new,
        Indexer.ix_trace st' = (Indexer.ix_trace st ++ new)%list
        /\ Forall Indexer.no_store_load_call new)
    /\ exists st2 st3 docs embed,
         Indexer.load_all_pdfs_from_folder s (Indexer.BASE_PDF_DIR s) st2 = (Ok docs, st3)
         /\ Indexer.ix_trace st'
            = (Indexer.ix_trace st3
               ++ [Indexer.IxInitVectorDb; Indexer.IxFromDocuments docs embed])%list.
Proof.
  intros s st st' Hforce Hrun. unfold Indexer.startup in Hrun.
  rewrite Hforce in Hrun. cbn [negb] in Hrun.
  assert (Hbuild : Indexer.build_index s st = (Ok tt, st'))
    by (destruct (Indexer.global_index st); exact Hrun).
  clear Hrun.
  destruct (build_index_run s _ _ _ Hbuild)
    as (st1 & ((new & Ht & Ha) & _) & [(e & _ & Hr & _) | (ix & Hprep & _ & ->)]);
    [discriminate Hr|].
  rewrite Hforce in Ha. split; [exists new; auto|].
  unfold Indexer.prepare_index in Hprep.
  apply ibind_ok in Hprep. destruct Hprep as (embed & sa & _ & Hprep).
  apply ibind_ok in Hprep. destruct Hprep as (u & sb & _ & Hprep).
  rewrite Hforce in Hprep.
  apply ibind_ok in Hprep. destruct Hprep as (docs & sc & Hload & Hprep).
  unfold Indexer.load_or_create_index in Hprep.
  apply ibind_ok in Hprep. destruct Hprep as (vs & sd & Hinit & Hbuilt).
  unfold Indexer.icall in Hinit, Hbuilt.
  inversion Hinit; subst sd. inversion Hbuilt; subst st1.
  exists sb, sc, docs, embed. split; [exact Hload|].
  cbn [Indexer.ix_trace]. rewrite <- app_assoc. reflexivity.
Qed.

Lemma forced_reload_rebuilds_from_pdfs_witness :
  exists st2 st3 docs embed,
    Indexer.load_all_pdfs_from_folder (Examples.sys_of Examples.env_force)
      (Indexer.BASE_PDF_DIR (Examples.sys_of Examples.env_force)) st2 = (Ok docs, st3)
    /\ Indexer.ix_trace (snd (Indexer.startup (Examples.sys_of Examples.env_force)
                                Examples.ix_serving))
       = (Indexer.ix_trace st3
          ++ [Indexer.IxInitVectorDb; Indexer.IxFromDocuments docs embed])%list.
Proof.
  apply (forced_reload_rebuilds_from_pdfs (Examples.sys_of Examples.env_force)
           Examples.ix_serving); reflexivity.
Defined.

(** ** A request with a file only *)

Lemma urls_step_without_text (w : World) (user_input : option string) (st : St) :
  Chatbot.given user_input = false ->
  Chatbot.urls_step w user_input st = (Ok [], st).
Proof.
  intros H. unfold Chatbot.urls_step. destruct user_input as [t|]; [|reflexivity].
  simpl in H. rewrite H. reflexivity.
Qed.

(** X25.  When a request carries a file and no text, and the filter
    drops what the file step gave (a blank text, or one that holds
    "Empty Response"), no URL is probed, the retrieval engine is not
    queried, and a success response carries
    "I'm having trouble generating a response right now.". *)
Theorem file_only_request_filtered_out :
  forall (w : World) (uid : nat) (user_input : option string)
         (file : option Chatbot.upload_file) (st st1 st' : St)
         (ff : list string) (r : result Chatbot.endpoint),
    Chatbot.given user_input = false ->
    Chatbot.file_step w user_input file st = (Ok ff, st1) ->
    Chatbot.filter_texts ff = [] ->
    Chatbot.chatbot_body w uid user_input file st = (r, st') ->
    (exists new, trace st' = (trace st1 ++ new)%list
                 /\ queries new = [] /\ Obs.heads new = [])
    /\ forall u resp ts,
         r = Ok (Chatbot.Success u resp ts) ->
         resp = "I'm having trouble generating a response right now.".
Proof.
  intros w uid user_input file st st1 st' ff r Hgiven Hf Hfilter Hbody.
  destruct (chatbot_body_run w _ _ _ _ _ _ Hbody)
    as [(e & Hf' & _)
       | (ff' & st1' & fu & st2 & texts & st3 & Hf' & Hu & Hfb & Hp)];
    rewrite Hf in Hf'; [discriminate Hf'|].
  assert (Hff : ff' = ff) by congruence.
  assert (Hst1 : st1' = st1) by congruence. subst ff' st1'.
  rewrite (urls_step_without_text w user_input st1 Hgiven) in Hu.
  assert (Hfu : fu = []) by congruence.
  assert (Hst2 : st2 = st1) by congruence. subst fu st2.
  rewrite app_nil_r, Hfilter in Hfb.
  rewrite fallback_step_skip in Hfb by (right; exact Hgiven).
  assert (Htexts : texts = []) by congruence.
  assert (Hst3 : st3 = st1) by congruence. subst texts st3.
  destruct (persist_and_reply_run w _ _ _ _ _ _ _ Hp) as ((np & Htp & Hqp & _) & Hok).
  destruct (persist_frame w _ _ _ _ _ _ _ Hp) as (_ & (np' & Htp' & Hcp) & _).
  split.
  - exists np'. split; [exact Htp'|].
    assert (Hnp : np' = np) by (apply (app_inv_head (trace st1)); congruence).
    subst np'. split; [exact Hqp|].
    clear - Hcp. induction Hcp as [|ev new Hev _ IH]; [reflexivity|].
    destruct ev; simpl in Hev |- *; try contradiction; exact IH.
  - intros u resp ts Hr. destruct (Hok _ Hr) as (Hep & _).
    inversion Hep; subst. reflexivity.
Qed.

Lemma file_only_request_filtered_out_witness :
  exists u resp ts,
    fst (Chatbot.chatbot_body Examples.w_empty_reply 7 None (Some Examples.text_upload)
           Examples.st0)
    = Ok (Chatbot.Success u resp ts)
    /\ resp = "I'm having trouble generating a response right now.".
Proof.
  destruct (Chatbot.chatbot_body Examples.w_empty_reply 7 None
              (Some Examples.text_upload) Examples.st0) as [r st'] eqn:Hrun.
  assert (Hr : exists u resp ts, r = Ok (Chatbot.Success u resp ts)).
  { vm_compute in Hrun. inversion Hrun. eauto. }
  destruct Hr as (u & resp & ts & Hr). exists u, resp, ts. split; [exact Hr|].
  destruct (file_only_request_filtered_out Examples.w_empty_reply 7 None
              (Some Examples.text_upload) Examples.st0
              (snd (Chatbot.file_step Examples.w_empty_reply None
                      (Some Examples.text_upload) Examples.st0))
              st' ["Empty Response"] r) as (_ & H);
    [reflexivity | vm_compute; reflexivity | reflexivity | exact Hrun |].
  exact (H u resp ts Hr).
Defined.
